(** * MAT knowledge-graph chatbot: retrieval, context composition,
      post-processing, normalisation and evaluation

    A shallow embedding of the Python sources

      - [src/data_scrapper.py]   ([MATScraper.clean_data], [_clean_text])
      - [src/retriever.py]       ([DocumentRetriever])
      - [src/rag_system.py]      ([RAGSystem])
      - [src/evaluation.py]      ([ChatbotEvaluator])
      - [src/Knowledge_graph.py] ([KnowledgeGraph._extract_entities],
                                  [_extract_relationships])
      - [src/chatbot.py]         ([MATChatbot.process_query])

    Python [str] values are lists of characters; a character is a code
    point below 256 ([ascii]).  Python floats that are only compared,
    added and divided (similarities, metric values, timings) are exact
    rationals [Q].  A Python call that may raise returns a [result].
    Third-party collaborators (scikit-learn, the text generator, Neo4j,
    rouge/BLEU scorers, the clock, the CSV file) are the fields of one
    record [Env]. *)

From Stdlib Require Import QArith Qminmax Ascii Lqa Sorting.Sorted.
From stdpp Require Import gmap strings list.

Local Open Scope list_scope.

(** ** Python primitives *)

Module Py.

Abbreviation str := (list ascii).

(** A string literal. *)
Definition py (s : string) : str := String.list_ascii_of_string s.

Inductive exn : Type :=
| ValueError
| ZeroDivisionError
| IndexError
| KeyError
| TypeError
| AttributeError
| ReError
| IOError
| RuntimeError.

Inductive result (A : Type) : Type :=
| Ok (a : A)
| Raise (e : exn).
Arguments Ok {A} a.
Arguments Raise {A} e.

Definition bind {A B} (m : result A) (f : A -> result B) : result B :=
  match m with
  | Ok a => f a
  | Raise e => Raise e
  end.

(** [try: m except Exception: h] *)
Definition try_except {A} (m : result A) (h : A) : A :=
  match m with
  | Ok a => a
  | Raise _ => h
  end.

(** [str.isspace] on one character: U+0009..U+000D, U+001C..U+0020,
    U+0085 and U+00A0. *)
Definition is_space (c : ascii) : bool :=
  let n := nat_of_ascii c in
  ((9 <=? n) && (n <=? 13)) || ((28 <=? n) && (n <=? 32))
  || (n =? 133) || (n =? 160).

Fixpoint lstrip (s : str) : str :=
  match s with
  | [] => []
  | c :: s' => if is_space c then lstrip s' else s
  end.

Definition rstrip (s : str) : str := rev (lstrip (rev s)).

(** [s.strip()] *)
Definition strip (s : str) : str := rstrip (lstrip s).

(** [str.lower] on one character: A-Z and the upper-case letters of
    Latin-1 (U+00C0..U+00DE without the multiplication sign). *)
Definition lower_char (c : ascii) : ascii :=
  let n := nat_of_ascii c in
  if ((65 <=? n) && (n <=? 90))
     || ((192 <=? n) && (n <=? 222) && negb (n =? 215))
  then ascii_of_nat (n + 32) else c.

Definition lower (s : str) : str := map lower_char s.

(** [s.split(sep)] for a one-character separator: always at least one
    piece. *)
Fixpoint split_char (sep : ascii) (s : str) : list str :=
  match s with
  | [] => [[]]
  | c :: s' =>
      if Ascii.eqb c sep then [] :: split_char sep s'
      else match split_char sep s' with
           | [] => [[c]]
           | p :: ps => (c :: p) :: ps
           end
  end.

(** [sep.join(parts)] *)
Fixpoint join (sep : str) (parts : list str) : str :=
  match parts with
  | [] => []
  | [p] => p
  | p :: ps => p ++ sep ++ join sep ps
  end.

(** [prefix] is an initial segment of [s]. *)
Fixpoint starts_with (prefix s : str) : bool :=
  match prefix, s with
  | [], _ => true
  | _ :: _, [] => false
  | a :: prefix', b :: s' => Ascii.eqb a b && starts_with prefix' s'
  end.

(** [needle in hay] *)
Fixpoint contains (needle hay : str) : bool :=
  starts_with needle hay
  || match hay with
     | [] => false
     | _ :: hay' => contains needle hay'
     end.

(** [s.split(sep)[-1]] for a non-empty separator: the text after the
    last occurrence found by the left-to-right, non-overlapping scan.
    [skip] counts the characters of a separator still to be passed;
    [cur] is the piece being read, reversed. *)
Fixpoint split_last_go (sep : str) (skip : nat) (cur : str) (s : str) : str :=
  match s with
  | [] => rev cur
  | c :: s' =>
      match skip with
      | S n => split_last_go sep n cur s'
      | O =>
          if starts_with sep s
          then split_last_go sep (length sep - 1) [] s'
          else split_last_go sep 0 (c :: cur) s'
      end
  end.

Definition split_last (sep : str) (s : str) : str := split_last_go sep 0 [] s.

(** [s.split()]: the maximal runs of non-whitespace characters. *)
Fixpoint split_ws_go (cur : str) (s : str) : list str :=
  match s with
  | [] => match cur with [] => [] | _ => [rev cur] end
  | c :: s' =>
      if is_space c
      then match cur with
           | [] => split_ws_go [] s'
           | _ => rev cur :: split_ws_go [] s'
           end
      else split_ws_go (c :: cur) s'
  end.

Definition split_ws (s : str) : list str := split_ws_go [] s.

(** [l[start:]] for a Python integer [start]: a negative [start]
    counts from the end, and is clamped at the beginning. *)
Definition slice_from {A} (start : Z) (l : list A) : list A :=
  if (start <? 0)%Z
  then drop (Z.to_nat (Z.of_nat (length l) + start)) l
  else drop (Z.to_nat start) l.

(** [l[:-1]] *)
Definition but_last {A} (l : list A) : list A := take (length l - 1) l.

(** [x < y] on numbers *)
Definition Qlt_bool (x y : Q) : bool := negb (Qle_bool y x).

(** [sum(values)]: starts from 0 and adds from the left.  The floats of
    the program are read as the rationals they denote and their sums and
    quotients as exact, where Python rounds each of them to the nearest
    float: a sum of floats divided by their number can come out one
    place above the largest of them.  So of a mean the theorems state
    which values it is computed from, and no bound is drawn from the
    exact arithmetic; comparisons, minima and maxima round nothing. *)
Definition sum (values : list Q) : Q := fold_left Qplus values 0%Q.

(** [min(values)] and [max(values)] of a non-empty list: the first
    smallest (largest) element. *)
Definition py_min (v : Q) (values : list Q) : Q :=
  fold_left (fun m x => if Qlt_bool x m then x else m) values v.
Definition py_max (v : Q) (values : list Q) : Q :=
  fold_left (fun m x => if Qlt_bool m x then x else m) values v.

End Py.
Export Py.

(** [result] is a monad; its bind is written [x ← m; k]. *)
#[global] Instance result_ret : MRet result := fun _ a => Ok a.
#[global] Instance result_bind : MBind result := fun _ _ f m => bind m f.
#[global] Instance result_fmap : FMap result := fun _ _ f m =>
  match m with
  | Ok a => Ok (f a)
  | Raise e => Raise e
  end.

(** ** Tabular data: the rows of a [pandas.DataFrame] with the columns
    [text], [source_url] and [length], and their index labels *)

Record Row : Type := mkRow {
  index : nat;
  text : str;
  source_url : str;
  length_col : nat
}.

Abbreviation DataFrame := (list Row).

(** ** [data_scrapper.py] *)

Module Scraper.

(** [re.sub(r'\\s+', ' ', text)].  The pattern is written with two
    backslashes inside a raw string: an escaped backslash followed by
    one or more letters [s].  [in_run] tells that such a match has been
    opened and its letters [s] are being consumed. *)
Fixpoint sub_backslash_s (in_run : bool) (t : str) : str :=
  match t with
  | [] => []
  | c :: rest =>
      if in_run && Ascii.eqb c "s" then sub_backslash_s true rest
      else if Ascii.eqb c "\" && starts_with ["s"%char] rest
           then " "%char :: sub_backslash_s true rest
           else c :: sub_backslash_s false rest
  end.

(** The characters outside the negated class [[^\\w\\s.,;:!?()-]]: the
    class lists the backslash (escaped, twice), the letters [w] and [s],
    and the punctuation [. , ; : ! ? ( ) -]. *)
Definition in_kept_class (c : ascii) : bool :=
  existsb (Ascii.eqb c) (py "\ws.,;:!?()-").

(** [MATScraper._clean_text] *)
Definition _clean_text (t : str) : str :=
  let t := sub_backslash_s false t in
  let t := filter (fun c => in_kept_class c = true) t in
  strip t.

(** [df.drop_duplicates(subset=['text'])]: the first row of every text
    is kept.  [seen] holds the texts of the rows already passed. *)
Fixpoint drop_duplicates_from (seen : list str) (df : DataFrame) : DataFrame :=
  match df with
  | [] => []
  | r :: df' =>
      if bool_decide (text r ∈ seen) then drop_duplicates_from seen df'
      else r :: drop_duplicates_from (text r :: seen) df'
  end.

Definition drop_duplicates (df : DataFrame) : DataFrame :=
  drop_duplicates_from [] df.

(** [df.reset_index(drop=True)] *)
Definition reset_index (df : DataFrame) : DataFrame :=
  imap (fun i r => mkRow i (text r) (source_url r) (length_col r)) df.

(** [MATScraper.clean_data] *)
Definition clean_data (df : DataFrame) : DataFrame :=
  (* Remove empty texts *)
  let df := filter (fun r => 0 < length (text r)) df in
  (* Remove duplicates *)
  let df := drop_duplicates df in
  (* Clean text *)
  let df := map (fun r => mkRow (index r) (_clean_text (text r))
                                (source_url r) (length_col r)) df in
  (* Filter out very short texts (less than 20 characters) *)
  let df := filter (fun r => 20 <= length (text r)) df in
  (* Reset index *)
  reset_index df.

(** *** Scraping.  [page] stands for the request and the HTML parser:
    the text of every paragraph tag of the page at a URL, or the
    exception raised on the way; [urls] is [config.URLS]. *)
Section Scraping.
Variable page : str -> result (list str).
Variable urls : list str.



End Scraping.

End Scraper.

(** ** The third-party collaborators *)

Record Env : Type := mkEnv {
  (** scikit-learn: whether [TfidfVectorizer.fit_transform] accepts the
      texts (it raises [ValueError] on an empty vocabulary) *)
  fit_transform_ok : list str -> bool;
  (** scikit-learn: for a vectorizer fitted on the texts, the cosine
      similarity of the vector of a query and the vector of a text *)
  tfidf_cosine : list str -> str -> str -> Q;
  (** Python's [re.compile(pat, re.IGNORECASE)], asked only for patterns
      outside the fragment interpreted below: the search the compiled
      pattern performs on a text, or the error of a pattern that does
      not compile *)
  re_compile_ignorecase : str -> result (str -> bool);
  (** [pd.read_csv] of the cleaned data file *)
  read_csv : result DataFrame;
  (** whether the configured model, and the fallback model, load *)
  model_loads : bool;
  fallback_model_loads : bool;
  (** the text-generation pipeline: the list of returned candidates, each
      with its [generated_text] when it has one *)
  generator : str -> result (list (option str));
  (** [KnowledgeGraph.query_graph]: the [n.name] of every returned row,
      when the row has one that is a string *)
  query_graph : str -> list (option str);
  (** rouge_score and nltk *)
  rouge1 : str -> str -> Q;
  rouge2 : str -> str -> Q;
  rougeL : str -> str -> Q;
  sentence_bleu : list str -> list str -> Q;
  (** the wall-clock time one answer takes *)
  elapsed : str -> Q
}.

(** ** [retriever.py] *)

Module Retriever.

(** *** The fragment of regular expressions interpreted here:
    alternatives separated by [|], each a sequence of literal characters
    and dots. *)
Inductive atom : Type :=
| Lit (c : ascii)
| AnyChar.

Definition is_meta (c : ascii) : bool :=
  existsb (Ascii.eqb c) (py "\^$*+?{}[]()").

Fixpoint parse_alternative (s : str) : option (list atom) :=
  match s with
  | [] => Some []
  | c :: s' =>
      if is_meta c then None
      else atoms ← parse_alternative s';
           Some ((if Ascii.eqb c "." then AnyChar else Lit c) :: atoms)
  end.

Definition parse_pattern (pat : str) : option (list (list atom)) :=
  mapM parse_alternative (split_char "|" pat).

(** The atoms match an initial segment of the text, ignoring case; a
    dot matches every character but a line feed. *)
Fixpoint match_here (atoms : list atom) (t : str) : bool :=
  match atoms, t with
  | [], _ => true
  | _ :: _, [] => false
  | Lit c :: atoms', d :: t' =>
      Ascii.eqb (lower_char c) (lower_char d) && match_here atoms' t'
  | AnyChar :: atoms', d :: t' =>
      negb (Ascii.eqb d "010") && match_here atoms' t'
  end.

Fixpoint search_here_or_later (atoms : list atom) (t : str) : bool :=
  match_here atoms t
  || match t with
     | [] => false
     | _ :: t' => search_here_or_later atoms t'
     end.

(** [re.compile(pat, re.IGNORECASE)]: the search for the pattern, or
    the error of a pattern that does not compile. *)
Definition re_compile (env : Env) (pat : str) : result (str -> bool) :=
  match parse_pattern pat with
  | Some alternatives =>
      Ok (fun t => existsb (fun atoms => search_here_or_later atoms t) alternatives)
  | None => re_compile_ignorecase env pat
  end.

(** [Series.str.contains(pat, case=False, na=False)]: pandas compiles
    the pattern once, before it reads any text, and then searches every
    text with it. *)
Definition str_contains (env : Env) (pat : str) (texts : list str)
    : result (list bool) :=
  regex ← re_compile env pat;
  Ok (map regex texts).

(** *** [np.argsort]: the indices that sort the values in ascending
    order, by insertion; equal values keep the order of their indices.
    (numpy's default sort kind sorts short arrays by insertion; it makes
    no promise about the order of equal values.)  The theorems on
    [retrieve] use of it only that the indices are a permutation sorted
    by value; where equal values are put shows in the example of two
    documents with one text, and nowhere else. *)
Fixpoint insert (p : nat * Q) (l : list (nat * Q)) : list (nat * Q) :=
  match l with
  | [] => [p]
  | q :: l' => if Qle_bool (snd p) (snd q) then p :: l else q :: insert p l'
  end.

Definition argsort (a : list Q) : list nat :=
  map fst (foldr insert [] (imap pair a)).

(** [df.head(k)] *)
Definition head {A} (k : Z) (l : list A) : list A :=
  if (k <? 0)%Z then take (length l - Z.to_nat (- k)) l
  else take (Z.to_nat k) l.

(** *** [DocumentRetriever] *)

(** [fitted] holds the texts the vectorizer was fitted on, and stands
    for [document_vectors]; [is_fitted] is whether it is there. *)
Record DocumentRetriever : Type := mkRetriever {
  documents : option DataFrame;
  fitted : option (list str)
}.

Definition is_fitted (r : DocumentRetriever) : bool :=
  bool_decide (is_Some (fitted r)).

(** The dictionaries [retrieve] returns. *)
Record Hit : Type := mkHit {
  hit_text : str;
  hit_source_url : str;
  similarity : Q;
  hit_index : nat
}.

(** The dictionaries [retrieve_by_keywords] returns. *)
Record KeywordHit : Type := mkKeywordHit {
  kw_text : str;
  kw_source_url : str;
  kw_similarity : Q;
  keywords_found : list str
}.

Section WithEnv.
Variable env : Env.

Definition load_documents (r : DocumentRetriever) : result DocumentRetriever :=
  df ← read_csv env;
  Ok (mkRetriever (Some df) (fitted r)).

Definition fit (r : DocumentRetriever) : result DocumentRetriever :=
  match documents r with
  | None => Raise ValueError
  | Some df =>
      let texts := map text df in
      if fit_transform_ok env texts
      then Ok (mkRetriever (Some df) (Some texts))
      else Raise ValueError
  end.

(** The loop over [top_indices] of [retrieve]. *)
Fixpoint collect (docs : option DataFrame) (similarities : list Q)
    (top_indices : list nat) : result (list Hit) :=
  match top_indices with
  | [] => Ok []
  | idx :: rest =>
      match similarities !! idx with
      | None => Raise IndexError
      | Some s =>
          if Qlt_bool 0 s
          then match docs with
               | None => Raise AttributeError
               | Some df =>
                   match df !! idx with
                   | None => Raise IndexError
                   | Some row =>
                       results ← collect docs similarities rest;
                       Ok (mkHit (text row) (source_url row) s idx :: results)
                   end
               end
          else collect docs similarities rest
      end
  end.

Definition retrieve (r : DocumentRetriever) (query : str) (k : Z)
    : result (DocumentRetriever * list Hit) :=
  r ← (if is_fitted r then Ok r else fit r);
  match fitted r with
  | None => Raise TypeError
  | Some texts =>
      (* Calculate similarities *)
      let similarities := map (tfidf_cosine env texts query) texts in
      (* Get top-k indices *)
      let top_indices := rev (slice_from (- k) (argsort similarities)) in
      (* Prepare results *)
      results ← collect (documents r) similarities top_indices;
      Ok (r, results)
  end.

Definition retrieve_by_keywords (r : DocumentRetriever)
    (keywords : list str) (k : Z) : result (list KeywordHit) :=
  match documents r with
  | None => Raise ValueError
  | Some df =>
      mask ← str_contains env (join (py "|") keywords) (map text df);
      let matching_docs :=
        head k (map fst (filter (fun p => snd p = true) (zip df mask))) in
      Ok (map (fun row => mkKeywordHit (text row) (source_url row) 1 keywords)
              matching_docs)
  end.

End WithEnv.

(** The dictionary [get_document_statistics] returns.  The mean of the
    lengths of no text at all is NaN, here [None]. *)
Record Statistics : Type := mkStatistics {
  total_documents : nat;
  average_length : option Q;
  total_words : nat;
  unique_sources : nat
}.

(** [Series.mean] of a column of integers *)
Definition series_mean (values : list nat) : option Q :=
  match values with
  | [] => None
  | _ => Some (inject_Z (Z.of_nat (sum_list values))
               / inject_Z (Z.of_nat (length values)))%Q
  end.

(** [DocumentRetriever.get_document_statistics]; [None] is the empty
    dictionary. *)
Definition get_document_statistics (r : DocumentRetriever) : option Statistics :=
  match documents r with
  | None => None
  | Some df =>
      Some (mkStatistics
              (length df)
              (series_mean (map (fun row => length (text row)) df))
              (sum_list (map (fun row => length (split_ws (text row))) df))
              (length (remove_dups (map source_url df))))
  end.

End Retriever.

(** ** [rag_system.py] *)

Module Rag.
Import Retriever.

Record RAGSystem : Type := mkRAG {
  retriever : DocumentRetriever;
  is_loaded : bool
}.

(** The dictionary [generate_response] returns; the early return for a
    model that is not loaded has only the first two keys. *)
Record Response : Type := mkResponse {
  response : str;
  sources : list str;
  context_used : option bool;
  kg_context : option bool
}.

Definition not_loaded_message : str :=
  py "Model not loaded. Please try again later.".

Definition apology : str :=
  py "I apologize, but I'm having trouble generating a response right now. Please try again.".

Definition line_feed : str := ["010"%char].

(** [RAGSystem._clean_response] *)
Definition _clean_response (response : str) : str :=
  (* Remove any trailing incomplete sentences *)
  let sentences := split_char "." response in
  let response :=
    if bool_decide (1 < length sentences
                    ∧ length (strip (List.last sentences [])) < 10)
    then join (py ".") (but_last sentences) ++ py "."
    else response in
  (* Limit length *)
  let response :=
    if bool_decide (500 < length response)
    then take 500 response ++ py "..."
    else response in
  strip response.

(** [RAGSystem._prepare_context]; the separator is written ["\\n"], a
    backslash and the letter n. *)
Definition _prepare_context (relevant_docs : list Hit) (kg_context : str) : str :=
  let context_parts := [] in
  let context_parts :=
    match kg_context with
    | [] => context_parts
    | _ => context_parts ++ [py "Knowledge Graph Context: " ++ kg_context]
    end in
  let context_parts :=
    match relevant_docs with
    | [] => context_parts
    | _ =>
        let doc_texts :=
          map (fun doc => take 200 (hit_text doc) ++ py "...")
              (take 3 relevant_docs) in
        context_parts
          ++ [py "Relevant Information: " ++ join (py " ") doc_texts]
    end in
  join (py "\n") context_parts.

(** The prompt of [_generate_with_context], an f-string over three
    lines separated by empty lines. *)
Definition prompt (query context : str) : str :=
  py "Context: " ++ context ++ line_feed ++ line_feed
  ++ py "Question: " ++ query ++ line_feed ++ line_feed
  ++ py "Answer: ".

Section WithEnv.
Variable env : Env.

Definition load_model (sys : RAGSystem) : RAGSystem :=
  mkRAG (retriever sys) (model_loads env || fallback_model_loads env).

Definition setup (sys : RAGSystem) : result RAGSystem :=
  r ← load_documents env (retriever sys);
  r ← fit env r;
  let sys := mkRAG r (is_loaded sys) in
  Ok (if is_loaded sys then sys else load_model sys).

(** The names of the rows, joined by [', ']; a row without a string
    name makes the comprehension or the join raise. *)
Definition joined_names (rows : list (option str)) : result str :=
  names ← match mapM id rows with
           | Some names => Ok names
           | None => Raise KeyError
           end;
  Ok (join (py ", ") names).

(** [RAGSystem._get_kg_context] *)
Definition _get_kg_context (query : str) : str :=
  try_except
    (found ←
       (if contains (py "standard") (lower query)
        then match query_graph env (py "MATCH (n:MATStandard) RETURN n.name LIMIT 5") with
             | [] => Ok None
             | kg_results =>
                 standards ← joined_names kg_results;
                 Ok (Some (py "Related MAT Standards: " ++ standards))
             end
        else Ok None);
     match found with
     | Some s => Ok s
     | None =>
         if contains (py "organization") (lower query)
         then match query_graph env (py "MATCH (n:Organization) RETURN n.name LIMIT 3") with
              | [] => Ok []
              | kg_results =>
                  orgs ← joined_names kg_results;
                  Ok (py "Related Organizations: " ++ orgs)
              end
         else Ok []
     end)
    [].

(** [RAGSystem._generate_with_context] *)
Definition _generate_with_context (query context : str) : str :=
  try_except
    (outputs ← generator env (prompt query context);
     first ← match outputs with
              | [] => Raise IndexError
              | o :: _ => Ok o
              end;
     generated_text ← match first with
                       | None => Raise KeyError
                       | Some t => Ok t
                       end;
     let response := strip (split_last (py "Answer: ") generated_text) in
     Ok (_clean_response response))
    apology.

(** [RAGSystem.generate_response] *)
Definition generate_response (sys : RAGSystem) (query : str)
    (use_kg : bool) (k : Z) : result (RAGSystem * Response) :=
  if negb (is_loaded sys)
  then Ok (sys, mkResponse not_loaded_message [] None None)
  else
    (* Retrieve relevant documents *)
    '(r, relevant_docs) ← retrieve env (retriever sys) query k;
    (* Get knowledge graph context if requested *)
    let kg := if use_kg then _get_kg_context query else [] in
    (* Prepare context for generation *)
    let context := _prepare_context relevant_docs kg in
    (* Generate response *)
    let response := _generate_with_context query context in
    Ok (mkRAG r (is_loaded sys),
        mkResponse response
          (filter (fun u => u <> []) (map hit_source_url relevant_docs))
          (Some (bool_decide (0 < length relevant_docs)
                 || negb (bool_decide (kg = []))))
          (Some (negb (bool_decide (kg = []))))).

End WithEnv.

End Rag.

(** ** [evaluation.py] *)

Module Evaluation.
Import Retriever Rag.

Record TestCase : Type := mkCase {
  tc_question : str;
  tc_expected_answer : str;
  tc_category : str
}.

(** The keys of a metrics dictionary that are averaged. *)
Inductive Metric : Type := rouge1_f | rouge2_f | rougeL_f | bleu | keyword_overlap.

Definition metric_name (m : Metric) : str :=
  match m with
  | rouge1_f => py "rouge1_f"
  | rouge2_f => py "rouge2_f"
  | rougeL_f => py "rougeL_f"
  | bleu => py "bleu"
  | keyword_overlap => py "keyword_overlap"
  end.

(** The dictionary [evaluate_response] returns, with the metadata
    [run_evaluation] adds to it. *)
Record Metrics : Type := mkMetrics {
  m_rouge1_f : Q;
  m_rouge2_f : Q;
  m_rougeL_f : Q;
  m_bleu : Q;
  m_length_ratio : Q;
  m_keyword_overlap : Q;
  question : str;
  expected : str;
  generated : str;
  category : str;
  response_time : Q;
  sources_found : nat;
  m_context_used : bool
}.

(** [r[metric]] *)
Definition get (m : Metric) (r : Metrics) : Q :=
  match m with
  | rouge1_f => m_rouge1_f r
  | rouge2_f => m_rouge2_f r
  | rougeL_f => m_rougeL_f r
  | bleu => m_bleu r
  | keyword_overlap => m_keyword_overlap r
  end.

Record Report : Type := mkReport {
  individual_results : list Metrics;
  aggregate_metrics : gmap str Q;
  test_cases_count : nat
}.

(** [a / n] for a number [a] and a length [n] *)
Definition div_len (a : Q) (n : nat) : result Q :=
  match n with
  | O => Raise ZeroDivisionError
  | S _ => Ok (a / inject_Z (Z.of_nat n))%Q
  end.

(** [min(values)], [max(values)] *)
Definition min_of (values : list Q) : result Q :=
  match values with
  | [] => Raise ValueError
  | v :: vs => Ok (py_min v vs)
  end.
Definition max_of (values : list Q) : result Q :=
  match values with
  | [] => Raise ValueError
  | v :: vs => Ok (py_max v vs)
  end.

(** A [for] loop whose body may raise. *)
Fixpoint for_each {A S} (l : list A) (body : S -> A -> result S) (s : S) : result S :=
  match l with
  | [] => Ok s
  | x :: l' => s ← body s x; for_each l' body s
  end.

Definition metrics : list Metric :=
  [rouge1_f; rouge2_f; rougeL_f; bleu; keyword_overlap].

(** [ChatbotEvaluator._calculate_aggregate_metrics].  The categories
    are iterated as a set, in an order Python leaves open; here in the
    order of their last occurrences. *)
Definition _calculate_aggregate_metrics (results : list Metrics)
    : result (gmap str Q) :=
  aggregates ←
    for_each metrics (fun (aggregates : gmap str Q) metric =>
      let values := map (get metric) results in
      mean ← div_len (sum values) (length values);
      let aggregates := <[metric_name metric ++ py "_mean" := mean]> aggregates in
      lo ← min_of values;
      let aggregates := <[metric_name metric ++ py "_min" := lo]> aggregates in
      hi ← max_of values;
      Ok (<[metric_name metric ++ py "_max" := hi]> aggregates)) ∅;
  (* Category-wise performance *)
  let categories := remove_dups (map category results) in
  for_each categories (fun (aggregates : gmap str Q) cat =>
    let category_results := filter (fun r => category r = cat) results in
    for_each metrics (fun (aggregates : gmap str Q) metric =>
      let values := map (get metric) category_results in
      mean ← div_len (sum values) (length values);
      Ok (<[cat ++ py "_" ++ metric_name metric ++ py "_mean" := mean]> aggregates))
      aggregates) aggregates.

Definition create_test_dataset : list TestCase :=
  [ mkCase (py "What are the MAT standards?")
      (py "MAT standards are Medication-Assisted Treatment standards that provide guidelines for treatment implementation.")
      (py "general");
    mkCase (py "What is MAT Standard 1?")
      (py "MAT Standard 1 focuses on access and choice in medication-assisted treatment.")
      (py "specific_standard");
    mkCase (py "How are MAT standards implemented?")
      (py "MAT standards are implemented through healthcare organizations and supported by various agencies.")
      (py "implementation");
    mkCase (py "What is the aim of MAT?")
      (py "The aim of MAT is to provide effective medication-assisted treatment for substance use disorders.")
      (py "purpose");
    mkCase (py "Which organizations support MAT?")
      (py "Organizations like Public Health Scotland and NHS support MAT implementation.")
      (py "organizations") ].

Section WithEnv.
Variable env : Env.

(** [ChatbotEvaluator.evaluate_response], without the metadata *)
Definition evaluate_response (reference generated : str) : Metrics :=
  let reference_tokens := split_ws reference in
  let generated_tokens := split_ws generated in
  let bleu_score := sentence_bleu env reference_tokens generated_tokens in
  let length_ratio :=
    (inject_Z (Z.of_nat (length generated_tokens))
     / inject_Z (Z.of_nat (Nat.max (length reference_tokens) 1)))%Q in
  let ref_words := remove_dups (split_ws (lower reference)) in
  let gen_words := remove_dups (split_ws (lower generated)) in
  let common := filter (fun w => w ∈ gen_words) ref_words in
  let overlap :=
    (inject_Z (Z.of_nat (length common))
     / inject_Z (Z.of_nat (Nat.max (length ref_words) 1)))%Q in
  mkMetrics (rouge1 env reference generated) (rouge2 env reference generated)
            (rougeL env reference generated) bleu_score length_ratio overlap
            [] [] [] [] 0 0 false.

(** The body of the loop of [run_evaluation]: the state is the
    system, the results so far and the total time. *)
Definition evaluate_case (st : RAGSystem * list Metrics * Q) (test_case : TestCase)
    : result (RAGSystem * list Metrics * Q) :=
  let '(sys, results, total_time) := st in
  let question := tc_question test_case in
  let expected := tc_expected_answer test_case in
  (* Generate response and measure time *)
  '(sys, result) ← generate_response env sys question true 3;
  let response_time := elapsed env question in
  let total_time := (total_time + response_time)%Q in
  let generated := response result in
  (* Evaluate response *)
  let m := evaluate_response expected generated in
  (* Add metadata *)
  let m := mkMetrics (m_rouge1_f m) (m_rouge2_f m) (m_rougeL_f m) (m_bleu m)
             (m_length_ratio m) (m_keyword_overlap m)
             question expected generated (tc_category test_case) response_time
             (length (sources result))
             (default false (context_used result)) in
  Ok (sys, results ++ [m], total_time).

(** [ChatbotEvaluator.run_evaluation] *)
Definition run_evaluation (sys : RAGSystem) (test_cases : option (list TestCase))
    : result (RAGSystem * Report) :=
  let test_cases := default create_test_dataset test_cases in
  (* Setup RAG system *)
  sys ← (if is_loaded sys then Ok sys else setup env sys);
  '(sys, results, total_time) ← for_each test_cases evaluate_case (sys, [], 0%Q);
  (* Calculate aggregate metrics *)
  aggregate ← _calculate_aggregate_metrics results;
  let aggregate := <[py "total_evaluation_time" := total_time]> aggregate in
  average ← div_len total_time (length test_cases);
  let aggregate := <[py "average_response_time" := average]> aggregate in
  Ok (sys, mkReport results aggregate (length test_cases)).

End WithEnv.

End Evaluation.

(** ** [Knowledge_graph.py]: the extraction of entities and relations
    from the texts *)

Module KnowledgeGraph.
Import Retriever Evaluation.

Record Entities : Type := mkEntities {
  MATStandard : list str;
  Organization : list str;
  Concept : list str;
  Location : list str
}.

Record Relationships : Type := mkRelationships {
  SUPPORTS : list (str * str);
  IMPLEMENTS : list (str * str);
  AIMS_AT : list (str * str);
  PROVIDES : list (str * str)
}.

(** The patterns for standards end in [\\d+], written with two
    backslashes inside a raw string: an escaped backslash followed by
    one or more letters [d].  They are given by what stands before. *)
Definition mat_patterns : list str :=
  [py "MAT Standard "; py "Standard "; py "MAT "].

Definition org_patterns : list str :=
  [py "Public Health Scotland"; py "NHS"; py "Government"; py "Health Board"].

Definition location_patterns : list str :=
  [py "Scotland"; py "UK"; py "United Kingdom"].

Definition concept_patterns : list str :=
  [py "medication.assisted.treatment"; py "substance.use"; py "treatment";
   py "recovery"; py "support"].

(** The number of letters [d], of either case, the text begins with. *)
Fixpoint span_d (t : str) : nat :=
  match t with
  | c :: t' => if Ascii.eqb (lower_char c) "d" then S (span_d t') else 0
  | [] => 0
  end.

(** The length of the match of [prefix \\d+] at the beginning of the
    text, case ignored. *)
Definition match_backslash_d (prefix t : str) : option nat :=
  if match_here (map Lit prefix) t
  then match drop (length prefix) t with
       | c :: rest =>
           if Ascii.eqb c "\" && bool_decide (0 < span_d rest)
           then Some (length prefix + 1 + span_d rest)
           else None
       | [] => None
       end
  else None.

(** [re.findall(prefix + r'\\d+', text, re.IGNORECASE)]: the matches
    found from left to right, none overlapping another.  [skip] counts
    the characters of a match still to be passed. *)
Fixpoint findall_go (prefix : str) (skip : nat) (t : str) : list str :=
  match t with
  | [] => []
  | _ :: t' =>
      match skip with
      | S n => findall_go prefix n t'
      | O =>
          match match_backslash_d prefix t with
          | Some n => take n t :: findall_go prefix (n - 1) t'
          | None => findall_go prefix 0 t'
          end
      end
  end.

Definition findall_backslash_d (prefix t : str) : list str :=
  findall_go prefix 0 t.

(** [pattern.replace('.', ' ')] *)
Definition dots_to_spaces (pattern : str) : str :=
  map (fun c => if Ascii.eqb c "." then " "%char else c) pattern.

Section WithEnv.
Variable env : Env.

(** The patterns that [re.search(pattern, text, re.IGNORECASE)] finds
    in the text. *)
Fixpoint found (patterns : list str) (t : str) : result (list str) :=
  match patterns with
  | [] => Ok []
  | pattern :: patterns' =>
      regex ← re_compile env pattern;
      rest ← found patterns' t;
      Ok (if (regex : str -> bool) t then pattern :: rest else rest)
  end.

(** [KnowledgeGraph._extract_entities].  The lists are made of sets, in
    an order Python leaves open; here in the order of the last
    occurrences. *)
Definition _extract_entities (df : DataFrame) : result Entities :=
  entities ←
    for_each df (fun entities row =>
      let t := lower (text row) in
      (* Extract MAT Standards *)
      let standards :=
        flat_map (fun pattern => findall_backslash_d pattern t) mat_patterns in
      (* Extract Organizations *)
      orgs ← found org_patterns t;
      (* Extract Locations *)
      locations ← found location_patterns t;
      (* Extract Concepts *)
      concepts ← found concept_patterns t;
      Ok (mkEntities (MATStandard entities ++ standards)
                     (Organization entities ++ orgs)
                     (Concept entities ++ map dots_to_spaces concepts)
                     (Location entities ++ locations)))
      (mkEntities [] [] [] []);
  (* Remove duplicates *)
  Ok (mkEntities (remove_dups (MATStandard entities))
                 (remove_dups (Organization entities))
                 (remove_dups (Concept entities))
                 (remove_dups (Location entities))).

End WithEnv.

(** [KnowledgeGraph._extract_relationships] *)
Definition _extract_relationships (df : DataFrame) : Relationships :=
  foldl (fun relationships row =>
    let t := lower (text row) in
    mkRelationships
      (SUPPORTS relationships
       ++ (if contains (py "supports") t then [(py "MAT", py "Support")] else []))
      (IMPLEMENTS relationships
       ++ (if contains (py "implements") t || contains (py "implementation") t
           then [(py "MAT Standards", py "Implementation")] else []))
      (AIMS_AT relationships
       ++ (if contains (py "aims") t || contains (py "aimed at") t
           then [(py "MAT Standards", py "Organizations")] else []))
      (PROVIDES relationships
       ++ (if contains (py "provides") t then [(py "MAT", py "Treatment")] else [])))
    (mkRelationships [] [] [] []) df.

End KnowledgeGraph.

(** ** [chatbot.py] *)

Module Chatbot.
Import Retriever Rag.

(** An entry of [chat_history]. *)
Record Exchange : Type := mkExchange {
  ex_query : str;
  ex_response : str;
  ex_sources : list str
}.

Record MATChatbot : Type := mkChatbot {
  rag_system : RAGSystem;
  chat_history : list Exchange
}.

Definition welcome : str :=
  py "Welcome! Ask me anything about MAT (Medication-Assisted Treatment) standards.".

Definition error_response : str :=
  py "I apologize, but I encountered an error. Please try again.".

Definition cleared : str :=
  py "Chat cleared! How can I help you with MAT standards?".

Section WithEnv.
Variable env : Env.
(** The emoji U+1F4DA that opens the line of sources; it is no
    character of [str]. *)
Variable books : str.

(** The lines [_format_chat_history] makes of one exchange. *)
Definition format_exchange (exchange : Exchange) : list str :=
  [py "**You:** " ++ ex_query exchange;
   py "**MAT Bot:** " ++ ex_response exchange]
  ++ match ex_sources exchange with
     | [] => []
     | _ =>
         let sources_text :=
           books ++ py " Sources: " ++ join (py ", ") (take 2 (ex_sources exchange)) in
         [py "*" ++ sources_text ++ py "*"]
     end
  ++ [[]].

(** [MATChatbot._format_chat_history]; the separator is written
    ["\\n"], a backslash and the letter n. *)
Definition _format_chat_history (bot : MATChatbot) : str :=
  match chat_history bot with
  | [] => welcome
  | history => join (py "\n") (flat_map format_exchange history)
  end.

(** [MATChatbot.process_query] *)
Definition process_query (bot : MATChatbot) (query : str)
    : MATChatbot * (str * str) :=
  if bool_decide (strip query = [])
  then (bot, ([], _format_chat_history bot))
  else
    match generate_response env (rag_system bot) query true 3 with
    | Ok (sys, result) =>
        (* Add to chat history *)
        let history :=
          chat_history bot ++ [mkExchange query (response result) (sources result)] in
        (* Keep only last 10 exchanges *)
        let history :=
          if bool_decide (10 < length history) then slice_from (-10) history
          else history in
        let bot := mkChatbot sys history in
        (bot, ([], _format_chat_history bot))
    | Raise _ =>
        let history :=
          chat_history bot ++ [mkExchange query error_response []] in
        let bot := mkChatbot (rag_system bot) history in
        (bot, ([], _format_chat_history bot))
    end.

(** [MATChatbot.clear_chat] *)
Definition clear_chat (bot : MATChatbot) : MATChatbot * (str * str) :=
  (mkChatbot (rag_system bot) [], ([], cleared)).

End WithEnv.

End Chatbot.

(** ** Notions used in the statements *)

Import Scraper Retriever Rag Evaluation.

(** *** Normaliser *)

(** The input of the normaliser example: an empty text, a text given
    twice, and a five-character text. *)
Definition claim_example : DataFrame :=
  [ mkRow 0 (py "") (py "url1") 0;
    mkRow 1 (py "Valid text") (py "url2") 10;
    mkRow 2 (py "Valid text") (py "url3") 10;
    mkRow 3 (py "short") (py "url4") 5 ].

(** [r] is the first row of [df] with its text. *)
Definition first_with_text (df : DataFrame) (r : Row) : Prop :=
  exists before after,
    df = before ++ r :: after /\ Forall (fun r' => text r' <> text r) before.

(** The row [clean_data] makes of a row it keeps, before re-indexing. *)
Definition cleaned (r : Row) : Row :=
  mkRow (index r) (_clean_text (text r)) (source_url r) (length_col r).

(** The rows that survive, told row by row: the raw text is not empty,
    no row before it has the same raw text, and the cleaned text has at
    least 20 characters. *)
Definition survivors (df : DataFrame) : DataFrame :=
  map snd
    (filter (fun p => text (snd p) <> []
                      /\ (text (snd p) ∉ map text (take (fst p) df))
                      /\ 20 <= length (_clean_text (text (snd p))))
            (imap pair df)).

(** Rows of every kind: an empty text, a text given twice, a short text,
    and a text that differs from the one given twice by a character that
    cleaning removes. *)
Definition mixed_rows : DataFrame :=
  [ mkRow 0 (py "") (py "url1") 0;
    mkRow 1 (py "ssssssssssssssssssssss.") (py "url2") 23;
    mkRow 2 (py "ssssssssssssssssssssss.") (py "url3") 23;
    mkRow 3 (py "short") (py "url4") 5;
    mkRow 4 (py "ssssssssssssssssssssss.@") (py "url5") 24 ].

(** Two raw texts that differ and are one text once cleaned. *)
Definition same_when_cleaned : DataFrame :=
  [ mkRow 0 (py "ssssssssssssssssssssss.") (py "url1") 23;
    mkRow 1 (py "ssssssssssssssssssssss.@") (py "url2") 24 ].

(** *** Retriever *)

(** A retriever in the state [fit] leaves it in. *)
Definition fitted_index (r : DocumentRetriever) (df : DataFrame) : Prop :=
  documents r = Some df /\ fitted r = Some (map text df).

(** [h1] may stand before [h2] in a result list: it is not less
    similar. *)
Definition ranked_before (h1 h2 : Hit) : Prop :=
  (similarity h2 <= similarity h1)%Q.

(** The order [argsort] sorts index-value pairs by. *)
Definition lex_lt (p q : nat * Q) : Prop :=
  (snd p < snd q)%Q \/ (snd p == snd q /\ fst p < fst q).

Definition enum (n : nat) (a : list Q) : list (nat * Q) :=
  imap (fun i => pair (n + i)) a.

(** The sorted index-value pairs behind [argsort]. *)
Definition sorted_pairs (a : list Q) : list (nat * Q) :=
  foldr insert [] (imap pair a).

Definition hit_at (df : DataFrame) (p : nat * Q) : Hit :=
  let row := default (mkRow 0 [] [] 0) (df !! fst p) in
  mkHit (text row) (source_url row) (snd p) (fst p).

Definition relevant (p : nat * Q) : bool := Qlt_bool 0 (snd p).

Definition similarities_of (env : Env) (df : DataFrame) (query : str) : list Q :=
  map (tfidf_cosine env (map text df) query) (map text df).

Definition ranking (env : Env) (df : DataFrame) (query : str) (k : Z)
    : list (nat * Q) :=
  filter (fun p => relevant p = true)
    (rev (slice_from (- k) (sorted_pairs (similarities_of env df query)))).

(** *** Context composer *)

(** What one retrieved document contributes to the context. *)
Definition passage (doc : Hit) : str := take 200 (hit_text doc) ++ py "...".

(** *** Aggregate report *)

Definition mean_of (values : list Q) : Q :=
  (sum values / inject_Z (Z.of_nat (length values)))%Q.

Definition in_category (c : str) (results : list Metrics) : list Metrics :=
  filter (fun r => category r = c) results.

Definition mean_key (m : Metric) : str := metric_name m ++ py "_mean".
Definition min_key (m : Metric) : str := metric_name m ++ py "_min".
Definition max_key (m : Metric) : str := metric_name m ++ py "_max".
Definition category_key (c : str) (m : Metric) : str :=
  c ++ py "_" ++ metric_name m ++ py "_mean".

(** The assignments [aggregates[key] = value] of
    [_calculate_aggregate_metrics], in the order they are made. *)
Definition global_writes (results : list Metrics) : list (str * Q) :=
  flat_map (fun m =>
    let values := map (get m) results in
    [ (mean_key m, mean_of values);
      (min_key m, py_min (List.hd 0%Q values) (List.tl values));
      (max_key m, py_max (List.hd 0%Q values) (List.tl values)) ]) metrics.

Definition category_writes (cats : list str) (results : list Metrics)
    : list (str * Q) :=
  flat_map (fun c =>
    map (fun m => (category_key c m, mean_of (map (get m) (in_category c results))))
        metrics) cats.

Definition write (agg : gmap str Q) (kv : str * Q) : gmap str Q :=
  <[fst kv := snd kv]> agg.

(** *** Generation *)

(** The generator raised, returned no candidate, or returned a first
    candidate without [generated_text]. *)
Definition generation_failed (out : result (list (option str))) : Prop :=
  match out with
  | Raise _ => True
  | Ok [] => True
  | Ok (None :: _) => True
  | Ok (Some _ :: _) => False
  end.

(** *** A small world to run the code in: the four documents of
    [tests/test_retriever.py], and collaborators simple enough to
    evaluate *)

Definition test_documents : DataFrame :=
  [ mkRow 0 (py "MAT standards are important for treatment") (py "url1") 41;
    mkRow 1 (py "Medication assisted treatment helps patients") (py "url2") 44;
    mkRow 2 (py "Public health scotland provides guidance") (py "url3") 40;
    mkRow 3 (py "Recovery is the main goal of MAT") (py "url4") 32 ].

(** Two documents with the same text. *)
Definition twin_documents : DataFrame :=
  [ mkRow 0 (py "MAT standards are important for treatment") (py "url1") 41;
    mkRow 1 (py "MAT standards are important for treatment") (py "url2") 41 ].

(** The share of the words of the query that are words of the text. *)
Definition word_overlap (texts : list str) (query t : str) : Q :=
  let words := split_ws (lower query) in
  (inject_Z (Z.of_nat (length (filter (fun w => w ∈ split_ws (lower t)) words)))
   / inject_Z (Z.of_nat (Nat.max 1 (length words))))%Q.

Definition test_env (gen : str -> result (list (option str))) : Env :=
  {| fit_transform_ok := fun texts => negb (bool_decide (texts = []));
     tfidf_cosine := word_overlap;
     re_compile_ignorecase := fun _ => Raise ReError;
     read_csv := Ok test_documents;
     model_loads := true;
     fallback_model_loads := true;
     generator := gen;
     query_graph := fun _ => [];
     rouge1 := fun _ _ => 0%Q;
     rouge2 := fun _ _ => 0%Q;
     rougeL := fun _ _ => 0%Q;
     sentence_bleu := fun _ _ => 0%Q;
     elapsed := fun _ => 1%Q |}.

(** A generator that always raises, and one that repeats its prompt and
    adds a sentence. *)
Definition failing_generator (p : str) : result (list (option str)) :=
  Raise RuntimeError.

Definition echo_generator (p : str) : result (list (option str)) :=
  Ok [Some (p ++ py "MAT standards guide treatment.")].

Definition fitted_on (df : DataFrame) : DocumentRetriever :=
  mkRetriever (Some df) (Some (map text df)).

Definition test_system : RAGSystem := mkRAG (fitted_on test_documents) true.

(** *** Keyword retrieval *)

(** A character the pattern syntax gives no meaning. *)
Definition plain_char (c : ascii) : bool :=
  negb (is_meta c) && negb (Ascii.eqb c ".") && negb (Ascii.eqb c "|").

Definition plain_keyword (kw : str) : Prop := Forall (fun c => plain_char c = true) kw.

(** Some keyword is a substring of the text, case ignored. *)
Definition matches_any (keywords : list str) (t : str) : bool :=
  existsb (fun kw => contains (lower kw) (lower t)) keywords.

Definition drug_documents : DataFrame :=
  [ mkRow 0 (py "Drug treatment helps patients") (py "url1") 29;
    mkRow 1 (py "Public health scotland provides guidance") (py "url2") 40 ].

(** *** Response post-processor *)

Definition all_space (s : str) : Prop := Forall (fun c => is_space c = true) s.

(** The first step of [_clean_response]: the text after the last dot
    goes when, stripped, it has fewer than 10 characters. *)
Definition drop_incomplete (response : str) : str :=
  let sentences := split_char "." response in
  if bool_decide (1 < length sentences
                  /\ length (strip (List.last sentences [])) < 10)
  then join (py ".") (but_last sentences) ++ py "."
  else response.

(** The second step of [_clean_response]. *)
Definition limit_length (response : str) : str :=
  if bool_decide (500 < length response)
  then take 500 response ++ py "..."
  else response.

(** One space and 600 letters. *)
Definition padded : str := " "%char :: repeat "a"%char 600.

(** *** Answering and evaluating *)

(** The graph context [generate_response] works with. *)
Definition kg_for (env : Env) (query : str) (use_kg : bool) : str :=
  if use_kg then _get_kg_context env query else [].

(** The generator fails on the prompt built for the query. *)
Definition generator_fails_for (env : Env) (sys : RAGSystem) (query : str) : Prop :=
  exists hits,
    retrieve env (retriever sys) query 3 = Ok (retriever sys, hits)
    /\ generation_failed
         (generator env (prompt query (_prepare_context hits (_get_kg_context env query)))).

(** What [run_evaluation] records for a test case: the scores are those of
    the text that was generated, whatever it is. *)
Definition recorded (env : Env) (sys : RAGSystem) (tc : TestCase) (m : Metrics) : Prop :=
  question m = tc_question tc
  /\ expected m = tc_expected_answer tc
  /\ category m = tc_category tc
  /\ (forall metric,
        get metric m = get metric (evaluate_response env (expected m) (generated m)))
  /\ m_length_ratio m = m_length_ratio (evaluate_response env (expected m) (generated m))
  /\ (generator_fails_for env sys (tc_question tc) -> generated m = apology).

Definition one_case : TestCase :=
  mkCase (py "What are the MAT standards?") (py "Please try again.") (py "general").

(** A generator that raises on the second question of the built-in
    test set, and answers the others. *)
Definition flaky_generator (p : str) : result (list (option str)) :=
  if contains (py "What is MAT Standard 1?") p then Raise RuntimeError
  else echo_generator p.

(** A loaded system whose retriever has no documents. *)
Definition empty_system : RAGSystem := mkRAG (mkRetriever None None) true.

(** A loaded system whose retriever was fitted on the four test
    documents and then loaded a table of two rows. *)
Definition stale_system : RAGSystem :=
  mkRAG (mkRetriever (Some twin_documents) (Some (map text test_documents))) true.

(** A question about the first test document, one about the fourth, and
    one more. *)
Definition first_case : TestCase :=
  mkCase (py "important standards") (py "MAT standards are important.") (py "general").
Definition fourth_case : TestCase :=
  mkCase (py "Recovery goal") (py "Recovery is the main goal.") (py "purpose").

(** Two evaluation records of two categories. *)
Definition two_records : list Metrics :=
  [ mkMetrics 1 (1 # 2) 1 (1 # 4) 1 1 (py "q1") (py "e1") (py "g1") (py "general")
      1 0 true;
    mkMetrics 0 (1 # 2) 0 (3 # 4) 2 0 (py "q2") (py "e2") (py "g2") (py "purpose")
      1 0 true ].

(** ** Notions used in the further properties *)

Import KnowledgeGraph Chatbot.

(** *** Graph context *)

Definition standards_query : str := py "MATCH (n:MATStandard) RETURN n.name LIMIT 5".
Definition organizations_query : str := py "MATCH (n:Organization) RETURN n.name LIMIT 3".

(** A graph whose rows have no name. *)
Definition nameless_graph (env : Env) : Env :=
  {| fit_transform_ok := fit_transform_ok env;
     tfidf_cosine := tfidf_cosine env;
     re_compile_ignorecase := re_compile_ignorecase env;
     read_csv := read_csv env;
     model_loads := model_loads env;
     fallback_model_loads := fallback_model_loads env;
     generator := generator env;
     query_graph := fun _ => [None];
     rouge1 := rouge1 env;
     rouge2 := rouge2 env;
     rougeL := rougeL env;
     sentence_bleu := sentence_bleu env;
     elapsed := elapsed env |}.

(** *** Evaluation *)

(** What [run_evaluation] records when the model is not loaded. *)
Definition unanswered (m : Metrics) : Prop :=
  generated m = not_loaded_message /\ sources_found m = 0 /\ m_context_used m = false.

(** The aggregate as the assignments made, one after another. *)
Definition aggregate_of (results : list Metrics) : gmap str Q :=
  foldl write ∅ (global_writes results
                 ++ category_writes (remove_dups (map category results)) results).

(** The keys of the means, minima and maxima over all records. *)
Definition global_keys : list str :=
  flat_map (fun m => [mean_key m; min_key m; max_key m]) metrics.

(** A system as [RAGSystem()] makes it: no documents, no model. *)
Definition fresh_system : RAGSystem := mkRAG (mkRetriever None None) false.

(** *** Chat *)

(** The state of the chatbot after a list of queries, put one after
    another. *)
Definition session (env : Env) (books : str) (bot : MATChatbot) (queries : list str)
    : MATChatbot :=
  foldl (fun bot query => fst (process_query env books bot query)) bot queries.

(** The last ten entries. *)
Definition last_ten {A} (l : list A) : list A := drop (length l - 10) l.

(** The exchange recorded for a query. *)
Definition answered (env : Env) (sys : RAGSystem) (query : str) : Exchange :=
  match generate_response env sys query true 3 with
  | Ok (_, result) => mkExchange query (response result) (sources result)
  | Raise _ => mkExchange query error_response []
  end.

(** The exchange recorded for a query whose answer raised. *)
Definition failed (query : str) : Exchange := mkExchange query error_response [].

(** The queries that are not blank. *)
Definition spoken (queries : list str) : list str :=
  filter (fun query => strip query <> []) queries.

(** No character of the text is a line feed. *)
Definition one_line (t : str) : Prop := Forall (fun c => c <> "010"%char) t.

(** Twelve questions. *)
Definition twelve_queries : list str := repeat (py "What is MAT?") 12.

(** *** Scraped and cleaned data *)

(** The text has only characters that [_clean_text] keeps. *)
Definition over_kept_class (t : str) : Prop :=
  Forall (fun c => in_kept_class c = true) t.

(** The characters of all texts. *)
Definition total_characters (df : DataFrame) : nat :=
  sum_list (map (fun row => length (text row)) df).

(** *** Extraction for the knowledge graph *)

(** The pattern as the atoms it is read as. *)
Definition atoms_of (pattern : str) : list atom :=
  map (fun c => if Ascii.eqb c "." then AnyChar else Lit c) pattern.

(** The text, lowered, has a match of the pattern. *)
Definition mentions (pattern t : str) : bool :=
  search_here_or_later (atoms_of pattern) (lower t).

(** The standards [re.findall] takes from one text. *)
Definition standards_in (t : str) : list str :=
  flat_map (fun pattern => findall_backslash_d pattern (lower t)) mat_patterns.

(** Some literal of the atoms is, lowered, outside the characters that
    [_clean_text] keeps. *)
Definition has_foreign (atoms : list atom) : bool :=
  existsb (fun a => match a with
                    | Lit c => negb (in_kept_class (lower_char c))
                    | AnyChar => false
                    end) atoms.

Definition no_entities : Entities := mkEntities [] [] [] [].
Definition no_relationships : Relationships := mkRelationships [] [] [] [].

(** One pass of the loop of [_extract_entities]. *)
Definition entities_of_row (entities : Entities) (row : Row) : Entities :=
  mkEntities
    (MATStandard entities ++ standards_in (text row))
    (Organization entities
     ++ filter (fun p => mentions p (text row) = true) org_patterns)
    (Concept entities
     ++ map dots_to_spaces
          (filter (fun p => mentions p (text row) = true) concept_patterns))
    (Location entities
     ++ filter (fun p => mentions p (text row) = true) location_patterns).

(** *** Proof steps *)

(** Compare two keys from their ends. *)
Ltac reversed H :=
  apply (f_equal (@rev ascii)) in H;
  unfold category_key, mean_key, min_key, max_key in H;
  rewrite ?rev_app_distr in H.

(** ** Proofs *)

Lemma map_fmap {A B} (f : A -> B) (l : list A) : map f l = f <$> l.
Proof. reflexivity. Qed.

Lemma bind_Ok {A B} (a : A) (f : A -> result B) : (Ok a ≫= f) = f a.
Proof. reflexivity. Qed.

Lemma Qlt_bool_true x y : Qlt_bool x y = true -> (x < y)%Q.
Proof.
  unfold Qlt_bool. intros H%negb_true_iff. apply Qnot_le_lt.
  intros Hle%Qle_bool_iff. congruence.
Qed.

Lemma Qlt_bool_false x y : Qlt_bool x y = false -> (y <= x)%Q.
Proof. unfold Qlt_bool. intros H%negb_false_iff. by apply Qle_bool_iff. Qed.

Lemma Qlt_bool_spec x y :
  {(x < y)%Q /\ Qlt_bool x y = true} + {(y <= x)%Q /\ Qlt_bool x y = false}.
Proof.
  destruct (Qlt_bool x y) eqn:E; [left|right]; split; try done.
  - by apply Qlt_bool_true.
  - by apply Qlt_bool_false.
Qed.

(** *** Context composer *)

Lemma prepare_context_unfold docs kg :
  _prepare_context docs kg =
  join (py "\n")
    ((match kg with [] => [] | _ => [py "Knowledge Graph Context: " ++ kg] end)
     ++ (match docs with
         | [] => []
         | _ => [py "Relevant Information: " ++ join (py " ") (map passage (take 3 docs))]
         end)).
Proof. unfold _prepare_context. destruct kg, docs; reflexivity. Qed.

(** C6 (as amended).  For every list of retrieval results and every
    graph-facts string: non-empty graph facts come first, behind the
    label "Knowledge Graph Context: "; the retrieved documents follow in
    one segment, separated from the facts by a backslash and the letter
    n; only the first three retrieved documents are used; each of them
    contributes the first 200 characters of its text followed by the
    marker "...", and the marker is there whether or not the text was
    cut. *)
Theorem prepare_context_spec (docs : list Hit) (kg : str) :
  let facts := py "Knowledge Graph Context: " ++ kg in
  let passages :=
    py "Relevant Information: " ++ join (py " ") (map passage (take 3 docs)) in
  _prepare_context docs kg
  = match kg, docs with
    | [], [] => []
    | _ :: _, [] => facts
    | [], _ :: _ => passages
    | _ :: _, _ :: _ => facts ++ py "\n" ++ passages
    end
  /\ _prepare_context docs kg = _prepare_context (take 3 docs) kg
  /\ length (map passage (take 3 docs)) = Nat.min 3 (length docs)
  /\ forall doc,
       passage doc = take 200 (hit_text doc) ++ py "..."
       /\ length (passage doc) = Nat.min 200 (length (hit_text doc)) + 3.
Proof.
  intros facts passages. rewrite !prepare_context_unfold.
  split; [|split; [|split]].
  - destruct kg as [|c kg], docs as [|d docs]; reflexivity.
  - destruct docs as [|d1 [|d2 [|d3 docs]]]; reflexivity.
  - rewrite length_map, length_take. lia.
  - intros doc. split; [reflexivity|].
    unfold passage. rewrite length_app, length_take. simpl. lia.
Qed.

(** *** Normaliser *)

Lemma reset_index_index df : map index (reset_index df) = seq 0 (length df).
Proof.
  unfold reset_index.
  assert (G : forall n, map index (imap (fun i r => mkRow (n + i) (text r) (source_url r) (length_col r)) df)
                        = seq n (length df)).
  { induction df as [|r df IH]; intros n; simpl; [done|].
    f_equal; [lia|]. rewrite <- (IH (S n)). f_equal. apply imap_ext. intros; simpl. f_equal. lia. }
  apply (G 0).
Qed.

Lemma imap_fields {B} (f : Row -> B) (g : nat -> Row -> Row) df :
  (forall i r, f (g i r) = f r) -> map f (imap g df) = map f df.
Proof.
  revert g. induction df as [|r df IH]; intros g Hg; simpl; [done|].
  rewrite Hg. f_equal. apply IH. intros; apply Hg.
Qed.

Lemma reset_index_text df : map text (reset_index df) = map text df.
Proof. by apply imap_fields. Qed.
Lemma reset_index_length df : length (reset_index df) = length df.
Proof. unfold reset_index. by rewrite length_imap. Qed.

Lemma drop_duplicates_from_spec seen df :
  let out := drop_duplicates_from seen df in
  NoDup (map text out)
  /\ sublist out df
  /\ (forall r, r ∈ out -> text r ∉ seen)
  /\ (forall r, r ∈ df -> text r ∉ seen -> text r ∈ map text out).
Proof.
  revert seen. induction df as [|r df IH]; intros seen; simpl.
  - repeat split; [constructor|done|by intros ? ?%elem_of_nil|by intros ? ?%elem_of_nil].
  - case_bool_decide as Hseen.
    + destruct (IH seen) as (Hnd & Hsub & Hout & Hin).
      repeat split; [done|by apply sublist_cons|done|].
      intros r' [->|Hr']%elem_of_cons Hn; [done|]. by apply Hin.
    + destruct (IH (text r :: seen)) as (Hnd & Hsub & Hout & Hin).
      repeat split.
      * simpl. constructor; [|done].
        rewrite map_fmap. intros (r' & Heq & Hr')%list_elem_of_fmap.
        apply (Hout r' Hr'). rewrite Heq. apply elem_of_cons; by left.
      * by apply sublist_skip.
      * intros r' [->|Hr']%elem_of_cons; [done|].
        intros Hs. apply (Hout r' Hr'). apply elem_of_cons; by right.
      * intros r' Hr' Hn. simpl.
        destruct (decide (text r' = text r)) as [->|Hne]; [apply elem_of_cons; by left|].
        apply elem_of_cons in Hr' as [->|Hr']; [done|].
        apply elem_of_cons; right. apply Hin; [done|].
        intros [?|?]%elem_of_cons; done.
Qed.

Lemma drop_duplicates_from_first seen df :
  Forall (fun r => first_with_text df r /\ text r ∉ seen) (drop_duplicates_from seen df).
Proof.
  revert seen. induction df as [|r0 df IH]; intros seen; simpl; [constructor|].
  case_bool_decide as Hseen.
  - eapply Forall_impl; [apply (IH seen)|]. intros r [(pre & post & -> & Hpre) Hr].
    split; [|done]. exists (r0 :: pre), post. split; [done|].
    constructor; [|done]. intros Heq. apply Hr. by rewrite <- Heq.
  - constructor.
    + split; [|done]. exists [], df. split; [done|constructor].
    + eapply Forall_impl; [apply (IH (text r0 :: seen))|].
      intros r [(pre & post & -> & Hpre) Hr].
      split.
      * exists (r0 :: pre), post. split; [done|].
        constructor; [|done]. intros Heq. apply Hr. rewrite Heq. by left.
      * intros Hin. apply Hr. by right.
Qed.

Lemma filter_split {A} (P : A -> Prop) `{!forall x, Decision (P x)} (l l1 l2 : list A) x :
  filter P l = l1 ++ x :: l2 ->
  exists k1 k2, l = k1 ++ x :: k2 /\ filter P k1 = l1 /\ filter P k2 = l2.
Proof.
  revert l1. induction l as [|y l IH]; intros l1 Hf.
  - by destruct l1.
  - rewrite filter_cons in Hf. destruct (decide (P y)) as [Hy|Hy].
    + destruct l1 as [|z l1]; simpl in Hf.
      * injection Hf as -> H'. exists [], l. by rewrite filter_nil.
      * injection Hf as -> H'. destruct (IH l1 H') as (k1 & k2 & -> & H1 & H2).
        exists (z :: k1), k2. rewrite filter_cons, decide_True by done.
        by rewrite H1.
    + destruct (IH l1 Hf) as (k1 & k2 & -> & H1 & H2).
      exists (y :: k1), k2. rewrite filter_cons, decide_False by done. done.
Qed.

Lemma first_with_text_filter (df : DataFrame) r :
  first_with_text (filter (fun r => 0 < length (text r)) df) r ->
  first_with_text df r.
Proof.
  intros (pre & post & Heq & Hpre).
  assert (Hr : 0 < length (text r)).
  { assert (r ∈ filter (fun r => 0 < length (text r)) df) as [? _]%list_elem_of_filter; [|done].
    rewrite Heq. apply elem_of_app; right. by left. }
  apply filter_split in Heq as (k1 & k2 & -> & H1 & H2).
  exists k1, k2. split; [done|].
  apply Forall_forall. intros r' Hr' Htext.
  rewrite Forall_forall in Hpre. apply (Hpre r'); [|done].
  rewrite <- H1. apply list_elem_of_filter. split; [|done]. by rewrite Htext.
Qed.

Lemma drop_duplicates_spec df :
  NoDup (map text (drop_duplicates df))
  /\ sublist (drop_duplicates df) df
  /\ (forall r, r ∈ df -> text r ∈ map text (drop_duplicates df)).
Proof.
  destruct (drop_duplicates_from_spec [] df) as (Hnd & Hsub & _ & Hin).
  repeat split; [done|done|]. intros r Hr. apply Hin; [done|]. apply not_elem_of_nil.
Qed.

Lemma survivors_from (pre l : DataFrame) (seen : list str) :
  (forall t, t <> [] -> (t ∈ seen <-> t ∈ map text pre)) ->
  filter (fun r => 20 <= length (_clean_text (text r)))
    (drop_duplicates_from seen (filter (fun r => 0 < length (text r)) l))
  = map snd
      (filter (fun p => text (snd p) <> []
                        /\ (text (snd p) ∉ map text (take (fst p) (pre ++ l)))
                        /\ 20 <= length (_clean_text (text (snd p))))
              (imap (fun i => pair (length pre + i)) l)).
Proof.
  revert pre seen. induction l as [|r l IH]; intros pre seen Hseen; [done|].
  rewrite imap_cons.
  assert (Hshift : imap ((fun i => pair (length pre + i)) ∘ S) l
                   = imap (fun i => pair (length (pre ++ [r]) + i)) l).
  { apply imap_ext. intros i x _. simpl. rewrite length_app. simpl. f_equal. lia. }
  rewrite Hshift. clear Hshift.
  assert (Hnext : forall seen',
    (forall t, t <> [] -> (t ∈ seen' <-> t ∈ map text (pre ++ [r]))) ->
    filter (fun r0 => 20 <= length (_clean_text (text r0)))
      (drop_duplicates_from seen' (filter (fun r0 => 0 < length (text r0)) l))
    = map snd
        (filter (fun p => text (snd p) <> []
                          /\ (text (snd p) ∉ map text (take (fst p) (pre ++ r :: l)))
                          /\ 20 <= length (_clean_text (text (snd p))))
                (imap (fun i => pair (length (pre ++ [r]) + i)) l))).
  { intros seen' Hseen'. rewrite (IH (pre ++ [r]) seen' Hseen').
    by rewrite <- app_assoc. }
  assert (Htake : take (length pre + 0) (pre ++ r :: l) = pre).
  { rewrite Nat.add_0_r. by rewrite take_app_length. }
  destruct (decide (text r = [])) as [Hempty|Hne].
  - rewrite (filter_cons_False _ r) by (rewrite Hempty; simpl; lia).
    rewrite (filter_cons_False _ (length pre + 0, r)) by (simpl; tauto).
    apply Hnext. intros t Ht. rewrite (Hseen t Ht), map_app, elem_of_app. simpl.
    rewrite Hempty. split; [by left|]. intros [?|H%list_elem_of_singleton]; done.
  - rewrite (filter_cons_True _ r) by (destruct (text r); [done|simpl; lia]).
    simpl drop_duplicates_from. case_bool_decide as Hin.
    + rewrite (filter_cons_False _ (length pre + 0, r)).
      2:{ simpl. rewrite Htake. intros (_ & Hnot & _). apply Hnot. by apply Hseen. }
      apply Hnext. intros t Ht. rewrite (Hseen t Ht), map_app, elem_of_app. simpl.
      split; [by left|]. intros [?|H%list_elem_of_singleton]; [done|].
      subst t. by apply Hseen.
    + assert (Hnot : text r ∉ map text pre) by (intros H; apply Hin; by apply Hseen).
      assert (Hrest : forall t, t <> [] ->
                (t ∈ text r :: seen <-> t ∈ map text (pre ++ [r]))).
      { intros t Ht. rewrite elem_of_cons, (Hseen t Ht), map_app, elem_of_app. simpl.
        rewrite list_elem_of_singleton. tauto. }
      destruct (decide (20 <= length (_clean_text (text r)))) as [Hlen|Hlen].
      * rewrite (filter_cons_True _ r) by done.
        rewrite (filter_cons_True _ (length pre + 0, r)) by (simpl; by rewrite Htake).
        simpl map. f_equal. by apply Hnext.
      * rewrite (filter_cons_False _ r) by done.
        rewrite (filter_cons_False _ (length pre + 0, r)) by (simpl; tauto).
        by apply Hnext.
Qed.

Lemma survivors_spec df :
  filter (fun r => 20 <= length (_clean_text (text r)))
    (drop_duplicates (filter (fun r => 0 < length (text r)) df))
  = survivors df.
Proof.
  unfold drop_duplicates, survivors. rewrite (survivors_from [] df []); [done|].
  intros t _. simpl. done.
Qed.

(** C8 (as amended).  [clean_data] returns, cleaned and indexed
    0, 1, 2, ..., exactly the rows that survive, in their order: a row
    survives when its raw text is not empty, no row before it has the
    same raw text, and its cleaned text has at least 20 characters.
    Emptiness and duplicates are judged on the raw text, the length on
    the cleaned text: rows whose raw texts differ are all kept, also
    when their cleaned texts are one text.  The survivors are the first
    rows with their raw texts, no two of them have one raw text, and
    every row with a non-empty raw text and a cleaned text of at least
    20 characters has its cleaned text in the result. *)
Theorem clean_data_spec (df : DataFrame) :
  clean_data df = reset_index (map cleaned (survivors df))
  /\ map index (clean_data df) = seq 0 (length (clean_data df))
  /\ sublist (survivors df) df
  /\ Forall (first_with_text df) (survivors df)
  /\ NoDup (map text (survivors df))
  /\ Forall (fun r => text r <> [] /\ 20 <= length (_clean_text (text r))) (survivors df)
  /\ map text (clean_data df) = map _clean_text (map text (survivors df))
  /\ map source_url (clean_data df) = map source_url (survivors df)
  /\ (forall r, r ∈ df -> text r <> [] -> 20 <= length (_clean_text (text r)) ->
        _clean_text (text r) ∈ map text (clean_data df)).
Proof.
  rewrite <- (survivors_spec df).
  unfold clean_data.
  set (df1 := filter (fun r => 0 < length (text r)) df).
  set (df2 := drop_duplicates df1).
  set (df3 := map _ df2).
  set (df4 := filter (fun r => 20 <= length (text r)) df3).
  set (kept := filter (fun r => 20 <= length (_clean_text (text r))) df2).
  assert (Hkept : df4 = map cleaned kept).
  { subst df4 df3 kept. clearbody df2. clear.
    induction df2 as [|r df2 IH]; [done|].
    simpl map. rewrite !filter_cons. simpl text.
    destruct (decide (20 <= length (_clean_text (text r)))); simpl; by rewrite IH. }
  destruct (drop_duplicates_spec df1) as (Hnd & Hsub & Hin).
  split; [by rewrite Hkept|].
  split; [by rewrite reset_index_index, reset_index_length|].
  split; [etrans; [apply sublist_filter|]; etrans; [exact Hsub|]; apply sublist_filter|].
  split.
  { apply Forall_forall. intros r [_ Hr]%list_elem_of_filter.
    apply first_with_text_filter.
    pose proof (drop_duplicates_from_first [] df1) as Hfirst.
    rewrite Forall_forall in Hfirst. by apply Hfirst. }
  split.
  { rewrite map_fmap in *. eapply sublist_NoDup; [exact Hnd|].
    apply fmap_sublist, sublist_filter. }
  split.
  { apply Forall_forall. intros r [Hlen Hr]%list_elem_of_filter. split; [|done].
    assert (r ∈ df1) as [H0 _]%list_elem_of_filter by (eapply elem_of_sublist; eauto).
    destruct (text r); [simpl in H0; lia|done]. }
  split; [by rewrite reset_index_text, Hkept, !map_map|].
  split; [unfold reset_index; rewrite imap_fields by done; by rewrite Hkept, map_map|].
  intros r Hr Hne Hlen. rewrite reset_index_text.
  assert (Hr1 : r ∈ df1).
  { apply list_elem_of_filter. split; [|done]. destruct (text r); [done|simpl; lia]. }
  specialize (Hin r Hr1). rewrite map_fmap in Hin.
  apply list_elem_of_fmap in Hin as (r2 & Heq & Hr2).
  rewrite map_fmap. apply list_elem_of_fmap.
  exists (cleaned r2). split; [simpl; by rewrite Heq|].
  apply list_elem_of_filter. split; [simpl; by rewrite <- Heq|].
  subst df3. rewrite map_fmap. by apply list_elem_of_fmap_2.
Qed.

(** *** Retriever *)

Lemma enum_cons n x a : enum n (x :: a) = (n, x) :: enum (S n) a.
Proof.
  unfold enum. simpl. f_equal; [f_equal; lia|].
  apply imap_ext. intros i y _. simpl. f_equal. lia.
Qed.

Lemma imap_pair_enum a : imap pair a = enum 0 a.
Proof. reflexivity. Qed.

Lemma lex_lt_trans p q r : lex_lt p q -> lex_lt q r -> lex_lt p r.
Proof.
  unfold lex_lt. intros [H1|[H1 H1']] [H2|[H2 H2']].
  - left. lra.
  - left. lra.
  - left. lra.
  - right. split; [lra|lia].
Qed.

Lemma insert_perm p l : insert p l ≡ₚ p :: l.
Proof.
  induction l as [|q l IH]; simpl; [done|].
  destruct (Qle_bool (snd p) (snd q)); [done|].
  rewrite IH. apply Permutation_swap.
Qed.

Lemma insert_sorted p l :
  StronglySorted lex_lt l -> Forall (fun q => fst p < fst q) l ->
  StronglySorted lex_lt (insert p l).
Proof.
  induction 1 as [|q l Hs IH Hq]; intros Hp; simpl.
  - repeat constructor.
  - apply Forall_cons in Hp as [Hpq Hp].
    destruct (Qle_bool (snd p) (snd q)) eqn:Hle.
    + apply Qle_bool_iff in Hle.
      assert (Hlt : lex_lt p q).
      { unfold lex_lt. destruct (Qlt_le_dec (snd p) (snd q)); [by left|right]. split; [lra|done]. }
      constructor; [by constructor|].
      constructor; [done|].
      eapply Forall_impl; [exact Hq|]. intros r Hr. by eapply lex_lt_trans.
    + assert (Hlt : (snd q < snd p)%Q).
      { apply Qnot_le_lt. intros H%Qle_bool_iff. congruence. }
      constructor; [by apply IH|].
      rewrite insert_perm. constructor; [by left|done].
Qed.

Lemma sorted_enum a n :
  let l := foldr insert [] (enum n a) in
  StronglySorted lex_lt l /\ l ≡ₚ enum n a.
Proof.
  revert n. induction a as [|x a IH]; intros n.
  - split; [constructor|done].
  - rewrite enum_cons. simpl. destruct (IH (S n)) as [Hs Hp].
    split; [|by rewrite insert_perm, Hp].
    apply insert_sorted; [done|].
    rewrite Hp. unfold enum. apply Forall_forall.
    intros [i v] Hin. apply list_elem_of_lookup in Hin as [j Hj].
    rewrite list_lookup_imap in Hj. destruct (a !! j); simplify_eq/=. lia.
Qed.

Lemma enum_lookup a p : p ∈ enum 0 a -> a !! fst p = Some (snd p).
Proof.
  intros [j Hj]%list_elem_of_lookup. unfold enum in Hj.
  rewrite list_lookup_imap in Hj. destruct (a !! j) eqn:E; simplify_eq/=. done.
Qed.

Lemma argsort_pairs a : argsort a = map fst (sorted_pairs a).
Proof. reflexivity. Qed.

Lemma sorted_pairs_sorted a : StronglySorted lex_lt (sorted_pairs a).
Proof. apply (sorted_enum a 0). Qed.

Lemma sorted_pairs_lookup a p : p ∈ sorted_pairs a -> a !! fst p = Some (snd p).
Proof.
  intros Hp. apply enum_lookup. unfold sorted_pairs in Hp.
  by rewrite (proj2 (sorted_enum a 0)) in Hp.
Qed.

Lemma sorted_pairs_length a : length (sorted_pairs a) = length a.
Proof.
  unfold sorted_pairs. rewrite (proj2 (sorted_enum a 0)). unfold enum. by rewrite length_imap.
Qed.

Lemma slice_from_map {A B} (f : A -> B) z l : slice_from z (map f l) = map f (slice_from z l).
Proof.
  unfold slice_from. rewrite length_map, !map_fmap. destruct (z <? 0)%Z; by rewrite fmap_drop.
Qed.

Lemma slice_from_sublist {A} z (l : list A) : sublist (slice_from z l) l.
Proof. unfold slice_from. destruct (z <? 0)%Z; apply sublist_drop. Qed.

Lemma slice_from_neg_length {A} (k : Z) (l : list A) :
  (0 < k)%Z -> length (slice_from (- k) l) <= Z.to_nat k.
Proof.
  intros Hk. unfold slice_from.
  destruct (Z.ltb_spec (- k) 0); [|lia].
  rewrite length_drop. lia.
Qed.

Lemma StronglySorted_sublist {A} (R : A -> A -> Prop) l1 l2 :
  sublist l1 l2 -> StronglySorted R l2 -> StronglySorted R l1.
Proof.
  induction 1 as [|x l1 l2 Hsub IH|x l1 l2 Hsub IH]; intros Hs.
  - constructor.
  - apply StronglySorted_inv in Hs as [Hs Hx].
    constructor; [by apply IH|].
    apply Forall_forall. intros y Hy. rewrite Forall_forall in Hx. apply Hx.
    by eapply elem_of_sublist.
  - apply StronglySorted_inv in Hs as [Hs _]. by apply IH.
Qed.

Lemma StronglySorted_app_single {A} (R : A -> A -> Prop) l x :
  StronglySorted R l -> Forall (fun y => R y x) l -> StronglySorted R (l ++ [x]).
Proof.
  induction 1 as [|y l Hs IH Hy]; intros Hx; simpl.
  - repeat constructor.
  - apply Forall_cons in Hx as [Hyx Hx].
    constructor; [by apply IH|].
    apply Forall_app. split; [done|by constructor].
Qed.

Lemma StronglySorted_rev {A} (R : A -> A -> Prop) l :
  StronglySorted R l -> StronglySorted (flip R) (rev l).
Proof.
  induction 1 as [|x l Hs IH Hx]; simpl; [constructor|].
  apply StronglySorted_app_single; [done|].
  apply Forall_forall. intros y Hy. rewrite Forall_forall in Hx. apply Hx.
  apply list_elem_of_In. apply in_rev. by apply list_elem_of_In.
Qed.

Lemma StronglySorted_map {A B} (R : A -> A -> Prop) (S : B -> B -> Prop) (f : A -> B) l :
  (forall x y, R x y -> S (f x) (f y)) ->
  StronglySorted R l -> StronglySorted S (map f l).
Proof.
  intros Hf. induction 1 as [|x l Hs IH Hx]; simpl; constructor; [done|].
  rewrite map_fmap. apply Forall_fmap. eapply Forall_impl; [exact Hx|]. intros; by apply Hf.
Qed.

Lemma collect_ok df sims (P : list (nat * Q)) :
  Forall (fun p => sims !! fst p = Some (snd p) /\ is_Some (df !! fst p)) P ->
  collect (Some df) sims (map fst P)
  = Ok (map (hit_at df) (filter (fun p => relevant p = true) P)).
Proof.
  induction 1 as [|p P [Hs [row Hrow]] HP IH]; [done|].
  simpl. rewrite Hs, filter_cons.
  fold (relevant p). destruct (relevant p) eqn:E.
  - rewrite Hrow, IH, decide_True by done.
    simpl. unfold hit_at at 2. by rewrite Hrow.
  - by rewrite IH, decide_False by done.
Qed.

Lemma retrieve_fitted env r df query k :
  fitted_index r df ->
  retrieve env r query k = Ok (r, map (hit_at df) (ranking env df query k)).
Proof.
  intros [Hdocs Hfit]. unfold retrieve, is_fitted.
  rewrite bool_decide_true by (rewrite Hfit; eauto).
  simpl. rewrite Hfit, Hdocs.
  fold (similarities_of env df query).
  rewrite argsort_pairs, slice_from_map, <- map_rev.
  rewrite collect_ok; [done|].
  apply Forall_forall. intros p Hp.
  apply list_elem_of_In, in_rev, list_elem_of_In in Hp.
  eapply elem_of_sublist in Hp; [|apply slice_from_sublist].
  apply sorted_pairs_lookup in Hp. split; [done|].
  apply lookup_lt_is_Some. apply lookup_lt_Some in Hp.
  unfold similarities_of in Hp. by rewrite !length_map in Hp.
Qed.

Lemma ranking_sorted env df query k :
  StronglySorted (flip lex_lt) (ranking env df query k).
Proof.
  unfold ranking. eapply StronglySorted_sublist; [apply sublist_filter; apply _|].
  apply StronglySorted_rev.
  eapply StronglySorted_sublist; [apply slice_from_sublist|].
  apply sorted_pairs_sorted.
Qed.

Lemma ranking_length env df query k :
  (0 < k)%Z -> length (ranking env df query k) <= Z.to_nat k.
Proof.
  intros Hk. unfold ranking.
  etrans; [apply sublist_length, sublist_filter; apply _|].
  rewrite length_rev. by apply slice_from_neg_length.
Qed.

Lemma ranking_elem env df query k p :
  p ∈ ranking env df query k ->
  (0 < snd p)%Q /\ similarities_of env df query !! fst p = Some (snd p).
Proof.
  unfold ranking. intros [Hrel Hp]%list_elem_of_filter. split.
  - by apply Qlt_bool_true.
  - apply list_elem_of_In, in_rev, list_elem_of_In in Hp.
    eapply elem_of_sublist in Hp; [|apply slice_from_sublist].
    by apply sorted_pairs_lookup.
Qed.

(** C3 (as amended).  On a fitted index, [retrieve] returns its results
    by descending similarity: no hit is less similar than a hit that
    stands after it.  Nothing is said of the order of hits of exactly
    equal similarity: the code has no tie-break, they stand as the
    reversed [np.argsort] leaves them.  Every hit carries the text of
    the document at its index and the similarity of the query to that
    text. *)
Theorem retrieve_order (env : Env) (r : DocumentRetriever) (df : DataFrame)
    (query : str) (k : Z) :
  fitted_index r df ->
  exists hits,
    retrieve env r query k = Ok (r, hits)
    /\ StronglySorted ranked_before hits
    /\ Forall (fun h => exists row, df !! hit_index h = Some row
                 /\ hit_text h = text row
                 /\ similarity h = tfidf_cosine env (map text df) query (text row)) hits.
Proof.
  intros Hfit. eexists. split; [by apply retrieve_fitted|]. split.
  - eapply StronglySorted_map; [|apply ranking_sorted].
    unfold ranked_before. intros p q [Hlt|[Heq _]]; simpl in *; lra.
  - rewrite map_fmap. apply Forall_fmap, Forall_forall. intros p [_ Hp]%ranking_elem.
    unfold similarities_of in Hp. rewrite !map_fmap, !list_lookup_fmap in Hp.
    destruct (df !! fst p) as [row|] eqn:Hrow; [|done].
    exists row. simpl in *. unfold hit_at. rewrite Hrow. simpl.
    split; [done|]. split; [done|]. injection Hp as Hp. symmetry. exact Hp.
Qed.

(** C4.  On a fitted index, for every query and every positive [k],
    [retrieve] returns normally at most [k] results, each of similarity
    above 0; when the query has similarity 0 to every document (no
    vocabulary in common) the result is the empty list. *)
Theorem retrieve_top_k (env : Env) (r : DocumentRetriever) (df : DataFrame)
    (query : str) (k : Z) :
  fitted_index r df -> (0 < k)%Z ->
  exists hits,
    retrieve env r query k = Ok (r, hits)
    /\ length hits <= Z.to_nat k
    /\ Forall (fun h => (0 < similarity h)%Q) hits
    /\ (Forall (fun row => tfidf_cosine env (map text df) query (text row) == 0) df
        -> hits = []).
Proof.
  intros Hfit Hk. eexists. split; [by apply retrieve_fitted|]. split; [|split].
  - rewrite length_map. by apply ranking_length.
  - rewrite map_fmap. apply Forall_fmap, Forall_forall. intros p [Hp _]%ranking_elem. done.
  - intros Hzero. destruct (ranking env df query k) as [|p P] eqn:E; [done|exfalso].
    assert (Hp : p ∈ ranking env df query k) by (rewrite E; apply elem_of_cons; by left).
    apply ranking_elem in Hp as [Hpos Hp].
    unfold similarities_of in Hp. rewrite !map_fmap, !list_lookup_fmap in Hp.
    destruct (df !! fst p) as [row|] eqn:Hrow; [|done].
    rewrite Forall_forall in Hzero. specialize (Hzero row (list_elem_of_lookup_2 _ _ _ Hrow)).
    simpl in Hp. injection Hp as Hp. rewrite Hp in Hzero. lra.
Qed.

(** *** Aggregate report *)

Lemma for_each_ok {A S} (l : list A) (body : S -> A -> result S) (f : S -> A -> S) s :
  (forall s x, x ∈ l -> body s x = Ok (f s x)) ->
  for_each l body s = Ok (foldl f s l).
Proof.
  revert s. induction l as [|x l IH]; intros s Hb; simpl; [done|].
  rewrite Hb by (apply elem_of_cons; by left). simpl.
  apply IH. intros s' y Hy. apply Hb. apply elem_of_cons; by right.
Qed.

Lemma div_len_ok a n : n <> 0 -> div_len a n = Ok (a / inject_Z (Z.of_nat n))%Q.
Proof. by destruct n. Qed.

Lemma foldl_app' {A B} (f : A -> B -> A) l1 l2 a : foldl f a (l1 ++ l2) = foldl f (foldl f a l1) l2.
Proof. apply foldl_app. Qed.

Lemma foldl_flat_map {A B C} (f : A -> B -> A) (g : C -> list B) a l :
  foldl (fun a x => foldl f a (g x)) a l = foldl f a (flat_map g l).
Proof.
  revert a. induction l as [|x l IH]; intros a; simpl; [done|].
  by rewrite IH, foldl_app.
Qed.

Lemma aggregate_as_writes results :
  results <> [] ->
  _calculate_aggregate_metrics results
  = Ok (foldl write ∅ (global_writes results
                        ++ category_writes (remove_dups (map category results)) results)).
Proof.
  intros Hne. unfold _calculate_aggregate_metrics.
  rewrite (for_each_ok _ _ (fun agg m =>
    foldl write agg
      [ (mean_key m, mean_of (map (get m) results));
        (min_key m, py_min (List.hd 0%Q (map (get m) results)) (List.tl (map (get m) results)));
        (max_key m, py_max (List.hd 0%Q (map (get m) results)) (List.tl (map (get m) results))) ])).
  2:{ intros agg m _. destruct results as [|r rs]; [done|]. reflexivity. }
  rewrite bind_Ok.
  rewrite (for_each_ok _ _ (fun agg c =>
    foldl write agg (map (fun m => (category_key c m, mean_of (map (get m) (in_category c results)))) metrics))).
  2:{ intros agg c Hc.
      rewrite map_fmap, foldl_fmap.
      apply (for_each_ok _ _ (fun agg m => write agg (category_key c m, mean_of (map (get m) (in_category c results))))).
      intros agg' m _. 
      rewrite div_len_ok; [by rewrite bind_Ok|].
      rewrite length_map. apply (proj1 (elem_of_remove_dups _ _)) in Hc.
      rewrite map_fmap in Hc. apply list_elem_of_fmap in Hc as (r & -> & Hr).
      assert (r ∈ filter (fun r0 => category r0 = category r) results) as Hin
        by (by apply list_elem_of_filter).
      destruct (filter _ results); [by apply elem_of_nil in Hin|done]. }
  by rewrite foldl_app, !foldl_flat_map.
Qed.

Lemma foldl_write_snoc agg ws kv : foldl write agg (ws ++ [kv]) = write (foldl write agg ws) kv.
Proof. by rewrite foldl_app. Qed.

Lemma lookup_writes_other (ws : list (str * Q)) (agg : gmap str Q) (K : str) :
  (forall v, (K, v) ∉ ws) -> foldl write agg ws !! K = agg !! K.
Proof.
  induction ws as [|[k v] ws IH] using rev_ind; intros Hnot; [done|].
  rewrite foldl_write_snoc. unfold write. simpl.
  rewrite lookup_insert_ne.
  - apply IH. intros v' Hin. apply (Hnot v'). apply elem_of_app; by left.
  - intros ->. apply (Hnot v). apply elem_of_app; right. by apply list_elem_of_singleton.
Qed.

Lemma lookup_writes (ws : list (str * Q)) (agg : gmap str Q) (K : str) (v : Q) :
  (K, v) ∈ ws -> (forall v', (K, v') ∈ ws -> v' = v) ->
  foldl write agg ws !! K = Some v.
Proof.
  induction ws as [|[k w] ws IH] using rev_ind; intros Hin Hall.
  - by apply elem_of_nil in Hin.
  - rewrite foldl_write_snoc. unfold write. simpl.
    destruct (decide (k = K)) as [->|Hne].
    + rewrite lookup_insert_eq. f_equal. apply Hall.
      apply elem_of_app; right. by apply list_elem_of_singleton.
    + rewrite lookup_insert_ne by done. apply IH.
      * apply elem_of_app in Hin as [Hin|Hin]; [done|].
        apply list_elem_of_singleton in Hin. congruence.
      * intros v' Hv'. apply Hall. apply elem_of_app; by left.
Qed.

Lemma rev_inj {A} (l1 l2 : list A) : rev l1 = rev l2 -> l1 = l2.
Proof. intros H. apply (f_equal (@rev A)) in H. by rewrite !rev_involutive in H. Qed.

Lemma category_key_inj c m c' m' :
  category_key c m = category_key c' m' -> c = c' /\ m = m'.
Proof.
  intros H. reversed H.
  destruct m, m'; simpl in H; simplify_eq; split; (reflexivity || by apply rev_inj).
Qed.

Lemma category_key_mean c m m' : category_key c m <> mean_key m'.
Proof. intros H. reversed H. destruct m, m'; simpl in H; simplify_eq. Qed.

Lemma category_key_min c m m' : category_key c m <> min_key m'.
Proof. intros H. reversed H. destruct m, m'; simpl in H; simplify_eq. Qed.

Lemma category_key_max c m m' : category_key c m <> max_key m'.
Proof. intros H. reversed H. destruct m, m'; simpl in H; simplify_eq. Qed.

Lemma category_key_length_ratio c m : category_key c m <> py "length_ratio_mean".
Proof. intros H. reversed H. destruct m; simpl in H; simplify_eq. Qed.

Lemma metrics_all m : m ∈ metrics.
Proof. unfold metrics. destruct m; repeat first [by left | right]. Qed.

Lemma py_min_spec v vs :
  py_min v vs ∈ v :: vs /\ Forall (fun x => (py_min v vs <= x)%Q) (v :: vs).
Proof.
  unfold py_min. revert v. induction vs as [|x vs IH]; intros v; simpl.
  - split; [by left|]. repeat constructor. lra.
  - destruct (Qlt_bool_spec x v) as [[Hlt ->]|[Hle ->]].
    + destruct (IH x) as [Hin Hall]. split; [by right|].
      apply Forall_cons in Hall as [Hx Hall].
      constructor; [lra|]. by constructor.
    + destruct (IH v) as [Hin Hall]. split.
      { apply elem_of_cons in Hin as [->|Hin]; [by left|by do 2 right]. }
      apply Forall_cons in Hall as [Hv Hall].
      constructor; [done|]. constructor; [lra|done].
Qed.

Lemma py_max_spec v vs :
  py_max v vs ∈ v :: vs /\ Forall (fun x => (x <= py_max v vs)%Q) (v :: vs).
Proof.
  unfold py_max. revert v. induction vs as [|x vs IH]; intros v; simpl.
  - split; [by left|]. repeat constructor. lra.
  - destruct (Qlt_bool_spec v x) as [[Hlt ->]|[Hle ->]].
    + destruct (IH x) as [Hin Hall]. split; [by right|].
      apply Forall_cons in Hall as [Hx Hall].
      constructor; [lra|]. by constructor.
    + destruct (IH v) as [Hin Hall]. split.
      { apply elem_of_cons in Hin as [->|Hin]; [by left|by do 2 right]. }
      apply Forall_cons in Hall as [Hv Hall].
      constructor; [done|]. constructor; [lra|done].
Qed.

Lemma global_writes_elem results K v :
  (K, v) ∈ global_writes results ->
  exists m, let values := map (get m) results in
    (K, v) = (mean_key m, mean_of values)
    \/ (K, v) = (min_key m, py_min (List.hd 0%Q values) (List.tl values))
    \/ (K, v) = (max_key m, py_max (List.hd 0%Q values) (List.tl values)).
Proof.
  unfold global_writes. intros Hin. apply list_elem_of_In, in_flat_map in Hin as (m & _ & Hin).
  exists m. simpl in Hin. intuition.
Qed.

Lemma global_writes_intro results m :
  let values := map (get m) results in
  (mean_key m, mean_of values) ∈ global_writes results
  /\ (min_key m, py_min (List.hd 0%Q values) (List.tl values)) ∈ global_writes results
  /\ (max_key m, py_max (List.hd 0%Q values) (List.tl values)) ∈ global_writes results.
Proof.
  simpl. repeat split; apply list_elem_of_In, in_flat_map; exists m;
    (split; [apply list_elem_of_In, metrics_all|simpl; tauto]).
Qed.

Lemma category_writes_elem cats results K v :
  (K, v) ∈ category_writes cats results <->
  exists c m, c ∈ cats /\ K = category_key c m
              /\ v = mean_of (map (get m) (in_category c results)).
Proof.
  unfold category_writes. rewrite list_elem_of_In, in_flat_map. split.
  - intros (c & Hc & Hin). apply in_map_iff in Hin as (m & Heq & _).
    exists c, m. apply list_elem_of_In in Hc. by simplify_eq.
  - intros (c & m & Hc & -> & ->). exists c. split; [by apply list_elem_of_In|].
    apply in_map_iff. exists m. split; [done|]. apply list_elem_of_In, metrics_all.
Qed.

Lemma mean_key_inj m m' : mean_key m = mean_key m' -> m = m'.
Proof. intros H. by destruct m, m'; simplify_eq. Qed.
Lemma min_key_inj m m' : min_key m = min_key m' -> m = m'.
Proof. intros H. by destruct m, m'; simplify_eq. Qed.
Lemma max_key_inj m m' : max_key m = max_key m' -> m = m'.
Proof. intros H. by destruct m, m'; simplify_eq. Qed.
Lemma mean_key_min m m' : mean_key m <> min_key m'.
Proof. intros H. by destruct m, m'; simplify_eq. Qed.
Lemma mean_key_max m m' : mean_key m <> max_key m'.
Proof. intros H. by destruct m, m'; simplify_eq. Qed.
Lemma min_key_max m m' : min_key m <> max_key m'.
Proof. intros H. by destruct m, m'; simplify_eq. Qed.

Lemma lookup_global results K v :
  (K, v) ∈ global_writes results ->
  (forall v', (K, v') ∈ global_writes results -> v' = v) ->
  (forall c m, K <> category_key c m) ->
  forall cats,
  foldl write ∅ (global_writes results ++ category_writes cats results) !! K = Some v.
Proof.
  intros Hin Hall Hcat cats. apply lookup_writes.
  - apply elem_of_app; by left.
  - intros v' [Hv'|Hv']%elem_of_app; [by apply Hall|].
    apply category_writes_elem in Hv' as (c & m & _ & -> & _). by destruct (Hcat c m).
Qed.

Lemma aggregate_ok results :
  results <> [] -> exists agg, _calculate_aggregate_metrics results = Ok agg.
Proof. intros Hne. eexists. by apply aggregate_as_writes. Qed.

(** C5 (as amended).  For a non-empty list of evaluation records the
    aggregate has, for each of the five aggregated metrics (rouge1_f,
    rouge2_f, rougeL_f, bleu, keyword_overlap), the key [{metric}_mean]
    with the mean over all records and the keys [{metric}_min] and
    [{metric}_max] with the least and the greatest value; for every
    category of the records and each of these metrics the key
    [{category}_{metric}_mean] with the mean over the records of that
    category.  The sixth scored metric, length_ratio, has no aggregate
    key. *)
Theorem aggregate_report (results : list Metrics) :
  results <> [] ->
  exists agg,
    _calculate_aggregate_metrics results = Ok agg
    /\ (forall m,
          let values := map (get m) results in
          agg !! mean_key m = Some (mean_of values)
          /\ exists lo hi,
               agg !! min_key m = Some lo /\ agg !! max_key m = Some hi
               /\ lo ∈ values /\ hi ∈ values
               /\ Forall (fun x => (lo <= x)%Q /\ (x <= hi)%Q) values)
    /\ (forall c m, c ∈ map category results ->
          agg !! category_key c m
          = Some (mean_of (map (get m) (in_category c results))))
    /\ agg !! py "length_ratio_mean" = None.
Proof.
  intros Hne. eexists. split; [by apply aggregate_as_writes|].
  set (cats := remove_dups (map category results)).
  split; [|split].
  - intros m values. destruct (global_writes_intro results m) as (Hmean & Hmin & Hmax).
    split.
    { apply lookup_global; [done| |].
      - intros v' (m' & [H|[H|H]])%global_writes_elem; injection H as HK ->.
        + by apply mean_key_inj in HK as <-.
        + by destruct (mean_key_min _ _ HK).
        + by destruct (mean_key_max _ _ HK).
      - intros c m' H. by destruct (category_key_mean c m' m). }
    exists (py_min (List.hd 0%Q values) (List.tl values)),
           (py_max (List.hd 0%Q values) (List.tl values)).
    split; [|split].
    { apply lookup_global; [done| |].
      - intros v' (m' & [H|[H|H]])%global_writes_elem; injection H as HK ->.
        + by destruct (mean_key_min m' m).
        + by apply min_key_inj in HK as <-.
        + by destruct (min_key_max _ _ HK).
      - intros c m' H. by destruct (category_key_min c m' m). }
    { apply lookup_global; [done| |].
      - intros v' (m' & [H|[H|H]])%global_writes_elem; injection H as HK ->.
        + by destruct (mean_key_max m' m).
        + by destruct (min_key_max m' m).
        + by apply max_key_inj in HK as <-.
      - intros c m' H. by destruct (category_key_max c m' m). }
    subst values. destruct results as [|r rs]; [done|]. simpl.
    destruct (py_min_spec (get m r) (map (get m) rs)) as [Hlo Hlo'].
    destruct (py_max_spec (get m r) (map (get m) rs)) as [Hhi Hhi'].
    split; [done|]. split; [done|].
    rewrite Forall_forall in Hlo', Hhi'. apply Forall_forall. intros x Hx. split; auto.
  - intros c m Hc. apply lookup_writes.
    + apply elem_of_app; right. apply category_writes_elem.
      exists c, m. split; [by apply elem_of_remove_dups|done].
    + intros v' [Hv'|Hv']%elem_of_app.
      * apply global_writes_elem in Hv' as (m' & [H|[H|H]]); injection H as HK ->.
        -- by destruct (category_key_mean c m m').
        -- by destruct (category_key_min c m m').
        -- by destruct (category_key_max c m m').
      * apply category_writes_elem in Hv' as (c' & m' & _ & H & ->).
        apply category_key_inj in H as [-> ->]. done.
  - rewrite lookup_writes_other; [apply lookup_empty|].
    intros v [Hv|Hv]%elem_of_app.
    + apply global_writes_elem in Hv as (m & [H|[H|H]]); injection H as HK _;
        by destruct m; simplify_eq.
    + apply category_writes_elem in Hv as (c & m & _ & H & _).
      by destruct (category_key_length_ratio c m).
Qed.

(** *** Response post-processor *)

Section Strip.

Lemma lstrip_nil_iff s : lstrip s = [] <-> all_space s.
Proof.
  induction s as [|c s IH]; simpl.
  - split; [constructor|done].
  - destruct (is_space c) eqn:E.
    + rewrite IH. split; [by constructor|]. by intros [_ ?]%Forall_cons.
    + split; [done|]. intros [? _]%Forall_cons. congruence.
Qed.

Lemma lstrip_length s : length (lstrip s) <= length s.
Proof. induction s as [|c s IH]; simpl; [done|]. destruct (is_space c); simpl; lia. Qed.

Lemma lstrip_Forall (P : ascii -> Prop) s : Forall P s -> Forall P (lstrip s).
Proof.
  induction 1 as [|c s Hc Hs IH]; simpl; [constructor|].
  destruct (is_space c); [done|by constructor].
Qed.

Lemma lstrip_idem s : lstrip (lstrip s) = lstrip s.
Proof.
  induction s as [|c s IH]; simpl; [done|].
  destruct (is_space c) eqn:E; [done|]. simpl. by rewrite E.
Qed.

Lemma lstrip_app_nonempty x y : lstrip x <> [] -> lstrip (x ++ y) = lstrip x ++ y.
Proof.
  induction x as [|c x IH]; simpl; [done|].
  destruct (is_space c); [exact IH|done].
Qed.

Lemma lstrip_app_empty x y : lstrip x = [] -> lstrip (x ++ y) = lstrip y.
Proof.
  induction x as [|c x IH]; simpl; [done|].
  destruct (is_space c); [exact IH|done].
Qed.

Lemma all_space_rev s : all_space (rev s) <-> all_space s.
Proof.
  unfold all_space. rewrite !Forall_forall. split; intros H c Hc; apply H.
  - apply list_elem_of_In. rewrite <- in_rev. by apply list_elem_of_In.
  - by apply list_elem_of_In, in_rev, list_elem_of_In in Hc.
Qed.

Lemma rstrip_nil_iff s : rstrip s = [] <-> all_space s.
Proof.
  unfold rstrip. rewrite <- all_space_rev, <- lstrip_nil_iff.
  split; [|by intros ->].
  intros H. apply (f_equal (@rev ascii)) in H. by rewrite rev_involutive in H.
Qed.

Lemma rstrip_length s : length (rstrip s) <= length s.
Proof. unfold rstrip. rewrite length_rev, <- (length_rev s). apply lstrip_length. Qed.

Lemma rstrip_Forall (P : ascii -> Prop) s : Forall P s -> Forall P (rstrip s).
Proof.
  intros H. unfold rstrip.
  assert (R : forall l : str, Forall P l -> Forall P (rev l)).
  { intros l Hl. rewrite Forall_forall in *. intros c Hc. apply Hl.
    by apply list_elem_of_In, in_rev, list_elem_of_In in Hc. }
  by apply R, lstrip_Forall, R.
Qed.

Lemma rstrip_idem s : rstrip (rstrip s) = rstrip s.
Proof. unfold rstrip. by rewrite rev_involutive, lstrip_idem. Qed.

Lemma rstrip_app_nonempty x y : rstrip y <> [] -> rstrip (x ++ y) = x ++ rstrip y.
Proof.
  intros H. unfold rstrip in *. rewrite rev_app_distr, lstrip_app_nonempty.
  - by rewrite rev_app_distr, rev_involutive.
  - intros E. apply H. by rewrite E.
Qed.

Lemma rstrip_app_empty x y : rstrip y = [] -> rstrip (x ++ y) = rstrip x.
Proof.
  intros H. unfold rstrip in *. rewrite rev_app_distr, lstrip_app_empty; [done|].
  apply (f_equal (@rev ascii)) in H. by rewrite rev_involutive in H.
Qed.

Lemma rstrip_snoc c x : is_space c = false -> rstrip (x ++ [c]) = x ++ [c].
Proof.
  intros E. rewrite rstrip_app_nonempty; [|]; unfold rstrip; simpl; by rewrite E.
Qed.

Lemma lstrip_rstrip s : lstrip (rstrip s) = rstrip (lstrip s).
Proof.
  induction s as [|c s IH]; [done|].
  destruct (decide (rstrip s = [])) as [Hs|Hs].
  - change (c :: s) with ([c] ++ s). rewrite rstrip_app_empty by done.
    apply rstrip_nil_iff in Hs.
    simpl. destruct (is_space c) eqn:E.
    + unfold rstrip at 1. simpl. rewrite E. simpl.
      symmetry. apply rstrip_nil_iff. by apply lstrip_Forall.
    + unfold rstrip at 1. simpl. rewrite E. simpl. rewrite E.
      change (c :: s) with ([c] ++ s). rewrite rstrip_app_empty by (by apply rstrip_nil_iff).
      unfold rstrip. simpl. by rewrite E.
  - change (c :: s) with ([c] ++ s). rewrite rstrip_app_nonempty by done.
    simpl. destruct (is_space c) eqn:E; [exact IH|].
    change (c :: s) with ([c] ++ s). by rewrite rstrip_app_nonempty.
Qed.

Lemma strip_idem s : strip (strip s) = strip s.
Proof.
  unfold strip. by rewrite lstrip_rstrip, lstrip_idem, rstrip_idem.
Qed.

Lemma strip_length s : length (strip s) <= length s.
Proof. unfold strip. etrans; [apply rstrip_length|apply lstrip_length]. Qed.

Lemma strip_Forall (P : ascii -> Prop) s : Forall P s -> Forall P (strip s).
Proof. intros H. by apply rstrip_Forall, lstrip_Forall. Qed.

Lemma strip_rstrip s : strip (rstrip s) = strip s.
Proof. unfold strip. by rewrite lstrip_rstrip, rstrip_idem. Qed.

Lemma strip_lstrip s : strip (lstrip s) = strip s.
Proof. unfold strip. by rewrite lstrip_idem. Qed.

(** Stripping a text that ends with a non-space character keeps that
    character at the end. *)
Lemma strip_snoc c x : is_space c = false -> exists y, strip (x ++ [c]) = y ++ [c].
Proof.
  intros E. unfold strip. destruct (decide (lstrip x = [])) as [Hx|Hx].
  - rewrite lstrip_app_empty by done. exists []. simpl. rewrite E. unfold rstrip. simpl. by rewrite E.
  - rewrite lstrip_app_nonempty by done. exists (lstrip x). by apply rstrip_snoc.
Qed.

End Strip.

Lemma split_char_plain sep (p : str) :
  Forall (fun c => Ascii.eqb c sep = false) p -> split_char sep p = [p].
Proof.
  induction 1 as [|c p Hc Hp IH]; [done|]. simpl. by rewrite Hc, IH.
Qed.

Lemma split_char_app sep (p rest : str) :
  Forall (fun c => Ascii.eqb c sep = false) p ->
  split_char sep (p ++ sep :: rest) = p :: split_char sep rest.
Proof.
  induction 1 as [|c p Hc Hp IH]; simpl.
  - by rewrite Ascii.eqb_refl.
  - by rewrite Hc, IH.
Qed.

Lemma clean_response_steps s :
  _clean_response s = strip (limit_length (drop_incomplete s)).
Proof. reflexivity. Qed.

Lemma split_char_nonempty sep s : split_char sep s <> [].
Proof.
  destruct s as [|c s]; simpl; [done|].
  destruct (Ascii.eqb c sep); [done|]. by destruct (split_char sep s).
Qed.

Lemma join_split sep s : join [sep] (split_char sep s) = s.
Proof.
  induction s as [|c s IH]; [done|]. simpl.
  destruct (Ascii.eqb_spec c sep) as [->|Hne].
  - pose proof (split_char_nonempty sep s) as Hn.
    destruct (split_char sep s) as [|q qs] eqn:E; [done|].
    change (join [sep] ([] :: q :: qs)) with (sep :: join [sep] (q :: qs)).
    by rewrite IH.
  - pose proof (split_char_nonempty sep s) as Hn.
    destruct (split_char sep s) as [|q qs] eqn:E; [done|].
    rewrite <- IH. by destruct qs.
Qed.

Lemma split_char_last sep (p f : str) :
  Forall (fun c => Ascii.eqb c sep = false) f ->
  split_char sep (p ++ sep :: f) = split_char sep p ++ [f].
Proof.
  intros Hf. induction p as [|c p IH]; simpl.
  - by rewrite Ascii.eqb_refl, split_char_plain.
  - rewrite IH. destruct (Ascii.eqb c sep); [done|].
    pose proof (split_char_nonempty sep p) as Hn.
    by destruct (split_char sep p).
Qed.

Lemma last_occurrence sep (s : str) :
  Forall (fun c => Ascii.eqb c sep = false) s
  \/ exists p f, s = p ++ sep :: f /\ Forall (fun c => Ascii.eqb c sep = false) f.
Proof.
  induction s as [|c s IH]; [left; constructor|].
  destruct IH as [Hs|(p & f & -> & Hf)].
  - destruct (Ascii.eqb_spec c sep) as [->|Hne].
    + right. by exists [], s.
    + left. constructor; [|done]. by apply Ascii.eqb_neq.
  - right. by exists (c :: p), f.
Qed.

Lemma but_last_snoc {A} (l : list A) x : but_last (l ++ [x]) = l.
Proof.
  unfold but_last. rewrite length_app. simpl.
  replace (length l + 1 - 1) with (length l) by lia. by rewrite take_app_length.
Qed.

Lemma drop_incomplete_plain s :
  Forall (fun c => Ascii.eqb c "." = false) s -> drop_incomplete s = s.
Proof.
  intros H. unfold drop_incomplete. rewrite split_char_plain by done.
  rewrite bool_decide_false; [done|]. simpl. lia.
Qed.

Lemma drop_incomplete_dot p f :
  Forall (fun c => Ascii.eqb c "." = false) f ->
  drop_incomplete (p ++ "."%char :: f)
  = if bool_decide (length (strip f) < 10) then p ++ ["."%char] else p ++ "."%char :: f.
Proof.
  intros Hf. unfold drop_incomplete. rewrite split_char_last by done.
  rewrite last_last, but_last_snoc, length_app.
  change (py ".") with ["."%char]. rewrite join_split.
  pose proof (split_char_nonempty "." p) as Hn.
  destruct (split_char "." p) as [|q qs]; [done|]. simpl length.
  destruct (decide (length (strip f) < 10)).
  - rewrite !bool_decide_true; [done|done|]. split; [lia|done].
  - rewrite !bool_decide_false; [done|done|]. intros [_ ?]. done.
Qed.

Lemma drop_incomplete_snoc_dot x : drop_incomplete (x ++ ["."%char]) = x ++ ["."%char].
Proof. rewrite drop_incomplete_dot by constructor. done. Qed.

(** [drop_incomplete] keeps an initial segment, which ends with a dot
    when something was dropped. *)
Lemma drop_incomplete_cases s :
  drop_incomplete s = s
  \/ exists p f, s = p ++ "."%char :: f /\ drop_incomplete s = p ++ ["."%char].
Proof.
  destruct (last_occurrence "." s) as [H|(p & f & -> & Hf)].
  - left. by apply drop_incomplete_plain.
  - rewrite drop_incomplete_dot by done. case_bool_decide; [|by left].
    right. by exists p, f.
Qed.

Lemma drop_incomplete_length s : length (drop_incomplete s) <= length s.
Proof.
  destruct (drop_incomplete_cases s) as [->|(p & f & -> & ->)]; [done|].
  rewrite !length_app. simpl. lia.
Qed.

Lemma is_space_dot : is_space "." = false.
Proof. reflexivity. Qed.

Lemma strip_dot_last p f :
  Forall (fun c => Ascii.eqb c "." = false) f ->
  exists p' f',
    strip (p ++ "."%char :: f) = p' ++ "."%char :: f'
    /\ Forall (fun c => Ascii.eqb c "." = false) f'
    /\ strip f' = strip f.
Proof.
  intros Hf. unfold strip at 1.
  assert (exists p', lstrip (p ++ "."%char :: f) = p' ++ "."%char :: f) as [p' ->].
  { destruct (decide (lstrip p = [])) as [Hp|Hp].
    - exists []. rewrite lstrip_app_empty by done. done.
    - exists (lstrip p). by rewrite lstrip_app_nonempty. }
  destruct (decide (rstrip f = [])) as [Hsp|Hsp].
  - exists p', []. split; [|split; [constructor|]].
    + change (p' ++ "."%char :: f) with (p' ++ ["."%char] ++ f).
      rewrite app_assoc, rstrip_app_empty by done. by apply rstrip_snoc.
    + symmetry. unfold strip. apply rstrip_nil_iff, lstrip_Forall. by apply rstrip_nil_iff.
  - exists p', (rstrip f). split; [|split].
    + change (p' ++ "."%char :: f) with (p' ++ ["."%char] ++ f).
      by rewrite app_assoc, rstrip_app_nonempty, <- app_assoc.
    + by apply rstrip_Forall.
    + apply strip_rstrip.
Qed.

Lemma drop_incomplete_strip s :
  drop_incomplete (strip (drop_incomplete s)) = strip (drop_incomplete s).
Proof.
  destruct (last_occurrence "." s) as [H|(p & f & -> & Hf)].
  - rewrite (drop_incomplete_plain s) by done.
    apply drop_incomplete_plain. by apply strip_Forall.
  - rewrite drop_incomplete_dot by done. case_bool_decide as Hlen.
    + destruct (strip_snoc "." p is_space_dot) as [y ->]. apply drop_incomplete_snoc_dot.
    + destruct (strip_dot_last p f Hf) as (p' & f' & -> & Hf' & Hs).
      rewrite drop_incomplete_dot by done. rewrite Hs. by rewrite bool_decide_false.
Qed.

Lemma limit_length_short s : length s <= 500 -> limit_length s = s.
Proof. intros H. unfold limit_length. rewrite bool_decide_false; [done|lia]. Qed.

Lemma limit_length_long s :
  500 < length s -> limit_length s = take 500 s ++ py "...".
Proof. intros H. unfold limit_length. by rewrite bool_decide_true. Qed.

Lemma clean_response_short s :
  length (drop_incomplete s) <= 500 ->
  _clean_response (_clean_response s) = _clean_response s.
Proof.
  intros H. rewrite (clean_response_steps s), limit_length_short by done.
  rewrite clean_response_steps, drop_incomplete_strip.
  rewrite limit_length_short by (etrans; [apply strip_length|done]).
  apply strip_idem.
Qed.

Lemma clean_response_long s :
  500 < length (drop_incomplete s) -> lstrip s = s ->
  _clean_response (_clean_response s) = _clean_response s.
Proof.
  intros Hlong Hs.
  assert (Hr : exists c r, drop_incomplete s = c :: r /\ is_space c = false).
  { destruct s as [|c s']; [simpl in Hlong; lia|].
    assert (Hc : is_space c = false).
    { simpl in Hs. destruct (is_space c) eqn:E; [|done].
      pose proof (lstrip_length s') as Hl. rewrite Hs in Hl. simpl in Hl. lia. }
    destruct (drop_incomplete_cases (c :: s')) as [->|(p & f & Heq & Hd)]; [by eauto|].
    rewrite Hd in *. destruct p as [|c' p]; simpl in *.
    - lia.
    - injection Heq as <- _. eauto. }
  destruct Hr as (c & r & Hr & Hc).
  rewrite (clean_response_steps s), limit_length_long by done.
  rewrite Hr in *. simpl in Hlong.
  set (t := take 500 (c :: r) ++ py "...").
  assert (Hdots : py "..." = py ".." ++ ["."%char]) by reflexivity.
  assert (Ht : strip t = t).
  { subst t. unfold strip.
    change (take 500 (c :: r)) with (c :: take 499 r).
    assert (E : (c :: take 499 r) ++ py "..." = (c :: take 499 r ++ py "..") ++ ["."%char]).
    { simpl. f_equal. by rewrite <- app_assoc. }
    rewrite E. simpl lstrip. rewrite Hc.
    exact (rstrip_snoc "." (c :: take 499 r ++ py "..") is_space_dot). }
  rewrite Ht, clean_response_steps.
  assert (Hd : drop_incomplete t = t).
  { subst t. rewrite Hdots, app_assoc. apply drop_incomplete_snoc_dot. }
  rewrite Hd.
  assert (Hl : limit_length t = t).
  { rewrite limit_length_long.
    - subst t. rewrite take_app_le
        by (rewrite length_take; change (length (c :: r)) with (S (length r)); lia).
      by rewrite take_take, Nat.min_id.
    - subst t. rewrite length_app, length_take.
      change (length (c :: r)) with (S (length r)). change (length (py "...")) with 3. lia. }
  by rewrite Hl.
Qed.

(** C7 (as amended).  [_clean_response] applied twice gives what it
    gives applied once, for every text that does not begin with
    white space (the only call passes a stripped text) and for every
    text of at most 500 characters.  It is the three steps in a row:
    the text after the last dot goes when, stripped, it is shorter than
    10 characters (spaces inside it count), and the dot stays; a text
    without a dot is kept; then the cut at 500 characters with the
    marker "...", then the strip. *)
Theorem clean_response_idempotent (s : str) :
  (lstrip s = s \/ length s <= 500 ->
   _clean_response (_clean_response s) = _clean_response s)
  /\ _clean_response s = strip (limit_length (drop_incomplete s))
  /\ (Forall (fun c => Ascii.eqb c "." = false) s -> drop_incomplete s = s)
  /\ (forall p f,
        s = p ++ "."%char :: f -> Forall (fun c => Ascii.eqb c "." = false) f ->
        drop_incomplete s
        = if bool_decide (length (strip f) < 10) then p ++ ["."%char] else s).
Proof.
  split; [|split; [reflexivity|split]].
  - intros H. destruct (decide (length (drop_incomplete s) <= 500)) as [Hshort|Hlong].
    + by apply clean_response_short.
    + destruct H as [H|H].
      * apply clean_response_long; [lia|done].
      * pose proof (drop_incomplete_length s). lia.
  - apply drop_incomplete_plain.
  - intros p f -> Hf. by apply drop_incomplete_dot.
Qed.

Lemma clean_response_not_idempotent :
  _clean_response (_clean_response padded) <> _clean_response padded
  /\ length (_clean_response padded) = 502
  /\ length (_clean_response (_clean_response padded)) = 503
  /\ _clean_response (py "Use MAT. a b c d e f") = py "Use MAT. a b c d e f".
Proof.
  split; [|split; [|split]]; try (vm_compute; reflexivity).
  intros H. apply (f_equal length) in H. vm_compute in H. discriminate.
Qed.

(** *** Keyword retrieval *)

Lemma split_char_join sep (parts : list str) :
  parts <> [] ->
  Forall (Forall (fun c => Ascii.eqb c sep = false)) parts ->
  split_char sep (join [sep] parts) = parts.
Proof.
  intros Hne Hall. induction Hall as [|p parts Hp Hall IH]; [done|].
  destruct parts as [|q parts].
  - simpl. by apply split_char_plain.
  - change (join [sep] (p :: q :: parts)) with (p ++ sep :: join [sep] (q :: parts)).
    rewrite split_char_app by done. by rewrite IH.
Qed.

Lemma plain_char_spec c :
  plain_char c = true ->
  is_meta c = false /\ Ascii.eqb c "." = false /\ Ascii.eqb c "|" = false.
Proof.
  unfold plain_char. intros H. apply andb_prop in H as [H H3]. apply andb_prop in H as [H1 H2].
  by repeat split; apply negb_true_iff.
Qed.

Lemma parse_alternative_plain kw :
  plain_keyword kw -> parse_alternative kw = Some (map Lit kw).
Proof.
  induction 1 as [|c kw Hc Hkw IH]; [done|].
  apply plain_char_spec in Hc as (Hm & Hd & _).
  simpl. by rewrite Hm, IH, Hd.
Qed.

Lemma parse_pattern_plain keywords :
  keywords <> [] -> Forall plain_keyword keywords ->
  parse_pattern (join (py "|") keywords) = Some (map (map Lit) keywords).
Proof.
  intros Hne Hall. unfold parse_pattern.
  change (py "|") with ["|"%char].
  rewrite split_char_join; [|done|].
  - clear Hne. induction Hall as [|kw kws Hkw Hall IH]; [done|].
    simpl. rewrite parse_alternative_plain by done. simpl. by rewrite IH.
  - eapply Forall_impl; [exact Hall|]. intros kw Hkw.
    eapply Forall_impl; [exact Hkw|]. intros c Hc. by apply plain_char_spec in Hc as (_ & _ & ?).
Qed.

Lemma match_here_literal kw t :
  match_here (map Lit kw) t = starts_with (lower kw) (lower t).
Proof.
  revert t. induction kw as [|c kw IH]; intros [|d t]; simpl; try done.
  by rewrite IH.
Qed.

Lemma search_literal kw t :
  search_here_or_later (map Lit kw) t = contains (lower kw) (lower t).
Proof.
  induction t as [|d t IH]; simpl.
  - by rewrite (match_here_literal kw []).
  - by rewrite (match_here_literal kw (d :: t)), IH.
Qed.

Lemma search_any_literal keywords t :
  existsb (fun atoms => search_here_or_later atoms t) (map (map Lit) keywords)
  = matches_any keywords t.
Proof.
  unfold matches_any. induction keywords as [|kw kws IH]; [done|].
  simpl. by rewrite search_literal, IH.
Qed.

Lemma str_contains_plain env keywords texts :
  keywords <> [] -> Forall plain_keyword keywords ->
  str_contains env (join (py "|") keywords) texts
  = Ok (map (matches_any keywords) texts).
Proof.
  intros Hne Hall. unfold str_contains, re_compile.
  rewrite parse_pattern_plain by done. rewrite bind_Ok. f_equal.
  apply map_ext. intros t. apply search_any_literal.
Qed.

Lemma masked_rows {A} (f : A -> bool) (l : list A) :
  map fst (filter (fun p => snd p = true) (zip l (map f l)))
  = filter (fun x => f x = true) l.
Proof.
  induction l as [|x l IH]; [done|].
  simpl. rewrite !filter_cons. simpl.
  destruct (decide (f x = true)); simpl; by rewrite IH.
Qed.

(** X1.  Keywords without pattern characters.  For a non-empty list of
    keywords none of which has a character the pattern syntax gives a
    meaning, [retrieve_by_keywords] returns the documents that contain
    some keyword, case ignored, in document order, cut by [head k], each
    with similarity 1 and the keywords it was asked for. *)
Lemma retrieve_by_keywords_plain (env : Env) (r : DocumentRetriever) (df : DataFrame)
    (keywords : list str) (k : Z) :
  documents r = Some df -> keywords <> [] -> Forall plain_keyword keywords ->
  retrieve_by_keywords env r keywords k
  = Ok (map (fun row => mkKeywordHit (text row) (source_url row) 1 keywords)
            (head k (filter (fun row => matches_any keywords (text row) = true) df))).
Proof.
  intros Hdocs Hne Hall. unfold retrieve_by_keywords.
  rewrite Hdocs, str_contains_plain by done. rewrite bind_Ok.
  rewrite map_map. by rewrite masked_rows.
Qed.

(** C9, the code at the failing inputs.  The keywords are read as
    regular expressions: the keyword "Dr." returns the document "Drug
    treatment helps patients", which does not contain it; and with no
    keyword at all every document is returned. *)
Theorem retrieve_by_keywords_reads_patterns :
  let env := test_env failing_generator in
  let r := mkRetriever (Some drug_documents) None in
  (map kw_text <$> retrieve_by_keywords env r [py "Dr."] 5)
  = Ok [py "Drug treatment helps patients"]
  /\ matches_any [py "Dr."] (py "Drug treatment helps patients") = false
  /\ (map kw_text <$> retrieve_by_keywords env r [] 5)
     = Ok [py "Drug treatment helps patients"; py "Public health scotland provides guidance"]
  /\ (forall t, matches_any [] t = false).
Proof. repeat split. Qed.

(** *** Answering a query *)

Lemma generate_with_context_failed env query context :
  generation_failed (generator env (prompt query context)) ->
  _generate_with_context env query context = apology.
Proof.
  unfold _generate_with_context, generation_failed.
  destruct (generator env (prompt query context)) as [[|[t|] outs]|e]; done.
Qed.

Lemma generate_response_loaded env sys df query use_kg k :
  is_loaded sys = true -> fitted_index (retriever sys) df ->
  let hits := map (hit_at df) (ranking env df query k) in
  let kg := kg_for env query use_kg in
  generate_response env sys query use_kg k
  = Ok (sys, mkResponse (_generate_with_context env query (_prepare_context hits kg))
               (filter (fun u => u <> []) (map hit_source_url hits))
               (Some (bool_decide (0 < length hits) || negb (bool_decide (kg = []))))
               (Some (negb (bool_decide (kg = []))))).
Proof.
  intros Hl Hfit. unfold generate_response. rewrite Hl. simpl negb. cbv iota.
  rewrite (retrieve_fitted env _ df query k Hfit). rewrite bind_Ok.
  destruct sys as [r l]. simpl in *. subst l. reflexivity.
Qed.

(** C1 (as amended).  On a loaded system whose retriever is fitted,
    [generate_response] returns normally for every query; when the
    generator raises, returns no candidate or a candidate without text,
    the response is the fixed apology, and the sources are still the
    non-empty source URLs of the retrieved documents. *)
Theorem generate_response_recovers (env : Env) (sys : RAGSystem) (df : DataFrame)
    (query : str) (use_kg : bool) (k : Z) :
  is_loaded sys = true -> fitted_index (retriever sys) df ->
  exists hits resp,
    retrieve env (retriever sys) query k = Ok (retriever sys, hits)
    /\ generate_response env sys query use_kg k = Ok (sys, resp)
    /\ sources resp = filter (fun u => u <> []) (map hit_source_url hits)
    /\ (generation_failed
          (generator env (prompt query (_prepare_context hits (kg_for env query use_kg))))
        -> response resp = apology).
Proof.
  intros Hl Hfit. eexists _, _.
  split; [by apply retrieve_fitted|].
  split; [by apply generate_response_loaded|].
  split; [done|]. simpl. apply generate_with_context_failed.
Qed.

(** *** Evaluation run *)

Lemma evaluate_case_loaded env sys df tc acc t :
  is_loaded sys = true -> fitted_index (retriever sys) df ->
  exists m,
    evaluate_case env (sys, acc, t) tc
    = Ok (sys, acc ++ [m], (t + elapsed env (tc_question tc))%Q)
    /\ recorded env sys tc m.
Proof.
  intros Hl Hfit. unfold evaluate_case.
  rewrite (generate_response_loaded env sys df _ true 3 Hl Hfit), bind_Ok.
  eexists. split; [reflexivity|].
  do 3 (split; [reflexivity|]).
  split; [intros []; reflexivity|]. split; [reflexivity|].
  intros (hits & Hret & Hfail). simpl.
  rewrite (retrieve_fitted env _ df _ 3 Hfit) in Hret. injection Hret as <-.
  by apply generate_with_context_failed.
Qed.

Lemma for_each_cons {A S} (x : A) l (body : S -> A -> result S) s :
  for_each (x :: l) body s = (s' ← body s x; for_each l body s').
Proof. reflexivity. Qed.

Lemma evaluate_cases_loaded env sys df tcs :
  is_loaded sys = true -> fitted_index (retriever sys) df ->
  forall acc t, exists ms t',
    for_each tcs (evaluate_case env) (sys, acc, t) = Ok (sys, acc ++ ms, t')
    /\ Forall2 (recorded env sys) tcs ms.
Proof.
  intros Hl Hfit. induction tcs as [|tc tcs IH]; intros acc t.
  - exists [], t. simpl. rewrite app_nil_r. split; [done|constructor].
  - rewrite for_each_cons.
    destruct (evaluate_case_loaded env sys df tc acc t Hl Hfit) as (m & -> & Hm).
    rewrite bind_Ok.
    destruct (IH (acc ++ [m]) (t + elapsed env (tc_question tc))%Q) as (ms & t' & -> & Hrec).
    exists (m :: ms), t'. rewrite <- app_assoc. split; [done|by constructor].
Qed.

Lemma run_evaluation_loaded env sys df tcs :
  is_loaded sys = true -> fitted_index (retriever sys) df -> tcs <> [] ->
  exists report,
    run_evaluation env sys (Some tcs) = Ok (sys, report)
    /\ test_cases_count report = length tcs
    /\ Forall2 (recorded env sys) tcs (individual_results report).
Proof.
  intros Hl Hfit Hne. unfold run_evaluation. simpl default.
  rewrite Hl, bind_Ok.
  destruct (evaluate_cases_loaded env sys df tcs Hl Hfit [] 0%Q) as (ms & t' & -> & Hrec).
  rewrite bind_Ok. simpl app. cbv beta iota.
  assert (Hms : ms <> []).
  { intros ->. apply Forall2_nil_inv_r in Hrec. done. }
  destruct (aggregate_ok ms Hms) as (agg & ->).
  rewrite bind_Ok, div_len_ok, bind_Ok by (by destruct tcs).
  eexists. split; [done|]. simpl. done.
Qed.

Lemma evaluate_case_raises env sys tc acc t e :
  generate_response env sys (tc_question tc) true 3 = Raise e ->
  evaluate_case env (sys, acc, t) tc = Raise e.
Proof. intros Hraise. unfold evaluate_case. by rewrite Hraise. Qed.

Lemma run_evaluation_default env sys :
  run_evaluation env sys None = run_evaluation env sys (Some create_test_dataset).
Proof. unfold run_evaluation. reflexivity. Qed.

Lemma for_each_app {A S} (l1 l2 : list A) (body : S -> A -> result S) s :
  for_each (l1 ++ l2) body s = (s' ← for_each l1 body s; for_each l2 body s').
Proof.
  revert s. induction l1 as [|x l1 IH]; intros s; [done|].
  rewrite <- app_comm_cons, !for_each_cons.
  destruct (body s x) as [s'|e]; [|done]. rewrite !bind_Ok. apply IH.
Qed.

Lemma run_evaluation_aborts_at env sys before tc rest sys' results total_time e :
  is_loaded sys = true ->
  for_each before (evaluate_case env) (sys, [], 0%Q) = Ok (sys', results, total_time) ->
  generate_response env sys' (tc_question tc) true 3 = Raise e ->
  run_evaluation env sys (Some (before ++ tc :: rest)) = Raise e.
Proof.
  intros Hl Hbefore Hraise. unfold run_evaluation. simpl default.
  rewrite Hl, bind_Ok, for_each_app, Hbefore, bind_Ok, for_each_cons.
  by rewrite (evaluate_case_raises env sys' tc results total_time e Hraise).
Qed.

Lemma run_evaluation_aborts env sys tc rest e :
  is_loaded sys = true ->
  generate_response env sys (tc_question tc) true 3 = Raise e ->
  run_evaluation env sys (Some (tc :: rest)) = Raise e.
Proof.
  intros Hl Hraise.
  by apply (run_evaluation_aborts_at env sys [] tc rest sys [] 0%Q e).
Qed.

(** C2 (as amended).  On a loaded system whose retriever is fitted and
    for a non-empty list of test cases, [run_evaluation] returns a report
    with one record per case, in order; the scores of a record are those
    of the recorded generated text against the expected answer, and when
    the generator fails on a case that text is the fixed apology.  An
    exception that leaves [generate_response] is not caught: at whatever
    case it is raised, after however many cases that were answered, it
    ends the run, and no report is returned. *)
Theorem run_evaluation_continues (env : Env) :
  (forall sys df tcs,
     is_loaded sys = true -> fitted_index (retriever sys) df -> tcs <> [] ->
     exists report,
       run_evaluation env sys (Some tcs) = Ok (sys, report)
       /\ test_cases_count report = length tcs
       /\ Forall2 (recorded env sys) tcs (individual_results report))
  /\ (forall sys before tc rest sys' results total_time e,
        is_loaded sys = true ->
        for_each before (evaluate_case env) (sys, [], 0%Q)
        = Ok (sys', results, total_time) ->
        generate_response env sys' (tc_question tc) true 3 = Raise e ->
        run_evaluation env sys (Some (before ++ tc :: rest)) = Raise e).
Proof.
  split.
  - intros sys df tcs. apply run_evaluation_loaded.
  - intros sys before tc rest sys' results total_time e. apply run_evaluation_aborts_at.
Qed.

(** C10.  With an empty list of test cases [run_evaluation] raises
    [ZeroDivisionError] (unless the set-up of the system raises before);
    a report is returned only for a non-empty list. *)
Theorem run_evaluation_empty (env : Env) (sys : RAGSystem) :
  run_evaluation env sys (Some [])
  = (_ ← (if is_loaded sys then Ok sys else setup env sys); Raise ZeroDivisionError)
  /\ forall tcs sys' report,
       run_evaluation env sys (Some tcs) = Ok (sys', report) -> tcs <> [].
Proof.
  assert (H : run_evaluation env sys (Some [])
    = (_ ← (if is_loaded sys then Ok sys else setup env sys); Raise ZeroDivisionError)).
  { unfold run_evaluation. simpl default.
    destruct (if is_loaded sys then Ok sys else setup env sys); reflexivity. }
  split; [exact H|].
  intros tcs sys' report Hrun ->. rewrite H in Hrun.
  destruct (if is_loaded sys then Ok sys else setup env sys); discriminate.
Qed.

(** ** The code on concrete inputs *)

Lemma prepare_context_marks_uncut_text :
  _prepare_context [mkHit (py "short") (py "url1") 1 0] []
  = py "Relevant Information: short..."
  /\ length (py "short") <= 200.
Proof. split; [reflexivity|]. simpl. lia. Qed.

Lemma clean_data_judges_raw_text :
  map _clean_text (map text same_when_cleaned)
  = [py "ssssssssssssssssssssss."; py "ssssssssssssssssssssss."]
  /\ map text (clean_data same_when_cleaned)
     = [py "ssssssssssssssssssssss."; py "ssssssssssssssssssssss."]
  /\ clean_data claim_example = []
  /\ map text (clean_data claim_example) <> [py "Valid text"].
Proof.
  split; [vm_compute; reflexivity|]. split; [vm_compute; reflexivity|].
  split; [reflexivity|]. vm_compute. discriminate.
Qed.

Lemma retrieve_ties_descending_index :
  exists h1 h2,
    snd <$> retrieve (test_env failing_generator) (fitted_on twin_documents)
              (py "MAT standards") 2
    = Ok [h1; h2]
    /\ hit_text h1 = hit_text h2
    /\ similarity h1 = similarity h2
    /\ hit_index h1 = 1 /\ hit_index h2 = 0.
Proof. eexists _, _. split; [vm_compute; reflexivity|]. repeat split. Qed.

Lemma aggregate_without_length_ratio :
  exists agg,
    _calculate_aggregate_metrics two_records = Ok agg
    /\ map m_length_ratio two_records = [1; 2]%Q
    /\ agg !! py "length_ratio_mean" = None
    /\ agg !! py "length_ratio_min" = None
    /\ agg !! py "length_ratio_max" = None.
Proof.
  eexists. split; [by apply aggregate_as_writes|].
  split; [reflexivity|].
  repeat split; (rewrite lookup_writes_other; [apply lookup_empty|]);
    intros v Hv; apply (list_elem_of_fmap_2 fst) in Hv; vm_compute in Hv;
    repeat (apply elem_of_cons in Hv as [Hv|Hv]; [discriminate|]);
    by apply elem_of_nil in Hv.
Qed.

Lemma generate_response_keeps_sources :
  (exists sys resp,
     generate_response (test_env failing_generator) test_system (py "MAT standards") true 3
     = Ok (sys, resp)
     /\ response resp = apology
     /\ sources resp = [py "url1"; py "url4"])
  /\ generate_response (test_env failing_generator) empty_system (py "MAT standards") true 3
     = Raise ValueError.
Proof.
  split; [|reflexivity].
  eexists _, _. split; [vm_compute; reflexivity|]. split; reflexivity.
Qed.

Lemma run_evaluation_no_error_entry :
  (exists sys report m,
     run_evaluation (test_env flaky_generator) test_system None = Ok (sys, report)
     /\ individual_results report !! 1 = Some m
     /\ generated m = apology
     /\ (m_length_ratio m == 14 # 11)%Q
     /\ ~ (m_length_ratio m == 0)%Q)
  /\ run_evaluation (test_env flaky_generator) empty_system None = Raise ValueError.
Proof.
  rewrite !run_evaluation_default.
  split; [|apply run_evaluation_aborts; reflexivity].
  destruct (run_evaluation_loaded (test_env flaky_generator) test_system test_documents
              create_test_dataset) as (report & Hrun & _ & Hrec);
    [reflexivity|split; reflexivity|discriminate|].
  unfold create_test_dataset in Hrec.
  apply Forall2_cons_inv_l in Hrec as (m0 & ms & _ & Hrec & Hres).
  apply Forall2_cons_inv_l in Hrec as (m1 & ms' & H1 & _ & ->).
  exists test_system, report, m1. split; [exact Hrun|].
  rewrite Hres. split; [reflexivity|].
  destruct H1 as (_ & Hexp & _ & _ & Hratio & Hfail).
  assert (Hgen : generated m1 = apology).
  { apply Hfail. eexists. split; [vm_compute; reflexivity|]. vm_compute. exact I. }
  split; [exact Hgen|].
  rewrite Hratio, Hexp, Hgen. split; vm_compute; [reflexivity|discriminate].
Qed.

(** ** The theorems at concrete inputs *)

Lemma generate_response_recovers_witness :
  is_loaded test_system = true
  /\ fitted_index (retriever test_system) test_documents
  /\ exists hits resp,
       retrieve (test_env failing_generator) (retriever test_system) (py "MAT standards") 3
       = Ok (retriever test_system, hits)
       /\ generate_response (test_env failing_generator) test_system (py "MAT standards") true 3
          = Ok (test_system, resp)
       /\ sources resp = filter (fun u => u <> []) (map hit_source_url hits)
       /\ response resp = apology.
Proof.
  split; [reflexivity|]. split; [split; reflexivity|].
  destruct (generate_response_recovers (test_env failing_generator) test_system
              test_documents (py "MAT standards") true 3)
    as (hits & resp & Hret & Hgen & Hsrc & Hfail);
    [reflexivity|split; reflexivity|].
  exists hits, resp. repeat split; [exact Hret|exact Hgen|exact Hsrc|].
  apply Hfail. exact I.
Defined.

Lemma run_evaluation_continues_witness :
  is_loaded test_system = true
  /\ fitted_index (retriever test_system) test_documents
  /\ [first_case; fourth_case; one_case] <> []
  /\ (exists report,
        run_evaluation (test_env failing_generator) test_system
          (Some [first_case; fourth_case; one_case])
        = Ok (test_system, report)
        /\ test_cases_count report = length [first_case; fourth_case; one_case]
        /\ Forall2 (recorded (test_env failing_generator) test_system)
             [first_case; fourth_case; one_case] (individual_results report))
  /\ is_loaded stale_system = true
  /\ (exists sys' results total_time,
        for_each [first_case] (evaluate_case (test_env failing_generator))
          (stale_system, [], 0%Q)
        = Ok (sys', results, total_time)
        /\ length results = 1
        /\ generate_response (test_env failing_generator) sys'
             (tc_question fourth_case) true 3
           = Raise IndexError)
  /\ run_evaluation (test_env failing_generator) stale_system
       (Some ([first_case] ++ fourth_case :: [one_case]))
     = Raise IndexError.
Proof.
  split; [reflexivity|]. split; [split; reflexivity|]. split; [discriminate|].
  split.
  - apply (proj1 (run_evaluation_continues (test_env failing_generator))
             test_system test_documents [first_case; fourth_case; one_case]);
      [reflexivity|split; reflexivity|discriminate].
  - split; [reflexivity|]. split.
    + eexists _, _, _. split; [vm_compute; reflexivity|].
      split; [reflexivity|vm_compute; reflexivity].
    + eapply (proj2 (run_evaluation_continues (test_env failing_generator))
                stale_system [first_case] fourth_case [one_case]);
        [reflexivity|vm_compute; reflexivity|vm_compute; reflexivity].
Defined.

Lemma retrieve_order_witness :
  fitted_index (fitted_on twin_documents) twin_documents
  /\ exists hits,
       retrieve (test_env failing_generator) (fitted_on twin_documents) (py "MAT standards") 2
       = Ok (fitted_on twin_documents, hits)
       /\ length hits = 2
       /\ Forall (fun h => (similarity h == 1)%Q) hits
       /\ StronglySorted ranked_before hits
       /\ Forall (fun h => exists row, twin_documents !! hit_index h = Some row
                    /\ hit_text h = text row
                    /\ similarity h
                       = tfidf_cosine (test_env failing_generator) (map text twin_documents)
                           (py "MAT standards") (text row)) hits.
Proof.
  assert (Hfit : fitted_index (fitted_on twin_documents) twin_documents)
    by (split; reflexivity).
  split; [exact Hfit|].
  destruct (retrieve_order (test_env failing_generator) (fitted_on twin_documents)
              twin_documents (py "MAT standards") 2 Hfit)
    as (hits & Hret & Hsorted & Hall).
  exists hits. split; [exact Hret|].
  assert (Hhits : map (hit_at twin_documents)
                    (ranking (test_env failing_generator) twin_documents
                       (py "MAT standards") 2)
                  = hits).
  { rewrite (retrieve_fitted _ _ _ _ _ Hfit) in Hret.
    apply (f_equal (fun o => match o with Ok p => snd p | Raise _ => [] end)) in Hret.
    exact Hret. }
  split; [rewrite <- Hhits; reflexivity|].
  split; [rewrite <- Hhits; vm_compute; repeat constructor|].
  split; [exact Hsorted|exact Hall].
Defined.

Lemma retrieve_top_k_witness :
  fitted_index (fitted_on test_documents) test_documents
  /\ (0 < 2)%Z
  /\ (exists hits,
        retrieve (test_env failing_generator) (fitted_on test_documents) (py "MAT standards") 2
        = Ok (fitted_on test_documents, hits)
        /\ length hits <= Z.to_nat 2
        /\ Forall (fun h => (0 < similarity h)%Q) hits)
  /\ Forall (fun row =>
               tfidf_cosine (test_env failing_generator) (map text test_documents)
                 (py "zebra crossing") (text row) == 0) test_documents
  /\ retrieve (test_env failing_generator) (fitted_on test_documents) (py "zebra crossing") 2
     = Ok (fitted_on test_documents, []).
Proof.
  assert (Hfit : fitted_index (fitted_on test_documents) test_documents)
    by (split; reflexivity).
  assert (Hk : (0 < 2)%Z) by lia.
  assert (Hzero : Forall (fun row =>
               tfidf_cosine (test_env failing_generator) (map text test_documents)
                 (py "zebra crossing") (text row) == 0) test_documents)
    by (repeat constructor).
  split; [exact Hfit|]. split; [exact Hk|]. split; [|split; [exact Hzero|]].
  - destruct (retrieve_top_k (test_env failing_generator) (fitted_on test_documents)
                test_documents (py "MAT standards") 2 Hfit Hk)
      as (hits & Hret & Hlen & Hpos & _).
    exists hits. repeat split; assumption.
  - destruct (retrieve_top_k (test_env failing_generator) (fitted_on test_documents)
                test_documents (py "zebra crossing") 2 Hfit Hk)
      as (hits & Hret & _ & _ & Hnone).
    rewrite (Hnone Hzero) in Hret. exact Hret.
Defined.

Lemma aggregate_report_witness :
  two_records <> []
  /\ py "general" ∈ map category two_records
  /\ exists agg,
       _calculate_aggregate_metrics two_records = Ok agg
       /\ agg !! mean_key bleu = Some (mean_of (map (get bleu) two_records))
       /\ agg !! category_key (py "general") bleu
          = Some (mean_of (map (get bleu) (in_category (py "general") two_records)))
       /\ agg !! py "length_ratio_mean" = None.
Proof.
  assert (Hne : two_records <> []) by discriminate.
  assert (Hcat : py "general" ∈ map category two_records)
    by (apply elem_of_cons; left; reflexivity).
  split; [exact Hne|]. split; [exact Hcat|].
  destruct (aggregate_report two_records Hne) as (agg & Hagg & Hglobal & Hcats & Hratio).
  exists agg. split; [exact Hagg|]. split; [exact (proj1 (Hglobal bleu))|].
  split; [exact (Hcats (py "general") bleu Hcat)|exact Hratio].
Defined.

Lemma clean_response_idempotent_witness :
  (lstrip (py "MAT standards guide care. Ask") = py "MAT standards guide care. Ask"
   \/ length (py "MAT standards guide care. Ask") <= 500)
  /\ _clean_response (_clean_response (py "MAT standards guide care. Ask"))
     = _clean_response (py "MAT standards guide care. Ask")
  /\ py "MAT standards guide care. Ask" = py "MAT standards guide care" ++ "."%char :: py " Ask"
  /\ Forall (fun c => Ascii.eqb c "." = false) (py " Ask")
  /\ drop_incomplete (py "MAT standards guide care. Ask") = py "MAT standards guide care.".
Proof.
  assert (H1 : lstrip (py "MAT standards guide care. Ask") = py "MAT standards guide care. Ask"
               \/ length (py "MAT standards guide care. Ask") <= 500)
    by (left; reflexivity).
  assert (H2 : py "MAT standards guide care. Ask"
               = py "MAT standards guide care" ++ "."%char :: py " Ask") by reflexivity.
  assert (H3 : Forall (fun c => Ascii.eqb c "." = false) (py " Ask"))
    by (repeat constructor).
  split; [exact H1|].
  split; [exact (proj1 (clean_response_idempotent (py "MAT standards guide care. Ask")) H1)|].
  split; [exact H2|]. split; [exact H3|].
  exact (proj2 (proj2 (proj2 (clean_response_idempotent (py "MAT standards guide care. Ask"))))
           _ _ H2 H3).
Defined.

Lemma clean_data_spec_witness :
  survivors mixed_rows
  = [ mkRow 1 (py "ssssssssssssssssssssss.") (py "url2") 23;
      mkRow 4 (py "ssssssssssssssssssssss.@") (py "url5") 24 ]
  /\ clean_data mixed_rows
     = [ mkRow 0 (py "ssssssssssssssssssssss.") (py "url2") 23;
         mkRow 1 (py "ssssssssssssssssssssss.") (py "url5") 24 ]
  /\ clean_data mixed_rows = reset_index (map cleaned (survivors mixed_rows))
  /\ mkRow 4 (py "ssssssssssssssssssssss.@") (py "url5") 24 ∈ mixed_rows
  /\ py "ssssssssssssssssssssss.@" <> []
  /\ 20 <= length (_clean_text (py "ssssssssssssssssssssss.@"))
  /\ _clean_text (py "ssssssssssssssssssssss.@") ∈ map text (clean_data mixed_rows).
Proof.
  assert (H1 : mkRow 4 (py "ssssssssssssssssssssss.@") (py "url5") 24 ∈ mixed_rows)
    by (unfold mixed_rows; rewrite !elem_of_cons; tauto).
  assert (H2 : py "ssssssssssssssssssssss.@" <> []) by discriminate.
  assert (H3 : 20 <= length (_clean_text (py "ssssssssssssssssssssss.@")))
    by (vm_compute; lia).
  split; [vm_compute; reflexivity|]. split; [vm_compute; reflexivity|].
  split; [exact (proj1 (clean_data_spec mixed_rows))|].
  split; [exact H1|]. split; [exact H2|]. split; [exact H3|].
  exact (proj2 (proj2 (proj2 (proj2 (proj2 (proj2 (proj2 (proj2
           (clean_data_spec mixed_rows))))))))
           _ H1 H2 H3).
Defined.

Lemma run_evaluation_empty_witness :
  exists sys' report,
    run_evaluation (test_env echo_generator) test_system (Some [one_case]) = Ok (sys', report)
    /\ [one_case] <> [].
Proof.
  destruct (run_evaluation_loaded (test_env echo_generator) test_system test_documents
              [one_case]) as (report & Hrun & _);
    [reflexivity|split; reflexivity|discriminate|].
  exists test_system, report. split; [exact Hrun|].
  exact (proj2 (run_evaluation_empty (test_env echo_generator) test_system) _ _ _ Hrun).
Defined.

Lemma retrieve_by_keywords_plain_witness :
  documents (fitted_on test_documents) = Some test_documents
  /\ [py "MAT"; py "treatment"] <> []
  /\ Forall plain_keyword [py "MAT"; py "treatment"]
  /\ map (fun h => (kw_text h, kw_similarity h))
       <$> retrieve_by_keywords (test_env failing_generator) (fitted_on test_documents)
             [py "MAT"; py "treatment"] 5
     = Ok [ (py "MAT standards are important for treatment", 1%Q);
            (py "Medication assisted treatment helps patients", 1%Q);
            (py "Recovery is the main goal of MAT", 1%Q) ].
Proof.
  assert (H1 : documents (fitted_on test_documents) = Some test_documents) by reflexivity.
  assert (H2 : [py "MAT"; py "treatment"] <> []) by discriminate.
  assert (H3 : Forall plain_keyword [py "MAT"; py "treatment"])
    by (repeat constructor).
  split; [exact H1|]. split; [exact H2|]. split; [exact H3|].
  rewrite (retrieve_by_keywords_plain (test_env failing_generator)
             (fitted_on test_documents) test_documents [py "MAT"; py "treatment"] 5 H1 H2 H3).
  reflexivity.
Defined.

(** ** Further properties *)

(** *** Steps shared by the proofs *)

Lemma Qlt_bool_intro x y : (x < y)%Q -> Qlt_bool x y = true.
Proof. intros H. destruct (Qlt_bool_spec x y) as [[_ H']|[H' _]]; [done|lra]. Qed.

Lemma filter_all {A} (P : A -> Prop) `{!forall x, Decision (P x)} (l : list A) :
  Forall P l -> filter P l = l.
Proof.
  induction 1 as [|x l Hx Hl IH]; [done|]. by rewrite filter_cons_True, IH.
Qed.

Lemma filter_none {A} (P : A -> Prop) `{!forall x, Decision (P x)} (l : list A) :
  Forall (fun x => ~ P x) l -> filter P l = [].
Proof.
  induction 1 as [|x l Hx Hl IH]; [done|]. by rewrite filter_cons_False, IH.
Qed.

Lemma elem_of_rev {A} (x : A) l : x ∈ rev l <-> x ∈ l.
Proof. rewrite !list_elem_of_In. symmetry. apply in_rev. Qed.

(** *** Retriever *)

Lemma sorted_pairs_perm a : sorted_pairs a ≡ₚ enum 0 a.
Proof. apply (sorted_enum a 0). Qed.

Lemma enum_fst a n : map fst (enum n a) = seq n (length a).
Proof.
  revert n. induction a as [|x a IH]; intros n; [done|].
  rewrite enum_cons. simpl. by rewrite IH.
Qed.

Lemma sorted_pairs_NoDup a : NoDup (map fst (sorted_pairs a)).
Proof.
  rewrite map_fmap, sorted_pairs_perm, <- map_fmap, enum_fst. apply NoDup_seq.
Qed.

Lemma sorted_pairs_complete a j s : a !! j = Some s -> (j, s) ∈ sorted_pairs a.
Proof.
  intros Hj. rewrite sorted_pairs_perm. apply list_elem_of_lookup. exists j.
  unfold enum. rewrite list_lookup_imap, Hj. done.
Qed.

Lemma StronglySorted_app_elem {A} (R : A -> A -> Prop) l1 l2 x y :
  StronglySorted R (l1 ++ l2) -> x ∈ l1 -> y ∈ l2 -> R x y.
Proof.
  induction l1 as [|a l1 IH]; intros Hs Hx Hy; [by apply elem_of_nil in Hx|].
  simpl in Hs. apply StronglySorted_inv in Hs as [Hs Ha].
  apply elem_of_cons in Hx as [->|Hx]; [|by apply IH].
  rewrite Forall_forall in Ha. apply Ha. apply elem_of_app. by right.
Qed.

Lemma similarities_lookup env df query j row :
  df !! j = Some row ->
  similarities_of env df query !! j
  = Some (tfidf_cosine env (map text df) query (text row)).
Proof.
  intros Hrow. unfold similarities_of.
  rewrite !map_fmap, !list_lookup_fmap, Hrow. done.
Qed.

Lemma hit_index_ranking df P : map hit_index (map (hit_at df) P) = map fst P.
Proof. induction P as [|p P IH]; [done|]. simpl. by rewrite IH. Qed.

Lemma ranking_NoDup env df query k : NoDup (map fst (ranking env df query k)).
Proof.
  unfold ranking. rewrite map_fmap.
  eapply sublist_NoDup; [|apply fmap_sublist, sublist_filter; apply _].
  rewrite <- Permutation_rev.
  eapply sublist_NoDup; [|apply fmap_sublist, slice_from_sublist].
  rewrite <- map_fmap. apply sorted_pairs_NoDup.
Qed.


(** Where [l[start:]] cuts. *)
Lemma slice_from_drop {A} (start : Z) (l : list A) :
  slice_from start l
  = drop (if (start <? 0)%Z then Z.to_nat (Z.of_nat (length l) + start)
          else Z.to_nat start) l.
Proof. unfold slice_from. by destruct (start <? 0)%Z. Qed.

(** A pair of positive value that is missing from the ranking stands in
    the part of the sorted pairs that the slice cuts off. *)
Lemma ranking_missing env df query k j s n :
  let S := sorted_pairs (similarities_of env df query) in
  slice_from (- k) S = drop n S ->
  similarities_of env df query !! j = Some s -> (0 < s)%Q ->
  j ∉ map fst (ranking env df query k) ->
  (j, s) ∈ take n S.
Proof.
  intros S Hn Hj Hpos Hout.
  assert (HS : (j, s) ∈ S) by by apply sorted_pairs_complete.
  rewrite <- (take_drop n S) in HS. apply elem_of_app in HS as [HS|HS]; [done|].
  exfalso. apply Hout. rewrite map_fmap. apply list_elem_of_fmap.
  exists (j, s). split; [done|]. unfold ranking.
  apply list_elem_of_filter. split.
  - unfold relevant. simpl. by apply Qlt_bool_intro.
  - fold S. rewrite Hn. by rewrite elem_of_rev.
Qed.

(** X2.  The results of [retrieve] are the best ones.  On a fitted index
    and for a positive [k], no document is returned twice, and a
    document of positive similarity is left out only when [k] results
    were returned, each of them at least as similar to the query. *)
Theorem retrieve_best (env : Env) (r : DocumentRetriever) (df : DataFrame)
    (query : str) (k : Z) :
  fitted_index r df -> (0 < k)%Z ->
  exists hits,
    retrieve env r query k = Ok (r, hits)
    /\ NoDup (map hit_index hits)
    /\ forall j row,
         df !! j = Some row ->
         let s := tfidf_cosine env (map text df) query (text row) in
         (0 < s)%Q -> j ∉ map hit_index hits ->
         length hits = Z.to_nat k /\ Forall (fun h => (s <= similarity h)%Q) hits.
Proof.
  intros Hfit Hk. eexists. split; [by apply retrieve_fitted|].
  rewrite hit_index_ranking. split; [apply ranking_NoDup|].
  intros j row Hrow s Hpos Hout.
  pose proof (similarities_lookup env df query j row Hrow) as Hj. fold s in Hj.
  set (S := sorted_pairs (similarities_of env df query)).
  pose proof (slice_from_drop (- k) S) as Hn.
  destruct (Z.ltb_spec (- k) 0) as [_|]; [|lia].
  set (n := Z.to_nat (Z.of_nat (length S) + - k)) in Hn.
  pose proof (ranking_missing env df query k j s n Hn Hj Hpos Hout) as Hin.
  fold S in Hin.
  assert (Hsorted : StronglySorted lex_lt (take n S ++ drop n S)).
  { rewrite take_drop. apply sorted_pairs_sorted. }
  assert (Hall : Forall (fun p => (s <= snd p)%Q) (drop n S)).
  { apply Forall_forall. intros p Hp.
    destruct (StronglySorted_app_elem _ _ _ _ _ Hsorted Hin Hp) as [H|[H _]]; simpl in H; lra. }
  assert (Hrank : ranking env df query k = rev (drop n S)).
  { unfold ranking. fold S. rewrite Hn.
    apply filter_all, Forall_forall. intros p Hp.
    rewrite elem_of_rev in Hp. rewrite Forall_forall in Hall.
    specialize (Hall p Hp). unfold relevant. apply Qlt_bool_intro. lra. }
  split.
  - rewrite length_map, Hrank, length_rev.
    assert (Hlen : 0 < n /\ 0 < length S).
    { apply list_elem_of_lookup in Hin as [i Hi]. apply lookup_lt_Some in Hi.
      rewrite length_take in Hi. lia. }
    pose proof (length_drop S n). lia.
  - rewrite map_fmap. apply Forall_fmap. rewrite Hrank.
    apply Forall_forall. intros p Hp. rewrite elem_of_rev in Hp.
    rewrite Forall_forall in Hall. simpl. by apply Hall.
Qed.





(** X5.  [retrieve] on a retriever that was never fitted.  Without
    documents it raises [ValueError]; with documents the vectorizer
    rejects it raises [ValueError]; otherwise it fits first, returns what
    the fitted retriever returns, and leaves the retriever fitted. *)
Theorem retrieve_fits_first (env : Env) (r : DocumentRetriever)
    (query : str) (k : Z) :
  fitted r = None ->
  match documents r with
  | Some df =>
      if fit_transform_ok env (map text df)
      then fit env r = Ok (fitted_on df)
           /\ retrieve env r query k = retrieve env (fitted_on df) query k
           /\ exists hits, retrieve env r query k = Ok (fitted_on df, hits)
      else retrieve env r query k = Raise ValueError
  | None => retrieve env r query k = Raise ValueError
  end.
Proof.
  intros Hun. unfold retrieve at 1 3 4 5, is_fitted, fit. rewrite Hun.
  rewrite bool_decide_false by (by intros [? ?]).
  destruct (documents r) as [df|] eqn:Hdocs; [|done].
  destruct (fit_transform_ok env (map text df)) eqn:Hok; [|done].
  rewrite bind_Ok. split; [done|].
  assert (Hfit : fitted_index (fitted_on df) df) by done.
  pose proof (retrieve_fitted env _ df query k Hfit) as Hret.
  unfold retrieve, is_fitted in Hret.
  rewrite bool_decide_true, bind_Ok in Hret by (simpl; eauto).
  split; [|eexists; exact Hret].
  unfold retrieve, is_fitted. rewrite bool_decide_true, bind_Ok by (simpl; eauto). done.
Qed.

Lemma head_sublist {A} k (l : list A) : sublist (head k l) l.
Proof. unfold head. destruct (k <? 0)%Z; apply sublist_take. Qed.

Lemma head_length {A} k (l : list A) : (0 <= k)%Z -> length (head k l) <= Z.to_nat k.
Proof.
  intros Hk. unfold head. destruct (Z.ltb_spec k 0); [lia|].
  rewrite length_take. lia.
Qed.

(** X6.  The outcomes of [retrieve_by_keywords], for any keywords.  The
    keywords, joined by [|], are compiled as one pattern before any
    document is read.  A result is made of the rows of the table that the
    pattern matches, in table order and cut by [head k], so at most [k]
    of them for [k] at least 0; every hit has similarity 1 and carries
    the whole list of keywords that was asked for, whichever of them it
    contains.  The call raises only [ValueError], without documents, or
    the error of a pattern that does not compile, and this one also on a
    table without rows. *)
Theorem retrieve_by_keywords_outcome (env : Env) (r : DocumentRetriever)
    (keywords : list str) (k : Z) :
  match retrieve_by_keywords env r keywords k with
  | Ok hits =>
      exists df regex,
        documents r = Some df
        /\ re_compile env (join (py "|") keywords) = Ok regex
        /\ hits = map (fun row => mkKeywordHit (text row) (source_url row) 1 keywords)
                     (head k (filter (fun row => regex (text row) = true) df))
        /\ sublist (head k (filter (fun row => regex (text row) = true) df)) df
        /\ ((0 <= k)%Z -> length hits <= Z.to_nat k)
  | Raise e =>
      (documents r = None /\ e = ValueError)
      \/ (is_Some (documents r)
          /\ re_compile env (join (py "|") keywords) = Raise e)
  end.
Proof.
  unfold retrieve_by_keywords, str_contains.
  destruct (documents r) as [df|]; [|by left].
  destruct (re_compile env (join (py "|") keywords)) as [regex|e].
  - rewrite !bind_Ok, map_map, masked_rows. exists df, regex.
    split; [done|]. split; [done|]. split; [done|]. split.
    + etrans; [apply head_sublist|apply sublist_filter; apply _].
    + intros Hk. rewrite length_map. by apply head_length.
  - right. split; [by eexists|done].
Qed.

(** *** Answering *)

Lemma setup_loads env sys df :
  read_csv env = Ok df -> fit_transform_ok env (map text df) = true ->
  setup env sys
  = Ok (mkRAG (fitted_on df)
          (is_loaded sys || (model_loads env || fallback_model_loads env))).
Proof.
  intros Hcsv Hok. unfold setup, load_documents. rewrite Hcsv, !bind_Ok.
  unfold fit. simpl documents. cbv beta iota zeta. rewrite Hok, bind_Ok.
  simpl is_loaded. by destruct (is_loaded sys).
Qed.

Lemma setup_no_file env sys e : read_csv env = Raise e -> setup env sys = Raise e.
Proof. intros Hcsv. unfold setup, load_documents. by rewrite Hcsv. Qed.

Lemma setup_no_vocabulary env sys df :
  read_csv env = Ok df -> fit_transform_ok env (map text df) = false ->
  setup env sys = Raise ValueError.
Proof.
  intros Hcsv Hok. unfold setup, load_documents. rewrite Hcsv, !bind_Ok.
  unfold fit. simpl documents. cbv beta iota zeta. by rewrite Hok.
Qed.

Lemma generate_response_not_loaded env sys query use_kg k :
  is_loaded sys = false ->
  generate_response env sys query use_kg k
  = Ok (sys, mkResponse not_loaded_message [] None None).
Proof. intros Hl. unfold generate_response. by rewrite Hl. Qed.

(** X7.  The outcomes of [setup].  It raises what reading the file
    raises, and [ValueError] when the vectorizer rejects the texts;
    otherwise the retriever is fitted on the table that was read, the
    model is loaded when it was before or when the model or its fallback
    loads, and from then on [generate_response] returns normally for
    every query and leaves the system as it is.  A model that fails to
    load does not make [setup] fail: the system then answers every query
    with the fixed message and no sources. *)
Theorem setup_outcome (env : Env) (sys : RAGSystem) :
  match read_csv env with
  | Raise e => setup env sys = Raise e
  | Ok df =>
      if fit_transform_ok env (map text df)
      then exists sys',
             setup env sys = Ok sys'
             /\ retriever sys' = fitted_on df
             /\ is_loaded sys'
                = is_loaded sys || (model_loads env || fallback_model_loads env)
             /\ forall query use_kg k, exists resp,
                  generate_response env sys' query use_kg k = Ok (sys', resp)
                  /\ (is_loaded sys' = false ->
                      resp = mkResponse not_loaded_message [] None None)
      else setup env sys = Raise ValueError
  end.
Proof.
  destruct (read_csv env) as [df|e] eqn:Hcsv; [|by apply setup_no_file].
  destruct (fit_transform_ok env (map text df)) eqn:Hok;
    [|by apply (setup_no_vocabulary env sys df)].
  eexists. split; [by apply setup_loads|]. split; [done|]. split; [done|].
  intros query use_kg k.
  set (sys' := mkRAG (fitted_on df) _).
  assert (Hfit : fitted_index (retriever sys') df) by done.
  destruct (is_loaded sys') eqn:Hl.
  - eexists. split; [by apply (generate_response_loaded env sys' df)|done].
  - eexists. split; [by apply generate_response_not_loaded|done].
Qed.

Lemma limit_length_bound s : length (limit_length s) <= 503.
Proof.
  unfold limit_length. case_bool_decide; [|lia].
  rewrite length_app, length_take. change (length (py "...")) with 3. lia.
Qed.

Lemma clean_response_length s : length (_clean_response s) <= 503.
Proof.
  rewrite clean_response_steps. etrans; [apply strip_length|apply limit_length_bound].
Qed.

Lemma clean_response_stripped s : strip (_clean_response s) = _clean_response s.
Proof. rewrite clean_response_steps. apply strip_idem. Qed.

Lemma apology_bounds : length apology <= 503 /\ strip apology = apology.
Proof. split; [vm_compute; lia|vm_compute; reflexivity]. Qed.

Lemma not_loaded_bounds :
  length not_loaded_message <= 503 /\ strip not_loaded_message = not_loaded_message.
Proof. split; [vm_compute; lia|vm_compute; reflexivity]. Qed.

Lemma generate_with_context_bounds env query context :
  let out := _generate_with_context env query context in
  length out <= 503 /\ strip out = out.
Proof.
  unfold _generate_with_context.
  destruct (generator env (prompt query context)) as [[|[t|] outs]|e];
    try exact apology_bounds.
  rewrite !bind_Ok. unfold try_except.
  split; [apply clean_response_length|apply clean_response_stripped].
Qed.
(** X8.  What [generate_response] returns, whenever it returns.  The
    response text has at most 503 characters and no white space at
    either end, whatever the generator produced; no source is the empty
    string; and the call never changes whether the model is loaded. *)
Theorem response_bounds (env : Env) (sys sys' : RAGSystem) (query : str)
    (use_kg : bool) (k : Z) (resp : Response) :
  generate_response env sys query use_kg k = Ok (sys', resp) ->
  length (response resp) <= 503
  /\ strip (response resp) = response resp
  /\ Forall (fun u => u <> []) (sources resp)
  /\ is_loaded sys' = is_loaded sys.
Proof.
  unfold generate_response. destruct (is_loaded sys) eqn:Hl; simpl negb; cbv iota.
  - destruct (retrieve env (retriever sys) query k) as [[r docs]|e]; [|done].
    rewrite bind_Ok. intros [= <- <-]. simpl response. simpl sources.
    destruct (generate_with_context_bounds env query
                (_prepare_context docs (if use_kg then _get_kg_context env query else [])))
      as [Hlen Hstrip].
    split; [exact Hlen|]. split; [exact Hstrip|]. split; [|done].
    apply Forall_forall. by intros u [Hu _]%list_elem_of_filter.
  - intros [= <- <-]. destruct not_loaded_bounds as [Hlen Hstrip].
    split; [exact Hlen|]. split; [exact Hstrip|]. split; [constructor|done].
Qed.

Lemma join_length_bound (sep : str) (parts : list str) n :
  Forall (fun p => length p <= n) parts ->
  length (join sep parts) <= length parts * n + (length parts - 1) * length sep.
Proof.
  induction 1 as [|p parts Hp Hparts IH]; [done|].
  destruct parts as [|q parts]; [simpl; lia|].
  change (join sep (p :: q :: parts)) with (p ++ sep ++ join sep (q :: parts)).
  rewrite !length_app. simpl length in *. nia.
Qed.

(** X9.  The size of the context and of the prompt.  Whatever the number
    and the sizes of the retrieved documents, the context has at most 660
    characters more than the graph context, and the prompt handed to the
    generator at most 691 more than the query and the graph context
    together. *)
Theorem prompt_bound (docs : list Hit) (kg query : str) :
  length (_prepare_context docs kg) <= length kg + 660
  /\ length (prompt query (_prepare_context docs kg))
     <= length query + length kg + 691.
Proof.
  assert (Hctx : length (_prepare_context docs kg) <= length kg + 660).
  { rewrite prepare_context_unfold.
    assert (Hdocs : length (py "Relevant Information: "
                            ++ join (py " ") (map passage (take 3 docs))) <= 633).
    { rewrite length_app. change (length (py "Relevant Information: ")) with 22.
      pose proof (join_length_bound (py " ") (map passage (take 3 docs)) 203) as Hj.
      rewrite length_map, length_take in Hj. change (length (py " ")) with 1 in Hj.
      assert (Hall : Forall (fun p => length p <= 203) (map passage (take 3 docs))).
      { rewrite map_fmap. apply Forall_fmap, Forall_forall. intros doc _. simpl.
        unfold passage. rewrite length_app, length_take.
        change (length (py "...")) with 3. lia. }
      specialize (Hj Hall). nia. }
    assert (Hkg : length (py "Knowledge Graph Context: " ++ kg) = 25 + length kg).
    { by rewrite length_app. }
    remember (py "Relevant Information: "
              ++ join (py " ") (map passage (take 3 docs))) as seg eqn:Hseg in *.
    remember (py "Knowledge Graph Context: " ++ kg) as facts eqn:Hfacts in *.
    clear Hseg Hfacts.
    destruct kg as [|c kg], docs as [|d docs]; simpl app; simpl join.
    - simpl. lia.
    - simpl length at 2. lia.
    - lia.
    - rewrite !length_app. simpl in *. lia. }
  split; [exact Hctx|].
  unfold prompt. rewrite !length_app.
  change (length (py "Context: ")) with 9.
  change (length (py "Question: ")) with 10.
  change (length (py "Answer: ")) with 8.
  change (length line_feed) with 1. lia.
Qed.

Lemma joined_names_named names :
  joined_names (map Some names) = Ok (join (py ", ") names).
Proof.
  unfold joined_names. rewrite map_fmap, mapM_fmap_Some by done. reflexivity.
Qed.

Lemma joined_names_unnamed rows : None ∈ rows -> joined_names rows = Raise KeyError.
Proof.
  intros Hin. unfold joined_names. rewrite (mapM_None_2 id rows); [reflexivity|].
  apply Exists_exists. by exists None.
Qed.

(** X10.  The cases of [_get_kg_context].  A query that mentions neither
    "standard" nor "organization" gets the empty context, whatever the
    graph holds.  A row without a name among the standards silences the
    whole context: the raised exception is swallowed and the empty string
    returned, and the organizations are not asked for.  Named standards
    are listed behind "Related MAT Standards: "; the organizations are
    listed only when the query is not about standards or the graph has
    none. *)
Theorem kg_context_cases (env : Env) (query : str) :
  let about_standards := contains (py "standard") (lower query) in
  let about_organizations := contains (py "organization") (lower query) in
  (about_standards = false -> about_organizations = false ->
   _get_kg_context env query = [])
  /\ (about_standards = true -> None ∈ query_graph env standards_query ->
      _get_kg_context env query = [])
  /\ (forall names,
        about_standards = true -> names <> [] ->
        query_graph env standards_query = map Some names ->
        _get_kg_context env query = py "Related MAT Standards: " ++ join (py ", ") names)
  /\ (forall names,
        (about_standards = false \/ query_graph env standards_query = []) ->
        about_organizations = true -> names <> [] ->
        query_graph env organizations_query = map Some names ->
        _get_kg_context env query = py "Related Organizations: " ++ join (py ", ") names).
Proof.
  intros about_standards about_organizations.
  unfold _get_kg_context. fold standards_query organizations_query.
  fold about_standards about_organizations.
  split; [|split; [|split]].
  - intros -> ->. reflexivity.
  - intros -> Hin. destruct (query_graph env standards_query) as [|row rows] eqn:Hrows.
    + by apply elem_of_nil in Hin.
    + by rewrite (joined_names_unnamed _ Hin).
  - intros names -> Hne ->. destruct names as [|n names]; [done|].
    change (map Some (n :: names)) with (Some n :: map Some names) at 1.
    cbv iota. change (Some n :: map Some names) with (map Some (n :: names)).
    by rewrite joined_names_named.
  - intros names Hstd -> Hne Horg.
    destruct names as [|n names]; [done|].
    destruct about_standards.
    + destruct Hstd as [|Hstd]; [done|]. rewrite Hstd, bind_Ok, Horg.
      change (map Some (n :: names)) with (Some n :: map Some names) at 1.
      cbv iota. change (Some n :: map Some names) with (map Some (n :: names)).
      by rewrite joined_names_named.
    + rewrite bind_Ok, Horg.
      change (map Some (n :: names)) with (Some n :: map Some names) at 1.
      cbv iota. change (Some n :: map Some names) with (map Some (n :: names)).
      by rewrite joined_names_named.
Qed.

(** *** Evaluation *)

Lemma is_space_lower c : is_space (lower_char c) = is_space c.
Proof. destruct c as [[] [] [] [] [] [] [] []]; reflexivity. Qed.

Lemma lower_char_idem c : lower_char (lower_char c) = lower_char c.
Proof. destruct c as [[] [] [] [] [] [] [] []]; reflexivity. Qed.

Lemma lower_idem s : lower (lower s) = lower s.
Proof.
  unfold lower. rewrite map_map. apply map_ext. intros c. apply lower_char_idem.
Qed.

Lemma split_ws_go_lower cur s :
  split_ws_go (lower cur) (lower s) = map lower (split_ws_go cur s).
Proof.
  revert cur. induction s as [|c s IH]; intros cur; simpl.
  - destruct cur; [done|]. simpl. unfold lower. by rewrite <- !map_rev, map_app.
  - rewrite is_space_lower. destruct (is_space c).
    + destruct cur; simpl; [apply (IH [])|].
      rewrite <- (IH []). unfold lower. by rewrite <- !map_rev, map_app.
    + apply (IH (c :: cur)).
Qed.

Lemma split_ws_lower s : split_ws (lower s) = map lower (split_ws s).
Proof. apply (split_ws_go_lower [] s). Qed.

Lemma remove_dups_nil {A} `{EqDecision A} (l : list A) : remove_dups l = [] -> l = [].
Proof.
  intros H. destruct l as [|x l]; [done|].
  assert (Hx : x ∈ remove_dups (x :: l)) by (apply elem_of_remove_dups, elem_of_cons; by left).
  rewrite H in Hx. by apply elem_of_nil in Hx.
Qed.

Lemma ratio_nonneg (a b : nat) :
  (0 <= inject_Z (Z.of_nat a) / inject_Z (Z.of_nat (Nat.max b 1)))%Q.
Proof.
  apply Qle_shift_div_l.
  - change 0%Q with (inject_Z 0). rewrite <- Zlt_Qlt. lia.
  - rewrite Qmult_0_l. change 0%Q with (inject_Z 0). rewrite <- Zle_Qle. lia.
Qed.

Lemma ratio_le_1 (a b : nat) :
  a <= b -> (inject_Z (Z.of_nat a) / inject_Z (Z.of_nat (Nat.max b 1)) <= 1)%Q.
Proof.
  intros Hab. apply Qle_shift_div_r.
  - change 0%Q with (inject_Z 0). rewrite <- Zlt_Qlt. lia.
  - rewrite Qmult_1_l. rewrite <- Zle_Qle. lia.
Qed.

Lemma ratio_same (a : nat) :
  a <> 0 -> (inject_Z (Z.of_nat a) / inject_Z (Z.of_nat (Nat.max a 1)) == 1)%Q.
Proof.
  intros Ha. replace (Nat.max a 1) with a by lia.
  apply Qmult_inv_r. change 0%Q with (inject_Z 0). rewrite inject_Z_injective. lia.
Qed.

Lemma ratio_zero (b : nat) :
  (inject_Z (Z.of_nat 0) / inject_Z (Z.of_nat (Nat.max b 1)) == 0)%Q.
Proof. unfold Qdiv. simpl. apply Qmult_0_l. Qed.

(** X11.  The two ratios [evaluate_response] computes itself.  The
    keyword overlap lies between 0 and 1 and the length ratio is not
    negative; no division by zero happens for an empty reference.  A
    generated text without words scores 0 on both; a reference with at
    least one word scored against itself gives 1 on both.  The keyword
    overlap depends neither on the case of the two texts nor on the
    scorers. *)
Theorem evaluate_response_ratios (env : Env) (reference generated : str) :
  let m := evaluate_response env reference generated in
  (0 <= m_keyword_overlap m)%Q /\ (m_keyword_overlap m <= 1)%Q
  /\ (0 <= m_length_ratio m)%Q
  /\ (split_ws generated = [] -> m_length_ratio m == 0 /\ m_keyword_overlap m == 0)
  /\ (split_ws reference <> [] ->
      let same := evaluate_response env reference reference in
      m_length_ratio same == 1 /\ m_keyword_overlap same == 1)
  /\ (forall env',
        m_keyword_overlap (evaluate_response env' (lower reference) (lower generated))
        = m_keyword_overlap m).
Proof.
  unfold evaluate_response. simpl.
  split; [apply ratio_nonneg|]. split.
  { apply ratio_le_1. apply sublist_length, sublist_filter; apply _. }
  split; [apply ratio_nonneg|]. split; [|split].
  - intros Hgen. rewrite Hgen. split; [apply ratio_zero|].
    rewrite split_ws_lower, Hgen. simpl.
    rewrite filter_none; [apply ratio_zero|].
    apply Forall_forall. intros w _ Hw. by apply elem_of_nil in Hw.
  - intros Href. split; [by apply ratio_same; destruct (split_ws reference)|].
    set (W := remove_dups (split_ws (lower reference))).
    rewrite filter_all by (by apply Forall_forall).
    apply ratio_same. intros HW%length_zero_iff_nil%remove_dups_nil.
    rewrite split_ws_lower in HW. by destruct (split_ws reference).
  - intros env'. by rewrite !lower_idem.
Qed.

Lemma lookup_min results m :
  let values := map (get m) results in
  aggregate_of results !! min_key m = Some (py_min (List.hd 0%Q values) (List.tl values)).
Proof.
  destruct (global_writes_intro results m) as (_ & Hmin & _).
  apply lookup_global; [done| |].
  - intros v' (m' & [H|[H|H]])%global_writes_elem; injection H as HK ->.
    + by destruct (mean_key_min m' m).
    + by apply min_key_inj in HK as <-.
    + by destruct (min_key_max _ _ HK).
  - intros c m' H. by destruct (category_key_min c m' m).
Qed.

Lemma lookup_max results m :
  let values := map (get m) results in
  aggregate_of results !! max_key m = Some (py_max (List.hd 0%Q values) (List.tl values)).
Proof.
  destruct (global_writes_intro results m) as (_ & _ & Hmax).
  apply lookup_global; [done| |].
  - intros v' (m' & [H|[H|H]])%global_writes_elem; injection H as HK ->.
    + by destruct (mean_key_max m' m).
    + by destruct (min_key_max m' m).
    + by apply max_key_inj in HK as <-.
  - intros c m' H. by destruct (category_key_max c m' m).
Qed.

(** X12.  In the aggregate of a non-empty list of records, for each
    aggregated metric the values under [{metric}_min] and [{metric}_max]
    are values of the metric in the records, and the value of every
    record lies between them.  The two are found by comparing the
    recorded values. *)
Theorem aggregate_extremes (results : list Metrics) :
  results <> [] ->
  exists agg,
    _calculate_aggregate_metrics results = Ok agg
    /\ forall m, exists lo hi,
         agg !! min_key m = Some lo
         /\ agg !! max_key m = Some hi
         /\ lo ∈ map (get m) results
         /\ hi ∈ map (get m) results
         /\ Forall (fun r => (lo <= get m r)%Q /\ (get m r <= hi)%Q) results.
Proof.
  intros Hne. exists (aggregate_of results). split; [by apply aggregate_as_writes|].
  intros m. eexists _, _.
  split; [apply lookup_min|]. split; [apply lookup_max|].
  destruct results as [|r results]; [done|]. simpl map. simpl List.hd. simpl List.tl.
  destruct (py_min_spec (get m r) (map (get m) results)) as [Hlo_in Hlo].
  destruct (py_max_spec (get m r) (map (get m) results)) as [Hhi_in Hhi].
  split; [exact Hlo_in|]. split; [exact Hhi_in|].
  change (get m r :: map (get m) results) with (map (get m) (r :: results)) in Hlo, Hhi.
  rewrite Forall_forall in Hlo, Hhi. apply Forall_forall. intros r' Hr'.
  assert (Hin : get m r' ∈ map (get m) (r :: results))
    by (rewrite map_fmap; by apply list_elem_of_fmap_2).
  split; [by apply Hlo|by apply Hhi].
Qed.

Lemma size_writes (ws : list (str * Q)) (agg : gmap str Q) :
  NoDup (map fst ws) -> Forall (fun kv => agg !! fst kv = None) ws ->
  size (foldl write agg ws) = size agg + length ws.
Proof.
  revert agg. induction ws as [|[k v] ws IH]; intros agg Hnd Hnew; simpl; [lia|].
  apply NoDup_cons in Hnd as [Hk Hnd]. apply Forall_cons in Hnew as [Hkn Hnew].
  rewrite IH; [|done|].
  - unfold write. simpl. rewrite map_size_insert_None by done. lia.
  - apply Forall_forall. intros [k' v'] Hin. unfold write. simpl.
    rewrite lookup_insert_ne.
    + rewrite Forall_forall in Hnew. by apply (Hnew (k', v')).
    + intros ->. apply Hk. apply (list_elem_of_fmap_2 fst ws (k', v')). done.
Qed.

Lemma global_keys_fst results : map fst (global_writes results) = global_keys.
Proof. reflexivity. Qed.

Lemma global_keys_NoDup : NoDup global_keys.
Proof. apply (bool_decide_unpack _). vm_compute. reflexivity. Qed.

Lemma global_keys_elem K :
  K ∈ global_keys -> exists m, K = mean_key m \/ K = min_key m \/ K = max_key m.
Proof.
  unfold global_keys. rewrite list_elem_of_In, in_flat_map. intros (m & _ & Hin).
  exists m. simpl in Hin. intuition.
Qed.

Lemma category_writes_cons c cats results :
  category_writes (c :: cats) results
  = map (fun m => (category_key c m, mean_of (map (get m) (in_category c results))))
        metrics
    ++ category_writes cats results.
Proof. reflexivity. Qed.

Lemma category_keys_NoDup cats results :
  NoDup cats -> NoDup (map fst (category_writes cats results)).
Proof.
  induction 1 as [|c cats Hc Hcats IH]; [constructor|].
  rewrite category_writes_cons, map_app. apply NoDup_app.
  split; [|split; [|exact IH]].
  - rewrite map_map. simpl fst. rewrite map_fmap. apply NoDup_fmap_2_strong.
    + intros m m' _ _ H. by apply category_key_inj in H as [_ ?].
    + unfold metrics.
      repeat (apply NoDup_cons; split;
              [rewrite ?elem_of_cons, elem_of_nil; intuition discriminate|]).
      apply NoDup_nil_2.
  - intros K HK1 HK2. rewrite map_fmap in HK1, HK2.
    apply list_elem_of_fmap in HK1 as ([k v] & -> & Hin1).
    apply list_elem_of_fmap in HK2 as ([k' v'] & Heq & Hin2). simpl in Heq. subst k'.
    rewrite map_fmap in Hin1. apply list_elem_of_fmap in Hin1 as (m & [= -> ->] & _).
    apply category_writes_elem in Hin2 as (c' & m' & Hc' & H & _).
    apply category_key_inj in H as [-> _]. done.
Qed.

Lemma category_writes_length cats results :
  length (category_writes cats results) = 5 * length cats.
Proof.
  induction cats as [|c cats IH]; [done|].
  rewrite category_writes_cons, length_app, IH, length_map.
  change (length metrics) with 5. simpl length. lia.
Qed.

(** X13.  No two keys of the aggregate collide.  For a non-empty list of
    records the aggregate has exactly 15 keys for the means, minima and
    maxima and 5 keys for every category of the records, whatever the
    names of the categories. *)
Theorem aggregate_size (results : list Metrics) :
  results <> [] ->
  exists agg,
    _calculate_aggregate_metrics results = Ok agg
    /\ size agg = 15 + 5 * length (remove_dups (map category results)).
Proof.
  intros Hne. eexists. split; [by apply aggregate_as_writes|].
  rewrite size_writes.
  - rewrite map_size_empty, length_app, category_writes_length. reflexivity.
  - rewrite map_app, global_keys_fst. apply NoDup_app.
    split; [apply global_keys_NoDup|]. split.
    + intros K HK1 HK2. apply global_keys_elem in HK1 as (m & HK).
      rewrite map_fmap in HK2. apply list_elem_of_fmap in HK2 as ([k v] & Heq & Hin).
      simpl in Heq. subst k.
      apply category_writes_elem in Hin as (c & m' & _ & -> & _).
      destruct HK as [H|[H|H]].
      * by destruct (category_key_mean c m' m).
      * by destruct (category_key_min c m' m).
      * by destruct (category_key_max c m' m).
    + apply category_keys_NoDup, NoDup_remove_dups.
  - apply Forall_forall. intros kv _. apply lookup_empty.
Qed.

Lemma evaluate_cases_not_loaded env sys tcs :
  is_loaded sys = false ->
  forall acc t, exists ms t',
    for_each tcs (evaluate_case env) (sys, acc, t) = Ok (sys, acc ++ ms, t')
    /\ map question ms = map tc_question tcs
    /\ Forall unanswered ms.
Proof.
  intros Hl. induction tcs as [|tc tcs IH]; intros acc t.
  - exists [], t. simpl. rewrite app_nil_r. split; [done|]. split; [done|constructor].
  - rewrite for_each_cons. unfold evaluate_case at 2.
    rewrite (generate_response_not_loaded env sys _ true 3 Hl), bind_Ok.
    match goal with
    | |- exists _ _, (Ok (_, _ ++ [?m], ?t1) ≫= _) = _ /\ _ =>
        destruct (IH (acc ++ [m]) t1) as (ms & t' & Hrun & Hq & Hun);
        exists (m :: ms), t'
    end.
    rewrite bind_Ok, Hrun, <- app_assoc. split; [done|].
    split; [simpl; by rewrite Hq|]. constructor; [done|exact Hun].
Qed.

Lemma evaluate_cases_questions env sys tcs ms :
  Forall2 (recorded env sys) tcs ms -> map question ms = map tc_question tcs.
Proof.
  induction 1 as [|tc m tcs ms (Hq & _) _ IH]; [done|]. simpl. by rewrite Hq, IH.
Qed.

Lemma run_evaluation_after_setup env sys sys' tcs :
  is_loaded sys = false -> setup env sys = Ok sys' -> is_loaded sys' = true ->
  run_evaluation env sys (Some tcs) = run_evaluation env sys' (Some tcs).
Proof.
  intros Hl Hsetup Hl'. unfold run_evaluation. rewrite Hl, Hsetup, Hl'. reflexivity.
Qed.

(** X14.  [run_evaluation] on a system that is not loaded, for a
    non-empty list of test cases.  The system is set up first, and what
    the set-up raises ends the run before any case is answered.  After a
    successful set-up there is one record per case, in order; when a
    model loaded the records are those of the loaded system, and when
    none loaded the run still returns a report, in which every generated
    text is the fixed message, with no sources and no context. *)
Theorem run_evaluation_sets_up (env : Env) (sys : RAGSystem) (tcs : list TestCase) :
  is_loaded sys = false -> tcs <> [] ->
  match read_csv env with
  | Raise e => run_evaluation env sys (Some tcs) = Raise e
  | Ok df =>
      if fit_transform_ok env (map text df)
      then
        let sys' :=
          mkRAG (fitted_on df) (model_loads env || fallback_model_loads env) in
        exists report,
          run_evaluation env sys (Some tcs) = Ok (sys', report)
          /\ map question (individual_results report) = map tc_question tcs
          /\ (is_loaded sys' = true ->
              Forall2 (recorded env sys') tcs (individual_results report))
          /\ (is_loaded sys' = false ->
              Forall unanswered (individual_results report))
      else run_evaluation env sys (Some tcs) = Raise ValueError
  end.
Proof.
  intros Hl Hne.
  destruct (read_csv env) as [df|e] eqn:Hcsv.
  2:{ unfold run_evaluation. by rewrite Hl, (setup_no_file env sys e Hcsv). }
  destruct (fit_transform_ok env (map text df)) eqn:Hok.
  2:{ unfold run_evaluation. by rewrite Hl, (setup_no_vocabulary env sys df Hcsv Hok). }
  pose proof (setup_loads env sys df Hcsv Hok) as Hsetup. rewrite Hl in Hsetup.
  simpl orb in Hsetup. intros sys'. fold sys' in Hsetup.
  destruct (is_loaded sys') eqn:Hl'.
  - rewrite (run_evaluation_after_setup env sys sys' tcs Hl Hsetup Hl').
    destruct (run_evaluation_loaded env sys' df tcs Hl') as (report & Hrun & _ & Hrec);
      [done|done|].
    exists report. split; [done|]. split; [by eapply evaluate_cases_questions|].
    split; [done|]. intros [=].
  - unfold run_evaluation. simpl default. rewrite Hl, Hsetup, bind_Ok.
    destruct (evaluate_cases_not_loaded env sys' tcs Hl' [] 0%Q)
      as (ms & t' & Hrun & Hq & Hun).
    rewrite Hrun, bind_Ok. simpl app. cbv beta iota.
    assert (Hms : ms <> []).
    { intros ->. by destruct tcs. }
    destruct (aggregate_ok ms Hms) as (agg & ->).
    rewrite bind_Ok, div_len_ok, bind_Ok by (by destruct tcs).
    eexists. split; [reflexivity|]. simpl individual_results.
    split; [done|]. split; [intros [=]|done].
Qed.

(** *** Chat *)

Lemma last_ten_app {A} (l qs : list A) : last_ten (last_ten l ++ qs) = last_ten (l ++ qs).
Proof.
  unfold last_ten. rewrite length_app, length_drop.
  rewrite <- (drop_app_le l qs (length l - 10)) by lia.
  rewrite drop_drop, length_app. f_equal. lia.
Qed.

Lemma last_ten_length {A} (l : list A) : length (last_ten l) <= 10.
Proof. unfold last_ten. rewrite length_drop. lia. Qed.

Lemma last_ten_short {A} (l : list A) : length l <= 10 -> last_ten l = l.
Proof. intros H. unfold last_ten. by replace (length l - 10) with 0 by lia. Qed.

Lemma generate_response_fitted env sys df query use_kg k :
  fitted_index (retriever sys) df ->
  exists resp, generate_response env sys query use_kg k = Ok (sys, resp).
Proof.
  intros Hfit. destruct (is_loaded sys) eqn:Hl.
  - eexists. by apply (generate_response_loaded env sys df).
  - eexists. by apply generate_response_not_loaded.
Qed.

Lemma generate_response_no_documents env sys query use_kg k :
  is_loaded sys = true -> retriever sys = mkRetriever None None ->
  generate_response env sys query use_kg k = Raise ValueError.
Proof. intros Hl Hr. unfold generate_response. rewrite Hl, Hr. reflexivity. Qed.

Lemma process_query_blank env books bot query :
  strip query = [] -> fst (process_query env books bot query) = bot.
Proof. intros H. unfold process_query. by rewrite bool_decide_true. Qed.

Lemma process_query_answered env books bot query sys result :
  strip query <> [] ->
  generate_response env (rag_system bot) query true 3 = Ok (sys, result) ->
  fst (process_query env books bot query)
  = mkChatbot sys
      (last_ten (chat_history bot ++ [mkExchange query (response result) (sources result)])).
Proof.
  intros Hq Hgen. unfold process_query. rewrite bool_decide_false by done.
  rewrite Hgen. simpl fst. f_equal.
  set (h := chat_history bot ++ _). case_bool_decide as Hlen.
  - unfold slice_from, last_ten. simpl Z.ltb. cbv iota. f_equal. lia.
  - symmetry. apply last_ten_short. lia.
Qed.

Lemma process_query_failed env books bot query e :
  strip query <> [] ->
  generate_response env (rag_system bot) query true 3 = Raise e ->
  fst (process_query env books bot query)
  = mkChatbot (rag_system bot) (chat_history bot ++ [failed query]).
Proof.
  intros Hq Hgen. unfold process_query. rewrite bool_decide_false by done.
  by rewrite Hgen.
Qed.

Lemma session_answered env books df sys queries : 
  fitted_index (retriever sys) df ->
  forall history,
    session env books (mkChatbot sys history) queries
    = mkChatbot sys
        (foldl (fun h e => last_ten (h ++ [e])) history
               (map (answered env sys) (spoken queries))).
Proof.
  intros Hfit. unfold session, spoken.
  induction queries as [|query queries IH]; intros history; [done|].
  simpl foldl. destruct (decide (strip query = [])) as [Hq|Hq].
  - rewrite process_query_blank by done. rewrite filter_cons_False by (by intros ?).
    apply IH.
  - destruct (generate_response_fitted env sys df query true 3 Hfit) as [resp Hgen].
    rewrite (process_query_answered env books (mkChatbot sys history) query sys resp Hq Hgen).
    assert (Ha : answered env sys query
                 = mkExchange query (response resp) (sources resp)).
    { unfold answered. by rewrite Hgen. }
    rewrite filter_cons_True by done. simpl chat_history. rewrite IH.
    simpl map. simpl foldl. by rewrite Ha.
Qed.

Lemma foldl_last_ten {A} (h es : list A) :
  length h <= 10 -> foldl (fun h e => last_ten (h ++ [e])) h es = last_ten (h ++ es).
Proof.
  revert h. induction es as [|e es IH]; intros h Hh; simpl.
  - rewrite app_nil_r. symmetry. by apply last_ten_short.
  - rewrite IH by apply last_ten_length.
    rewrite last_ten_app, <- app_assoc. done.
Qed.

(** X15.  The chat history is a window of ten.  On a system whose
    retriever is fitted, starting with at most ten exchanges, after any
    list of queries the history holds the last ten of the earlier
    exchanges followed by one exchange for each query that is not blank,
    in order; blank queries leave no trace, and the system is as it
    was. *)
Theorem chat_history_window (env : Env) (books : str) (bot : MATChatbot)
    (df : DataFrame) (queries : list str) :
  fitted_index (retriever (rag_system bot)) df ->
  length (chat_history bot) <= 10 ->
  let bot' := session env books bot queries in
  rag_system bot' = rag_system bot
  /\ chat_history bot'
     = last_ten (chat_history bot
                 ++ map (answered env (rag_system bot)) (spoken queries))
  /\ length (chat_history bot') <= 10.
Proof.
  intros Hfit Hlen. destruct bot as [sys history]. simpl in *.
  rewrite (session_answered env books df) by done. simpl.
  rewrite foldl_last_ten by done.
  split; [done|]. split; [done|apply last_ten_length].
Qed.

(** X16.  The error path of [process_query] does not trim the history.
    When answering raises for every query (so without documents), every
    query that is not blank adds one exchange with the fixed error text
    and no sources, and nothing is dropped: the history grows beyond ten
    entries. *)
Theorem chat_history_grows (env : Env) (books : str) (bot : MATChatbot)
    (queries : list str) :
  (forall query, exists e,
     generate_response env (rag_system bot) query true 3 = Raise e) ->
  let bot' := session env books bot queries in
  rag_system bot' = rag_system bot
  /\ chat_history bot' = chat_history bot ++ map failed (spoken queries)
  /\ length (chat_history bot')
     = length (chat_history bot) + length (spoken queries).
Proof.
  intros Hraise. destruct bot as [sys history]. simpl in *.
  assert (H : session env books (mkChatbot sys history) queries
              = mkChatbot sys (history ++ map failed (spoken queries))).
  { unfold session, spoken. revert history.
    induction queries as [|query queries IH]; intros history.
    - simpl. by rewrite app_nil_r.
    - simpl foldl. destruct (decide (strip query = [])) as [Hq|Hq].
      + rewrite process_query_blank by done. rewrite filter_cons_False by (by intros ?).
        apply IH.
      + destruct (Hraise query) as [e Hgen].
        rewrite (process_query_failed env books (mkChatbot sys history) query e Hq Hgen).
        rewrite filter_cons_True by done. simpl chat_history. simpl rag_system.
        rewrite IH. simpl map. by rewrite <- app_assoc. }
  rewrite H. simpl. split; [done|]. split; [done|].
  by rewrite length_app, length_map.
Qed.

Lemma join_Forall (P : ascii -> Prop) (sep : str) (parts : list str) :
  Forall P sep -> Forall (Forall P) parts -> Forall P (join sep parts).
Proof.
  intros Hsep. induction 1 as [|p parts Hp Hparts IH]; [constructor|].
  destruct parts as [|q parts]; [done|].
  change (join sep (p :: q :: parts)) with (p ++ sep ++ join sep (q :: parts)).
  rewrite !Forall_app. by repeat split.
Qed.

Lemma one_line_literal (s : str) :
  forallb (fun c => negb (Ascii.eqb c "010")) s = true -> one_line s.
Proof.
  intros H. apply Forall_forall. intros c Hc ->.
  rewrite forallb_forall in H. apply list_elem_of_In in Hc. by apply H in Hc.
Qed.

(** X17.  [_format_chat_history] never breaks a line.  The pieces are
    joined by a backslash and the letter n: when neither the marker of the
    sources nor any query, response or source has a line feed, the
    formatted history has none. *)
Theorem format_chat_history_one_line (books : str) (bot : MATChatbot) :
  one_line books ->
  Forall (fun exchange =>
            one_line (ex_query exchange) /\ one_line (ex_response exchange)
            /\ Forall one_line (ex_sources exchange)) (chat_history bot) ->
  one_line (_format_chat_history books bot).
Proof.
  intros Hbooks Hall. unfold _format_chat_history.
  destruct (chat_history bot) as [|e history] eqn:Hh; [by apply one_line_literal|].
  apply join_Forall; [by apply one_line_literal|].
  apply Forall_forall. intros line Hline.
  apply list_elem_of_In, in_flat_map in Hline as (exchange & Hex & Hline).
  apply list_elem_of_In in Hex, Hline.
  rewrite Forall_forall in Hall. destruct (Hall exchange Hex) as (Hq & Hr & Hs).
  unfold format_exchange in Hline.
  apply elem_of_app in Hline as [Hline|Hline].
  - apply elem_of_cons in Hline as [->|Hline].
    { apply Forall_app. split; [by apply one_line_literal|done]. }
    apply list_elem_of_singleton in Hline as ->.
    apply Forall_app. split; [by apply one_line_literal|done].
  - apply elem_of_app in Hline as [Hline|Hline].
    + destruct (ex_sources exchange) as [|s ss] eqn:Hsrc; [by apply elem_of_nil in Hline|].
      apply list_elem_of_singleton in Hline as ->.
      rewrite !Forall_app. split; [by apply one_line_literal|].
      split; [|by apply one_line_literal].
      split; [done|]. split; [by apply one_line_literal|].
      apply join_Forall; [by apply one_line_literal|].
      apply Forall_forall. intros u Hu. rewrite Forall_forall in Hs. apply Hs.
      eapply elem_of_sublist; [exact Hu|apply sublist_take].
    + apply list_elem_of_singleton in Hline as ->. constructor.
Qed.

(** *** Scraped and cleaned data *)

Lemma sub_backslash_s_cons in_run c t :
  sub_backslash_s in_run (c :: t)
  = if in_run && Ascii.eqb c "s" then sub_backslash_s true t
    else if Ascii.eqb c "\" && starts_with ["s"%char] t
         then " "%char :: sub_backslash_s true t
         else c :: sub_backslash_s false t.
Proof. reflexivity. Qed.

Lemma sub_backslash_s_length in_run t : length (sub_backslash_s in_run t) <= length t.
Proof.
  revert in_run. induction t as [|c t IH]; intros in_run; [done|].
  rewrite sub_backslash_s_cons.
  destruct (in_run && Ascii.eqb c "s").
  - specialize (IH true). simpl. lia.
  - destruct (Ascii.eqb c "\" && starts_with ["s"%char] t).
    + specialize (IH true). simpl. lia.
    + specialize (IH false). simpl. lia.
Qed.

Lemma kept_not_space c : in_kept_class c = true -> is_space c = false.
Proof. destruct c as [[] [] [] [] [] [] [] []]; intros H; try discriminate H; reflexivity. Qed.

Lemma kept_lower c : in_kept_class c = true -> lower_char c = c.
Proof. destruct c as [[] [] [] [] [] [] [] []]; intros H; try discriminate H; reflexivity. Qed.

Lemma clean_text_kept t : over_kept_class (_clean_text t).
Proof.
  unfold _clean_text. apply strip_Forall, Forall_forall.
  by intros c [Hc _]%list_elem_of_filter.
Qed.

Lemma lstrip_no_space s : Forall (fun c => is_space c = false) s -> lstrip s = s.
Proof. intros H. destruct H as [|c s Hc Hs]; [done|]. simpl. by rewrite Hc. Qed.

Lemma strip_no_space s : Forall (fun c => is_space c = false) s -> strip s = s.
Proof.
  intros H. unfold strip, rstrip. rewrite (lstrip_no_space s H).
  rewrite lstrip_no_space; [apply rev_involutive|].
  apply Forall_forall. intros c Hc. rewrite elem_of_rev in Hc.
  rewrite Forall_forall in H. by apply H.
Qed.

(** X18.  What [_clean_text] leaves.  The result has only the characters
    backslash, w, s and [. , ; : ! ? ( ) -]: every other letter, every
    digit and every white space is removed, so that the final [strip] has
    nothing to do, and the result is never longer than the text. *)
Theorem clean_text_alphabet (t : str) :
  over_kept_class (_clean_text t)
  /\ Forall (fun c => is_space c = false) (_clean_text t)
  /\ _clean_text t = filter (fun c => in_kept_class c = true) (sub_backslash_s false t)
  /\ length (_clean_text t) <= length t.
Proof.
  unfold _clean_text.
  set (u := filter (fun c => in_kept_class c = true) (sub_backslash_s false t)).
  assert (Hkept : over_kept_class u).
  { apply Forall_forall. by intros c [Hc _]%list_elem_of_filter. }
  assert (Hspace : Forall (fun c => is_space c = false) u).
  { eapply Forall_impl; [exact Hkept|]. apply kept_not_space. }
  rewrite (strip_no_space u Hspace).
  split; [done|]. split; [done|]. split; [done|].
  etrans; [apply sublist_length, sublist_filter; apply _|apply sub_backslash_s_length].
Qed.

Lemma imap_elem {A B} (f : nat -> A -> B) (l : list A) (y : B) :
  y ∈ imap f l -> exists i x, l !! i = Some x /\ y = f i x.
Proof.
  intros [i Hi]%list_elem_of_lookup. rewrite list_lookup_imap in Hi.
  destruct (l !! i) as [x|] eqn:Hx; [|done]. exists i, x. split; [done|].
  simpl in Hi. by injection Hi.
Qed.

(** X19.  The rows [clean_data] returns.  There are no more of them than
    rows given; each has a text of at least 20 characters, all of them
    characters [_clean_text] keeps, and is made of a given row with a
    non-empty text: its text is the cleaned text of that row, and its
    source URL and its length column are those of that row.  The length
    column is thus the length of the raw text, not of the text
    returned. *)
Theorem clean_data_rows (df : DataFrame) :
  length (clean_data df) <= length df
  /\ Forall (fun row' =>
       20 <= length (text row')
       /\ over_kept_class (text row')
       /\ exists row,
            row ∈ df /\ text row <> []
            /\ text row' = _clean_text (text row)
            /\ source_url row' = source_url row
            /\ length_col row' = length_col row) (clean_data df).
Proof.
  unfold clean_data.
  set (df1 := filter (fun r => 0 < length (text r)) df).
  set (df2 := drop_duplicates df1).
  set (df3 := map _ df2).
  set (df4 := filter (fun r => 20 <= length (text r)) df3).
  destruct (drop_duplicates_spec df1) as (_ & Hsub & _).
  split.
  - rewrite reset_index_length.
    etrans; [apply sublist_length, sublist_filter; apply _|].
    unfold df3. rewrite length_map.
    etrans; [apply sublist_length, Hsub|].
    apply sublist_length, sublist_filter; apply _.
  - apply Forall_forall. intros row' (i & r4 & Hi & ->)%imap_elem. simpl.
    apply list_elem_of_lookup_2 in Hi. apply list_elem_of_filter in Hi as [Hlen H3].
    unfold df3 in H3. rewrite map_fmap in H3.
    apply list_elem_of_fmap in H3 as (r2 & -> & H2). simpl in *.
    split; [done|]. split; [apply clean_text_kept|].
    exists r2. eapply elem_of_sublist in H2; [|exact Hsub].
    apply list_elem_of_filter in H2 as [Hne H2].
    split; [done|]. split; [|done]. destruct (text r2); [simpl in Hne; lia|done].
Qed.

Lemma split_ws_go_length cur s :
  length (split_ws_go cur s) <= length s + (if cur is [] then 0 else 1).
Proof.
  revert cur. induction s as [|c s IH]; intros cur.
  - simpl. destruct cur; simpl; lia.
  - simpl split_ws_go. destruct (is_space c).
    + specialize (IH []). destruct cur; simpl in *; lia.
    + specialize (IH (c :: cur)). destruct cur; simpl in *; lia.
Qed.

Lemma split_ws_length s : length (split_ws s) <= length s.
Proof. pose proof (split_ws_go_length [] s). unfold split_ws. simpl in *. lia. Qed.

Lemma remove_dups_length {A} `{EqDecision A} (l : list A) :
  length (remove_dups l) <= length l.
Proof.
  induction l as [|x l IH]; [done|]. simpl.
  destruct (decide_rel elem_of x l); simpl; lia.
Qed.

Lemma sum_list_bounds (values : list nat) (lo hi : nat) :
  Forall (fun x => lo <= x <= hi) values ->
  length values * lo <= sum_list values <= length values * hi.
Proof.
  induction 1 as [|x values Hx Hall IH]; simpl; [lia|]. nia.
Qed.

Lemma sum_list_le {A} (f g : A -> nat) (l : list A) :
  (forall x, f x <= g x) -> sum_list (map f l) <= sum_list (map g l).
Proof.
  intros Hfg. induction l as [|x l IH]; simpl; [done|]. specialize (Hfg x). lia.
Qed.

(** X20.  [get_document_statistics].  Without documents the result is
    the empty dictionary.  With documents, the number of documents is the
    number of rows, there are no more distinct sources than documents and
    no more words than characters; the average length is undefined for a
    table without rows and otherwise is the number of characters divided
    by the number of rows, between any two bounds that hold for the
    length of every text. *)
Theorem document_statistics (r : DocumentRetriever) :
  match get_document_statistics r with
  | None => documents r = None
  | Some stats =>
      exists df,
        documents r = Some df
        /\ total_documents stats = length df
        /\ unique_sources stats <= total_documents stats
        /\ total_words stats <= total_characters df
        /\ match average_length stats with
           | None => df = []
           | Some average =>
               df <> []
               /\ (average * inject_Z (Z.of_nat (length df))
                   == inject_Z (Z.of_nat (total_characters df)))%Q
               /\ forall lo hi,
                    Forall (fun row => lo <= length (text row) <= hi) df ->
                    (inject_Z (Z.of_nat lo) <= average)%Q
                    /\ (average <= inject_Z (Z.of_nat hi))%Q
           end
  end.
Proof.
  unfold get_document_statistics. destruct (documents r) as [df|]; [|done].
  exists df. simpl. split; [done|]. split; [done|].
  split; [etrans; [apply remove_dups_length|by rewrite length_map]|].
  split; [apply sum_list_le; intros row; apply split_ws_length|].
  unfold series_mean, total_characters.
  destruct df as [|row df]; [done|].
  set (rows := row :: df). set (lengths := map (fun row => length (text row)) rows).
  change (match lengths with
          | [] => None
          | _ => Some (inject_Z (Z.of_nat (sum_list lengths))
                       / inject_Z (Z.of_nat (length lengths)))%Q
          end) with (Some (inject_Z (Z.of_nat (sum_list lengths))
                       / inject_Z (Z.of_nat (length lengths)))%Q).
  cbv iota.
  assert (Hlen : length lengths = length rows) by apply length_map.
  assert (Hpos : (0 < inject_Z (Z.of_nat (length rows)))%Q).
  { change 0%Q with (inject_Z 0). rewrite <- Zlt_Qlt. simpl. lia. }
  rewrite Hlen. split; [done|]. split.
  - unfold Qdiv. rewrite <- Qmult_assoc, (Qmult_comm (/ _)), Qmult_inv_r; [ring|].
    intros H. rewrite H in Hpos. by apply Qlt_irrefl in Hpos.
  - intros lo hi Hall.
    assert (Hb : length lengths * lo <= sum_list lengths <= length lengths * hi).
    { apply sum_list_bounds. unfold lengths. rewrite map_fmap. by apply Forall_fmap. }
    rewrite Hlen in Hb. split.
    + apply Qle_shift_div_l; [done|]. rewrite <- inject_Z_mult, <- Zle_Qle. lia.
    + apply Qle_shift_div_r; [done|]. rewrite <- inject_Z_mult, <- Zle_Qle. lia.
Qed.


(** *** Extraction for the knowledge graph *)

Lemma found_filter env patterns t :
  Forall (fun p => parse_pattern p = Some [atoms_of p]) patterns ->
  found env patterns t
  = Ok (filter (fun p => search_here_or_later (atoms_of p) t = true) patterns).
Proof.
  induction 1 as [|p patterns Hp Hall IH]; [done|].
  change (found env (p :: patterns) t)
    with (regex ← re_compile env p; rest ← found env patterns t;
          Ok (if (regex : str -> bool) t then p :: rest else rest)).
  unfold re_compile. rewrite Hp, bind_Ok, IH, bind_Ok.
  simpl existsb. rewrite orb_false_r.
  destruct (search_here_or_later (atoms_of p) t) eqn:Hs.
  - by rewrite filter_cons_True.
  - rewrite filter_cons_False; [done|]. by rewrite Hs.
Qed.

Lemma org_patterns_parse :
  Forall (fun p => parse_pattern p = Some [atoms_of p]) org_patterns.
Proof. repeat constructor. Qed.
Lemma location_patterns_parse :
  Forall (fun p => parse_pattern p = Some [atoms_of p]) location_patterns.
Proof. repeat constructor. Qed.
Lemma concept_patterns_parse :
  Forall (fun p => parse_pattern p = Some [atoms_of p]) concept_patterns.
Proof. repeat constructor. Qed.

Lemma extract_entities_fold env df :
  _extract_entities env df
  = Ok (let entities := foldl entities_of_row no_entities df in
        mkEntities (remove_dups (MATStandard entities))
                   (remove_dups (Organization entities))
                   (remove_dups (Concept entities))
                   (remove_dups (Location entities))).
Proof.
  unfold _extract_entities.
  rewrite (for_each_ok df _ entities_of_row); [by rewrite bind_Ok|].
  intros entities row _.
  rewrite (found_filter env _ _ org_patterns_parse), bind_Ok.
  rewrite (found_filter env _ _ location_patterns_parse), bind_Ok.
  rewrite (found_filter env _ _ concept_patterns_parse), bind_Ok.
  reflexivity.
Qed.

Lemma entities_fold_fields init df :
  let entities := foldl entities_of_row init df in
  MATStandard entities = MATStandard init ++ flat_map (fun row => standards_in (text row)) df
  /\ Organization entities
     = Organization init
       ++ flat_map (fun row => filter (fun p => mentions p (text row) = true) org_patterns) df
  /\ Concept entities
     = Concept init
       ++ flat_map (fun row => map dots_to_spaces
                       (filter (fun p => mentions p (text row) = true) concept_patterns)) df
  /\ Location entities
     = Location init
       ++ flat_map (fun row => filter (fun p => mentions p (text row) = true)
                                 location_patterns) df.
Proof.
  revert init. induction df as [|row df IH]; intros init.
  - simpl. by rewrite !app_nil_r.
  - simpl foldl. destruct (IH (entities_of_row init row)) as (H1 & H2 & H3 & H4).
    cbv zeta. rewrite H1, H2, H3, H4. simpl. by rewrite <- !app_assoc.
Qed.

Lemma match_backslash_d_spec prefix t n :
  match_backslash_d prefix t = Some n ->
  t !! length prefix = Some "\"%char /\ length prefix < n.
Proof.
  unfold match_backslash_d. destruct (match_here (map Lit prefix) t); [|done].
  destruct (drop (length prefix) t) as [|c rest] eqn:Hdrop; [done|].
  destruct (Ascii.eqb_spec c "\"); simpl; [|done]. subst c.
  case_bool_decide; [|done]. intros [= <-]. split; [|lia].
  rewrite <- (Nat.add_0_r (length prefix)), <- lookup_drop, Hdrop. done.
Qed.

Lemma findall_go_backslash prefix skip t s :
  s ∈ findall_go prefix skip t -> "\"%char ∈ s.
Proof.
  revert skip. induction t as [|c t IH]; intros skip Hs; [by apply elem_of_nil in Hs|].
  simpl findall_go in Hs. destruct skip as [|skip]; [|by eapply IH].
  destruct (match_backslash_d prefix (c :: t)) as [n|] eqn:Hm; [|by eapply IH].
  apply elem_of_cons in Hs as [->|Hs]; [|by eapply IH].
  apply match_backslash_d_spec in Hm as [Hat Hn].
  apply list_elem_of_lookup. exists (length prefix). by rewrite lookup_take_lt.
Qed.

Lemma match_here_literals atoms t c :
  match_here atoms t = true -> Lit c ∈ atoms ->
  exists d, d ∈ t /\ lower_char c = lower_char d.
Proof.
  revert t. induction atoms as [|a atoms IH]; intros t Hm Hc; [by apply elem_of_nil in Hc|].
  destruct t as [|d t]; [by destruct a|]. simpl in Hm.
  apply elem_of_cons in Hc as [<-|Hc].
  - apply andb_prop in Hm as [Hd _]. apply Ascii.eqb_eq in Hd.
    exists d. split; [apply elem_of_cons; by left|done].
  - assert (Hrest : match_here atoms t = true) by (destruct a; by apply andb_prop in Hm as [_ ?]).
    destruct (IH t Hrest Hc) as (d' & Hd' & Heq).
    exists d'. split; [apply elem_of_cons; by right|done].
Qed.

Lemma search_literals atoms t c :
  search_here_or_later atoms t = true -> Lit c ∈ atoms ->
  exists d, d ∈ t /\ lower_char c = lower_char d.
Proof.
  induction t as [|d t IH]; simpl; intros Hs Hc.
  - rewrite orb_false_r in Hs. by apply (match_here_literals atoms []).
  - apply orb_prop in Hs as [Hm|Hs]; [by apply (match_here_literals atoms (d :: t))|].
    destruct (IH Hs Hc) as (d' & Hd' & Heq).
    exists d'. split; [apply elem_of_cons; by right|done].
Qed.

Lemma kept_lower_str t : over_kept_class t -> lower t = t.
Proof.
  induction 1 as [|c t Hc Ht IH]; [done|]. simpl. by rewrite (kept_lower c Hc), IH.
Qed.

Lemma has_foreign_elem atoms :
  has_foreign atoms = true ->
  exists c, Lit c ∈ atoms /\ in_kept_class (lower_char c) = false.
Proof.
  unfold has_foreign. intros (a & Ha & Hf)%existsb_exists. destruct a as [c|]; [|done].
  exists c. split; [by apply list_elem_of_In|by apply negb_true_iff].
Qed.

Lemma match_here_kept atoms t :
  has_foreign atoms = true -> over_kept_class t -> match_here atoms t = false.
Proof.
  intros (c & Hc & Hf)%has_foreign_elem Ht.
  destruct (match_here atoms t) eqn:Hm; [|done].
  destruct (match_here_literals atoms t c Hm Hc) as (d & Hd & Heq).
  unfold over_kept_class in Ht. rewrite Forall_forall in Ht. specialize (Ht d Hd).
  rewrite (kept_lower d Ht) in Heq. congruence.
Qed.

Lemma search_kept atoms t :
  has_foreign atoms = true -> over_kept_class t -> search_here_or_later atoms t = false.
Proof.
  intros (c & Hc & Hf)%has_foreign_elem Ht.
  destruct (search_here_or_later atoms t) eqn:Hs; [|done].
  destruct (search_literals atoms t c Hs Hc) as (d & Hd & Heq).
  unfold over_kept_class in Ht. rewrite Forall_forall in Ht. specialize (Ht d Hd).
  rewrite (kept_lower d Ht) in Heq. congruence.
Qed.

Lemma findall_go_kept prefix skip t :
  has_foreign (map Lit prefix) = true -> over_kept_class t -> findall_go prefix skip t = [].
Proof.
  intros Hf. revert skip. induction t as [|c t IH]; intros skip Ht; [done|].
  pose proof Ht as Ht'. apply Forall_cons in Ht' as [_ Ht'].
  simpl findall_go. destruct skip as [|skip]; [|by apply IH].
  unfold match_backslash_d. rewrite (match_here_kept _ _ Hf Ht). by apply IH.
Qed.

Lemma contains_chars needle hay c :
  contains needle hay = true -> c ∈ needle -> c ∈ hay.
Proof.
  assert (Hstart : forall hay, starts_with needle hay = true -> c ∈ needle -> c ∈ hay).
  { induction needle as [|a needle IH]; intros hay' Hs Hc; [by apply elem_of_nil in Hc|].
    destruct hay' as [|b hay']; [done|]. simpl in Hs. apply andb_prop in Hs as [Hab Hs].
    apply Ascii.eqb_eq in Hab. subst b.
    apply elem_of_cons in Hc as [->|Hc]; [apply elem_of_cons; by left|].
    apply elem_of_cons; right. by apply IH. }
  induction hay as [|b hay IH]; simpl; intros Hs Hc.
  - rewrite orb_false_r in Hs. by apply Hstart.
  - apply orb_prop in Hs as [Hs|Hs]; [by apply Hstart|].
    apply elem_of_cons; right. by apply IH.
Qed.

Lemma contains_kept needle hay :
  existsb (fun c => negb (in_kept_class c)) needle = true -> over_kept_class hay ->
  contains needle hay = false.
Proof.
  intros (c & Hc & Hf)%existsb_exists Hhay. apply negb_true_iff in Hf.
  destruct (contains needle hay) eqn:Hs; [|done].
  apply list_elem_of_In in Hc. pose proof (contains_chars _ _ _ Hs Hc) as Hin.
  unfold over_kept_class in Hhay. rewrite Forall_forall in Hhay. specialize (Hhay c Hin). congruence.
Qed.

Lemma entities_of_row_kept entities row :
  over_kept_class (text row) -> entities_of_row entities row = entities.
Proof.
  intros Hk. unfold entities_of_row, standards_in, mentions.
  rewrite (kept_lower_str _ Hk).
  assert (Hstd : flat_map (fun pattern => findall_backslash_d pattern (text row)) mat_patterns = []).
  { unfold mat_patterns, findall_backslash_d. simpl flat_map.
    rewrite !findall_go_kept by done. done. }
  assert (Hnone : forall patterns,
    forallb (fun p => has_foreign (atoms_of p)) patterns = true ->
    filter (fun p => search_here_or_later (atoms_of p) (text row) = true) patterns = []).
  { intros patterns Hall. apply filter_none, Forall_forall. intros p Hp.
    rewrite forallb_forall in Hall. specialize (Hall p (proj1 (list_elem_of_In _ _) Hp)).
    by rewrite (search_kept _ _ Hall Hk). }
  rewrite Hstd, !Hnone by done. simpl. rewrite !app_nil_r. by destruct entities.
Qed.

(** X22.  [_extract_entities] never raises, and what it finds.  An
    organization or a location is listed exactly when it is one of the
    fixed names and some text mentions it, case ignored; a concept
    exactly when it is one of the fixed patterns, its dots written as
    spaces, and some text matches the pattern; a standard exactly when it
    is found in some text.  The patterns for standards are written with
    two backslashes: every standard found contains a backslash, so that a
    text such as "MAT Standard 1" yields none. *)
Theorem extract_entities_spec (env : Env) (df : DataFrame) :
  exists entities,
    _extract_entities env df = Ok entities
    /\ (forall p, p ∈ Organization entities <->
          p ∈ org_patterns /\ exists row, row ∈ df /\ mentions p (text row) = true)
    /\ (forall p, p ∈ Location entities <->
          p ∈ location_patterns /\ exists row, row ∈ df /\ mentions p (text row) = true)
    /\ (forall c, c ∈ Concept entities <->
          exists p, p ∈ concept_patterns /\ c = dots_to_spaces p
                    /\ exists row, row ∈ df /\ mentions p (text row) = true)
    /\ (forall s, s ∈ MATStandard entities <->
          exists row, row ∈ df /\ s ∈ standards_in (text row))
    /\ (forall s, s ∈ MATStandard entities -> "\"%char ∈ s).
Proof.
  eexists. split; [apply extract_entities_fold|].
  destruct (entities_fold_fields no_entities df) as (H1 & H2 & H3 & H4).
  cbv zeta in *. simpl MATStandard. simpl Organization. simpl Concept. simpl Location.
  rewrite H1, H2, H3, H4. simpl app.
  assert (Hstd : forall s, s ∈ remove_dups (flat_map (fun row => standards_in (text row)) df)
                 <-> exists row, row ∈ df /\ s ∈ standards_in (text row)).
  { intros s. rewrite elem_of_remove_dups, list_elem_of_In, in_flat_map.
    split; intros (row & Hrow & Hs); exists row.
    - by rewrite !list_elem_of_In.
    - by rewrite <- !list_elem_of_In. }
  split; [|split; [|split; [|split; [exact Hstd|]]]].
  - intros p. rewrite elem_of_remove_dups, list_elem_of_In, in_flat_map. split.
    + intros (row & Hrow & [Hm Hp]%list_elem_of_In%list_elem_of_filter).
      split; [done|]. exists row. by rewrite list_elem_of_In.
    + intros (Hp & row & Hrow & Hm). exists row. rewrite <- list_elem_of_In.
      split; [done|]. apply list_elem_of_In. by apply list_elem_of_filter.
  - intros p. rewrite elem_of_remove_dups, list_elem_of_In, in_flat_map. split.
    + intros (row & Hrow & [Hm Hp]%list_elem_of_In%list_elem_of_filter).
      split; [done|]. exists row. by rewrite list_elem_of_In.
    + intros (Hp & row & Hrow & Hm). exists row. rewrite <- list_elem_of_In.
      split; [done|]. apply list_elem_of_In. by apply list_elem_of_filter.
  - intros c. rewrite elem_of_remove_dups, list_elem_of_In, in_flat_map. split.
    + intros (row & Hrow & (p & <- & [Hm Hp]%list_elem_of_In%list_elem_of_filter)%in_map_iff).
      exists p. split; [done|]. split; [done|]. exists row. by rewrite list_elem_of_In.
    + intros (p & Hp & -> & row & Hrow & Hm). exists row. rewrite <- list_elem_of_In.
      split; [done|]. apply in_map_iff. exists p. split; [done|].
      apply list_elem_of_In. by apply list_elem_of_filter.
  - intros s (row & _ & Hs)%Hstd. unfold standards_in in Hs.
    apply list_elem_of_In, in_flat_map in Hs as (prefix & _ & Hs).
    apply list_elem_of_In in Hs. by eapply findall_go_backslash.
Qed.

Lemma clean_data_kept (df : DataFrame) : Forall (fun row => over_kept_class (text row)) (clean_data df).
Proof.
  unfold clean_data, reset_index. apply Forall_forall.
  intros row' (i & r4 & Hi & ->)%imap_elem. simpl.
  apply list_elem_of_lookup_2 in Hi. apply list_elem_of_filter in Hi as [_ H3].
  rewrite map_fmap in H3. apply list_elem_of_fmap in H3 as (r2 & -> & _). simpl.
  apply clean_text_kept.
Qed.

Lemma relationships_kept relationships df :
  Forall (fun row => over_kept_class (text row)) df ->
  foldl (fun relationships row =>
    let t := lower (text row) in
    mkRelationships
      (SUPPORTS relationships
       ++ (if contains (py "supports") t then [(py "MAT", py "Support")] else []))
      (IMPLEMENTS relationships
       ++ (if contains (py "implements") t || contains (py "implementation") t
           then [(py "MAT Standards", py "Implementation")] else []))
      (AIMS_AT relationships
       ++ (if contains (py "aims") t || contains (py "aimed at") t
           then [(py "MAT Standards", py "Organizations")] else []))
      (PROVIDES relationships
       ++ (if contains (py "provides") t then [(py "MAT", py "Treatment")] else [])))
    relationships df = relationships.
Proof.
  intros Hall. revert relationships.
  induction Hall as [|row df Hk Hall IH]; intros relationships; [done|].
  simpl foldl. rewrite (kept_lower_str _ Hk).
  rewrite !contains_kept by done. simpl. rewrite !app_nil_r, IH. by destruct relationships.
Qed.

(** X23.  Extraction from cleaned data, as
    [scrape_and_process_data] runs it.  Whatever the table, the texts
    [clean_data] returns have no match for any of the patterns and none
    of the key words: no entity and no relationship is extracted from
    them. *)
Theorem nothing_extracted_from_clean_data (env : Env) (df : DataFrame) :
  _extract_entities env (clean_data df) = Ok no_entities
  /\ _extract_relationships (clean_data df) = no_relationships.
Proof.
  pose proof (clean_data_kept df) as Hk. split.
  - rewrite extract_entities_fold. f_equal.
    assert (H : foldl entities_of_row no_entities (clean_data df) = no_entities).
    { generalize no_entities. induction Hk as [|row rows Hrow Hrows IH]; intros e; [done|].
      simpl. by rewrite entities_of_row_kept, IH. }
    by rewrite H.
  - unfold _extract_relationships. by apply relationships_kept.
Qed.

(** ** The further properties at concrete inputs *)

Lemma retrieve_best_witness :
  fitted_index (fitted_on test_documents) test_documents
  /\ (0 < 1)%Z
  /\ (0 < tfidf_cosine (test_env failing_generator) (map text test_documents)
            (py "MAT treatment") (py "Medication assisted treatment helps patients"))%Q
  /\ exists hits,
       retrieve (test_env failing_generator) (fitted_on test_documents) (py "MAT treatment") 1
       = Ok (fitted_on test_documents, hits)
       /\ (1 ∉ map hit_index hits)
       /\ length hits = Z.to_nat 1
       /\ Forall (fun h =>
            (tfidf_cosine (test_env failing_generator) (map text test_documents)
               (py "MAT treatment") (py "Medication assisted treatment helps patients")
             <= similarity h)%Q) hits.
Proof.
  assert (Hfit : fitted_index (fitted_on test_documents) test_documents)
    by (split; reflexivity).
  assert (Hk : (0 < 1)%Z) by lia.
  assert (Hpos : (0 < tfidf_cosine (test_env failing_generator) (map text test_documents)
            (py "MAT treatment") (py "Medication assisted treatment helps patients"))%Q)
    by (vm_compute; reflexivity).
  split; [exact Hfit|]. split; [exact Hk|]. split; [exact Hpos|].
  destruct (retrieve_best (test_env failing_generator) (fitted_on test_documents)
              test_documents (py "MAT treatment") 1 Hfit Hk)
    as (hits & Hret & _ & Hbest).
  exists hits. split; [exact Hret|].
  assert (Hout : 1 ∉ map hit_index hits).
  { rewrite (retrieve_fitted _ _ _ _ _ Hfit) in Hret.
    apply (f_equal (fun o => match o with Ok p => snd p | Raise _ => [] end)) in Hret.
    change (map (hit_at test_documents)
              (ranking (test_env failing_generator) test_documents (py "MAT treatment") 1)
            = hits) in Hret.
    rewrite <- Hret. vm_compute.
    intros [H|H]%elem_of_cons; [discriminate H|by apply elem_of_nil in H]. }
  split; [exact Hout|].
  exact (Hbest 1 (mkRow 1 (py "Medication assisted treatment helps patients") (py "url2") 44)
           eq_refl Hpos Hout).
Defined.


Lemma retrieve_fits_first_witness :
  fitted (mkRetriever (Some test_documents) None) = None
  /\ fit (test_env failing_generator) (mkRetriever (Some test_documents) None)
     = Ok (fitted_on test_documents)
  /\ exists hits,
       retrieve (test_env failing_generator) (mkRetriever (Some test_documents) None)
         (py "MAT standards") 2
       = Ok (fitted_on test_documents, hits).
Proof.
  split; [reflexivity|].
  pose proof (retrieve_fits_first (test_env failing_generator)
                (mkRetriever (Some test_documents) None) (py "MAT standards") 2 eq_refl)
    as H.
  change (fit (test_env failing_generator) (mkRetriever (Some test_documents) None)
          = Ok (fitted_on test_documents)
          /\ retrieve (test_env failing_generator) (mkRetriever (Some test_documents) None)
               (py "MAT standards") 2
             = retrieve (test_env failing_generator) (fitted_on test_documents)
                 (py "MAT standards") 2
          /\ exists hits,
               retrieve (test_env failing_generator) (mkRetriever (Some test_documents) None)
                 (py "MAT standards") 2
               = Ok (fitted_on test_documents, hits)) in H.
  destruct H as (H1 & _ & H3). split; [exact H1|exact H3].
Defined.


Lemma response_bounds_witness :
  exists resp,
    generate_response (test_env echo_generator) test_system (py "MAT standards") true 3
    = Ok (test_system, resp)
    /\ length (response resp) <= 503
    /\ strip (response resp) = response resp.
Proof.
  pose proof (generate_response_loaded (test_env echo_generator) test_system test_documents
                (py "MAT standards") true 3 eq_refl (conj eq_refl eq_refl)) as Hgen.
  cbv zeta in Hgen. eexists. split; [exact Hgen|].
  destruct (response_bounds _ _ _ _ _ _ _ Hgen) as (H1 & H2 & _).
  split; [exact H1|exact H2].
Defined.

Lemma kg_context_cases_witness :
  contains (py "standard") (lower (py "What is MAT Standard 1?")) = true
  /\ None ∈ query_graph (nameless_graph (test_env failing_generator)) standards_query
  /\ _get_kg_context (nameless_graph (test_env failing_generator))
       (py "What is MAT Standard 1?") = [].
Proof.
  assert (H1 : contains (py "standard") (lower (py "What is MAT Standard 1?")) = true)
    by reflexivity.
  assert (H2 : None ∈ query_graph (nameless_graph (test_env failing_generator))
                      standards_query)
    by (apply list_elem_of_singleton; reflexivity).
  split; [exact H1|]. split; [exact H2|].
  exact (proj1 (proj2 (kg_context_cases (nameless_graph (test_env failing_generator))
                         (py "What is MAT Standard 1?"))) H1 H2).
Defined.

Lemma evaluate_response_ratios_witness :
  split_ws (py "MAT standards guide care") <> []
  /\ (m_length_ratio (evaluate_response (test_env failing_generator)
                        (py "MAT standards guide care") (py "MAT standards guide care")) == 1)%Q
  /\ (m_keyword_overlap (evaluate_response (test_env failing_generator)
                           (py "MAT standards guide care") (py "MAT standards guide care")) == 1)%Q.
Proof.
  assert (H : split_ws (py "MAT standards guide care") <> []) by discriminate.
  split; [exact H|].
  exact (proj1 (proj2 (proj2 (proj2 (proj2
           (evaluate_response_ratios (test_env failing_generator)
              (py "MAT standards guide care") (py "")))))) H).
Defined.

Lemma run_evaluation_sets_up_witness :
  is_loaded fresh_system = false
  /\ [one_case] <> []
  /\ exists report,
       run_evaluation (test_env echo_generator) fresh_system (Some [one_case])
       = Ok (test_system, report)
       /\ map question (individual_results report) = map tc_question [one_case].
Proof.
  assert (H1 : is_loaded fresh_system = false) by reflexivity.
  assert (H2 : [one_case] <> []) by discriminate.
  split; [exact H1|]. split; [exact H2|].
  pose proof (run_evaluation_sets_up (test_env echo_generator) fresh_system [one_case] H1 H2)
    as H.
  change (exists report,
            run_evaluation (test_env echo_generator) fresh_system (Some [one_case])
            = Ok (test_system, report)
            /\ map question (individual_results report) = map tc_question [one_case]
            /\ (is_loaded test_system = true ->
                Forall2 (recorded (test_env echo_generator) test_system) [one_case]
                  (individual_results report))
            /\ (is_loaded test_system = false ->
                Forall unanswered (individual_results report))) in H.
  destruct H as (report & Hrun & Hq & _). exists report. split; [exact Hrun|exact Hq].
Defined.

Lemma aggregate_extremes_witness :
  two_records <> []
  /\ exists agg lo hi,
       _calculate_aggregate_metrics two_records = Ok agg
       /\ agg !! min_key bleu = Some lo
       /\ agg !! max_key bleu = Some hi
       /\ lo ∈ map (get bleu) two_records
       /\ hi ∈ map (get bleu) two_records
       /\ Forall (fun r => (lo <= get bleu r)%Q /\ (get bleu r <= hi)%Q) two_records.
Proof.
  assert (Hne : two_records <> []) by discriminate.
  split; [exact Hne|].
  destruct (aggregate_extremes two_records Hne) as (agg & Hagg & Hall).
  destruct (Hall bleu) as (lo & hi & Hlo & Hhi & Hlo_in & Hhi_in & Hbetween).
  exists agg, lo, hi. repeat split; assumption.
Defined.

Lemma aggregate_size_witness :
  two_records <> []
  /\ exists agg,
       _calculate_aggregate_metrics two_records = Ok agg
       /\ size agg = 15 + 5 * length (remove_dups (map category two_records)).
Proof.
  assert (Hne : two_records <> []) by discriminate.
  split; [exact Hne|]. exact (aggregate_size two_records Hne).
Defined.

Lemma chat_history_window_witness :
  fitted_index (retriever test_system) test_documents
  /\ length (@nil Exchange) <= 10
  /\ length (spoken twelve_queries) = 12
  /\ length (chat_history (session (test_env echo_generator) (py "")
                             (mkChatbot test_system []) twelve_queries)) <= 10.
Proof.
  assert (Hfit : fitted_index (retriever test_system) test_documents)
    by (split; reflexivity).
  assert (Hlen : length (@nil Exchange) <= 10) by (simpl; lia).
  split; [exact Hfit|]. split; [exact Hlen|]. split; [reflexivity|].
  exact (proj2 (proj2 (chat_history_window (test_env echo_generator) (py "")
                         (mkChatbot test_system []) test_documents twelve_queries
                         Hfit Hlen))).
Defined.

Lemma chat_history_grows_witness :
  (forall query, exists e,
     generate_response (test_env echo_generator) empty_system query true 3 = Raise e)
  /\ length (chat_history (session (test_env echo_generator) (py "")
                             (mkChatbot empty_system []) twelve_queries))
     = 0 + length (spoken twelve_queries)
  /\ length (spoken twelve_queries) = 12.
Proof.
  assert (H : forall query, exists e,
     generate_response (test_env echo_generator) empty_system query true 3 = Raise e).
  { intros query. exists ValueError. by apply generate_response_no_documents. }
  split; [exact H|]. split; [|reflexivity].
  exact (proj2 (proj2 (chat_history_grows (test_env echo_generator) (py "")
                         (mkChatbot empty_system []) twelve_queries H))).
Defined.

Lemma format_chat_history_one_line_witness :
  one_line (py "")
  /\ Forall (fun exchange =>
       one_line (ex_query exchange) /\ one_line (ex_response exchange)
       /\ Forall one_line (ex_sources exchange))
       [mkExchange (py "What is MAT?") (py "MAT standards guide treatment.") [py "url1"]]
  /\ one_line (_format_chat_history (py "")
                 (mkChatbot test_system
                    [mkExchange (py "What is MAT?") (py "MAT standards guide treatment.")
                       [py "url1"]])).
Proof.
  assert (H1 : one_line (py "")) by constructor.
  assert (H2 : Forall (fun exchange =>
       one_line (ex_query exchange) /\ one_line (ex_response exchange)
       /\ Forall one_line (ex_sources exchange))
       [mkExchange (py "What is MAT?") (py "MAT standards guide treatment.") [py "url1"]]).
  { constructor; [|constructor]. simpl.
    split; [by apply one_line_literal|]. split; [by apply one_line_literal|].
    constructor; [by apply one_line_literal|constructor]. }
  split; [exact H1|]. split; [exact H2|].
  exact (format_chat_history_one_line (py "")
           (mkChatbot test_system
              [mkExchange (py "What is MAT?") (py "MAT standards guide treatment.")
                 [py "url1"]]) H1 H2).
Defined.
